(** * S3 gateway write path: bucket creation, object copy, auth middleware

    A shallow embedding of [api/handler/put.go], [api/handler/copy.go]
    and [api/user-auth.go].  Go strings are [string]; [uint32]/[uint64]
    values are [Z] with the wrap-around written out; Go maps are [gmap]
    wrapped in [option] where the code tests them against [nil]; a Go
    [(value, error)] pair is a pair whose second component is
    [option error].  Calls that leave the three files (the object layer,
    the credential center, the XML decoder, ...) are fields of records that
    the handlers take as arguments, and every call made on the object layer
    is appended to a trace. *)

From Stdlib Require Import ZArith Ascii String List Bool Lia Sorted.
From stdpp Require Import base option list gmap strings fin_maps.

Local Open Scope Z_scope.

(** ** Go strings *)

Module GoString.

Definition code (c : ascii) : Z := Z.of_N (N_of_ascii c).

Definition chr (z : Z) : ascii := ascii_of_N (Z.to_N z).

Definition is_upper (c : ascii) : bool := (65 <=? code c) && (code c <=? 90).

Definition is_lower (c : ascii) : bool := (97 <=? code c) && (code c <=? 122).

(** The byte maps of [strings.ToLower] and [strings.ToUpper] on ASCII
    strings: bytes outside 'A'..'Z' (resp. 'a'..'z') are left as they
    are. *)
Definition lower_char (c : ascii) : ascii :=
  if is_upper c then chr (code c + 32) else c.

Definition upper_char (c : ascii) : ascii :=
  if is_lower c then chr (code c - 32) else c.

(** No byte of the string is [utf8.RuneSelf] (0x80) or more. *)
Fixpoint isASCII (s : string) : bool :=
  match s with
  | EmptyString => true
  | String c s' => (code c <? 128) && isASCII s'
  end.

Fixpoint lowerASCII (s : string) : string :=
  match s with
  | EmptyString => EmptyString
  | String c s' => String (lower_char c) (lowerASCII s')
  end.

(** [strings.ToLower]: a string of ASCII bytes is mapped byte by byte; any
    other string goes through [strings.Map(unicode.ToLower, s)], which
    decodes UTF-8 and maps every rune, and is the parameter
    [mapToLower]. *)
Definition ToLower (mapToLower : string → string) (s : string) : string :=
  if isASCII s then lowerASCII s else mapToLower s.

(** The upper-case spelling of an ASCII string; the handlers do not call
    it, the statements about spellings do. *)
Fixpoint ToUpper (s : string) : string :=
  match s with
  | EmptyString => EmptyString
  | String c s' => String (upper_char c) (ToUpper s')
  end.

Fixpoint mem (c : ascii) (cutset : string) : bool :=
  match cutset with
  | EmptyString => false
  | String d cutset' => if Ascii.eqb c d then true else mem c cutset'
  end.

(** [strings.TrimLeft]: drop every leading character found in [cutset]. *)
Fixpoint TrimLeft (s cutset : string) : string :=
  match s with
  | EmptyString => EmptyString
  | String c s' => if mem c cutset then TrimLeft s' cutset else s
  end.

(** [strings.TrimRight]: drop every trailing character found in
    [cutset]. *)
Fixpoint TrimRight (s cutset : string) : string :=
  match s with
  | EmptyString => EmptyString
  | String c s' =>
      match TrimRight s' cutset with
      | EmptyString => if mem c cutset then EmptyString else String c EmptyString
      | t => String c t
      end
  end.

(** [strings.Trim(s, cutset)] removes the characters of [cutset] from both
    ends of [s]. *)
Definition Trim (s cutset : string) : string :=
  TrimRight (TrimLeft s cutset) cutset.

Fixpoint HasPrefix (s prefix : string) {struct prefix} : bool :=
  match prefix, s with
  | EmptyString, _ => true
  | String p prefix', String c s' => Ascii.eqb c p && HasPrefix s' prefix'
  | String _ _, EmptyString => false
  end.

Fixpoint drop (n : nat) (s : string) : string :=
  match n, s with
  | O, _ => s
  | S n', String _ s' => drop n' s'
  | S _, EmptyString => EmptyString
  end.

(** [strings.TrimPrefix]: [s] without the leading [prefix], or [s]. *)
Definition TrimPrefix (s prefix : string) : string :=
  if HasPrefix s prefix then drop (String.length prefix) s else s.

End GoString.

(** ** strconv.ParseUint(s, 16, 32) *)

Module Strconv.

Inductive NumError := ErrSyntax | ErrRange.

Definition maxUint64 : Z := 2 ^ 64 - 1.

(** [cutoff] is the smallest number with [cutoff * 16 > maxUint64]. *)
Definition cutoff : Z := maxUint64 / 16 + 1.

Definition maxVal : Z := 2 ^ 32 - 1.

Definition u64 (z : Z) : Z := z mod 2 ^ 64.

Definition u8 (z : Z) : Z := z mod 2 ^ 8.

(** [lower(c) = c | ('x' - 'X')]. *)
Definition lower (c : Z) : Z := Z.lor c 32.

Definition digit (c : Z) : option Z :=
  if (48 <=? c) && (c <=? 57) then Some (u8 (c - 48))
  else if (97 <=? lower c) && (lower c <=? 122) then Some (u8 (lower c - 97 + 10))
  else None.

Fixpoint loop (cs : string) (n : Z) : Z * option NumError :=
  match cs with
  | EmptyString => (n, None)
  | String ch cs' =>
      match digit (GoString.code ch) with
      | None => (0, Some ErrSyntax)
      | Some d =>
          if 16 <=? d then (0, Some ErrSyntax)
          else if cutoff <=? n then (maxVal, Some ErrRange)
          else
            let n16 := u64 (n * 16) in
            let n1 := u64 (n16 + d) in
            if (n1 <? n16) || (maxVal <? n1) then (maxVal, Some ErrRange)
            else loop cs' n1
      end
  end.

Definition ParseUint16_32 (s : string) : Z * option NumError :=
  match s with
  | EmptyString => (0, Some ErrSyntax)
  | _ => loop s 0
  end.

End Strconv.

(** ** Errors *)

(** The symbolic S3 errors the three files name. *)
Inductive ErrorCode :=
| ErrAccessDenied
| ErrBadRequest
| ErrInternalError
| ErrInvalidMetadataDirective
| ErrInvalidRequest
| ErrInvalidTaggingDirective
| ErrPreconditionFailed.

(** A Go [error] value: an entry of the S3 error table
    ([GetAPIError(code)]), a [fmt.Errorf] message, the credential center's
    sentinel, or an error produced outside these files. *)
Inductive error :=
| APIError (c : ErrorCode)
| Errorf (msg : string)
| ErrNoAuthorizationHeader
| Foreign (msg : string).

(** Modelled from the spec: the HTTP status column of the error table of
    [api/errors], which is not among the sources.  The spec gives 403 for
    AccessDenied, 412 for PreconditionFailed, 400 for the two directive
    errors and for bad requests, and 500 for InternalError. *)
Definition HTTPStatusCode (c : ErrorCode) : Z :=
  match c with
  | ErrAccessDenied => 403
  | ErrBadRequest => 400
  | ErrInternalError => 500
  | ErrInvalidMetadataDirective => 400
  | ErrInvalidRequest => 400
  | ErrInvalidTaggingDirective => 400
  | ErrPreconditionFailed => 412
  end.

(** Modelled from the spec: the responder of [api], not among the sources:
    a mapped S3 error is sent with its recorded status, any other error is
    wrapped as InternalError. *)
Definition status_of (e : error) : Z :=
  match e with
  | APIError c => HTTPStatusCode c
  | _ => HTTPStatusCode ErrInternalError
  end.

(** ** Canned ACL parser (put.go) *)

Definition basicACLPrivate : string := "private".
Definition basicACLReadOnly : string := "public-read".
Definition basicACLPublic : string := "public-read-write".
Definition defaultPolicy : string := "REP 3".
Definition publicBasicRule : Z := 0x0FFFFFFF.

(** The three constants of the [acl] package of the API library; their
    values are not in the sources and are left open. *)
Record AclRules := {
  PublicBasicRule : Z;
  PrivateBasicRule : Z;
  ReadOnlyBasicRule : Z
}.

Definition u32 (z : Z) : Z := z mod 2 ^ 32.

(** [mapToLower] is what [strings.ToLower] does to a value that is not
    ASCII, see [GoString.ToLower]. *)
Definition parseBasicACL (acl : AclRules) (mapToLower : string → string)
    (basicACL : string) : Z * option error :=
  if String.eqb basicACL basicACLPublic then (PublicBasicRule acl, None)
  else if String.eqb basicACL basicACLPrivate then (PrivateBasicRule acl, None)
  else if String.eqb basicACL basicACLReadOnly then (ReadOnlyBasicRule acl, None)
  else
    let basicACL := GoString.Trim (GoString.ToLower mapToLower basicACL) "0x" in
    match Strconv.ParseUint16_32 basicACL with
    | (_, Some _) => (0, Some (Errorf ("can't parse basic ACL: " +:+ basicACL)))
    | (value, None) => (u32 value, None)
    end.


(** ** HTTP requests and contexts *)

(** [http.Header] is [map[string][]string]; the keys are in the canonical
    form in which [net/http] stores them. *)
Abbreviation Header := (gmap string (list string)).

(** [Header.Get]: the first value stored under the key, or the empty
    string. *)
Definition Header_Get (h : Header) (key : string) : string :=
  match h !! key with
  | Some (v :: _) => v
  | _ => ""
  end.

(** Modelled from the spec: the header and query names of [api/headers.go],
    which is not among the sources, in canonical form. *)
Module api.
Definition MetadataPrefix : string := "X-Amz-Meta-".
Definition ContentType : string := "Content-Type".
Definition AmzACL : string := "X-Amz-Acl".
Definition AmzCopySource : string := "X-Amz-Copy-Source".
Definition AmzMetadataDirective : string := "X-Amz-Metadata-Directive".
Definition AmzTaggingDirective : string := "X-Amz-Tagging-Directive".
Definition AmzCopyIfMatch : string := "X-Amz-Copy-Source-If-Match".
Definition AmzCopyIfNoneMatch : string := "X-Amz-Copy-Source-If-None-Match".
Definition AmzCopyIfModifiedSince : string := "X-Amz-Copy-Source-If-Modified-Since".
Definition AmzCopyIfUnmodifiedSince : string := "X-Amz-Copy-Source-If-Unmodified-Since".
Definition AmzSourceExpectedBucketOwner : string := "X-Amz-Source-Expected-Bucket-Owner".
Definition QueryVersionID : string := "versionId".
End api.

(** Pointers to access boxes are locations of a store. *)
Abbreviation loc := positive.

(** Context keys: [api.KeyWrapper] is a string type of its own, so a
    [KeyWrapper] key differs from any key of another type. *)
Inductive ctx_key :=
| KeyWrapper (s : string)
| ForeignKey (s : string).

(** BoxData is an ID used to store accessbox.Box in a context. *)
Definition BoxData : ctx_key := KeyWrapper "__context_box_key".

(** What a context stores under a key, as far as [getBoxData] tells the
    values apart: a [*accessbox.Box] (possibly the nil pointer), or a value
    of another type. *)
Inductive ctx_value :=
| VBox (p : option loc)
| VOther (s : string).

#[global] Instance ctx_key_eq_dec : EqDecision ctx_key.
Proof. solve_decision. Defined.

(** [context.Context] as the chain of [WithValue] frames, innermost
    first. *)
Definition Context := list (ctx_key * ctx_value).

Definition WithValue (ctx : Context) (k : ctx_key) (v : ctx_value) : Context :=
  (k, v) :: ctx.

Fixpoint Value (ctx : Context) (k : ctx_key) : option ctx_value :=
  match ctx with
  | [] => None
  | (k', v) :: parent => if decide (k' = k) then Some v else Value parent k
  end.

Record Request := {
  rHeader : Header;
  rContentLength : Z;
  rBody : string;
  rVars : gmap string string;
  rURL : string;
  rContext : Context
}.

Definition WithContext (r : Request) (ctx : Context) : Request :=
  {| rHeader := rHeader r; rContentLength := rContentLength r; rBody := rBody r;
     rVars := rVars r; rURL := rURL r; rContext := ctx |}.

(** [mux.Vars(r)[name]]: a missing key reads as the empty string. *)
Definition Var (r : Request) (name : string) : string :=
  default "" (rVars r !! name).

(** ** Access boxes (creds/accessbox) *)

(** Modelled from the spec: [accessbox.GateData], [accessbox.ContainerPolicy]
    and [accessbox.Box] are declared outside the sources; the fields below
    are the ones the handlers read or write. *)
Record GateData := {
  AccessKey : string;
  SessionTokens : list string
}.

(** [&accessbox.GateData{}] *)
Definition emptyGateData : GateData := {| AccessKey := ""; SessionTokens := [] |}.

Record PlacementPolicy := { policyText : string }.

Record ContainerPolicy := {
  LocationConstraint : string;
  Policy : option PlacementPolicy
}.

Record Box := {
  Gate : option GateData;
  Policies : list ContainerPolicy
}.

Definition Box_setGate (b : Box) (g : option GateData) : Box :=
  {| Gate := g; Policies := Policies b |}.

(** ** Object-layer data (api/layer) *)

Record BucketInfo := {
  bktName : string;
  bktCID : string;
  bktOwner : string
}.

Module ObjectInfo.
Record t := {
  ID : string;
  Bucket : string;
  Name : string;
  Size : Z;
  ContentType : string;
  Created : Z;
  HashSum : string;
  Version : string;
  Headers : option (gmap string string)
}.

Definition setHeaders (o : t) (h : option (gmap string string)) : t :=
  {| ID := ID o; Bucket := Bucket o; Name := Name o; Size := Size o;
     ContentType := ContentType o; Created := Created o; HashSum := HashSum o;
     Version := Version o; Headers := h |}.

(** The [VersionID()] method. *)
Definition VersionID (o : t) : string := Version o.
End ObjectInfo.

Module HeadObjectParams.
Record t := {
  BktInfo : BucketInfo;
  Object : string;
  VersionID : string
}.
End HeadObjectParams.

Module ObjectVersion.
Record t := {
  BktInfo : BucketInfo;
  ObjectName : string;
  VersionID : string
}.
End ObjectVersion.

Record EncryptionParams := {
  sseEnabled : bool;
  sseKey : string
}.

Record ObjectLock := { lockText : string }.

Module CopyObjectParams.
Record t := {
  SrcObject : ObjectInfo.t;
  ScrBktInfo : BucketInfo;
  DstBktInfo : BucketInfo;
  DstObject : string;
  SrcSize : Z;
  Header : option (gmap string string);
  Encryption : EncryptionParams;
  CopiesNuber : list Z;
  Lock : option ObjectLock
}.

Definition setLock (p : t) (l : option ObjectLock) : t :=
  {| SrcObject := SrcObject p; ScrBktInfo := ScrBktInfo p;
     DstBktInfo := DstBktInfo p; DstObject := DstObject p;
     SrcSize := SrcSize p; Header := Header p; Encryption := Encryption p;
     CopiesNuber := CopiesNuber p; Lock := l |}.
End CopyObjectParams.

Module CreateBucketParams.
Record t := {
  Name : string;
  ACL : Z;
  Policy : option PlacementPolicy
}.
End CreateBucketParams.

Module PutBucketACLParams.
Record t := {
  BktInfo : BucketInfo;
  EACL : string;
  SessionToken : option string
}.
End PutBucketACLParams.

Record ReqInfo := {
  RequestID : string;
  BucketName : string;
  ObjectName : string
}.

Module SendNotificationParams.
Record t := {
  Event : string;
  NotificationInfo : string;
  BktInfo : BucketInfo;
  ReqInfo_ : ReqInfo
}.
End SendNotificationParams.

Definition EventObjectCreatedCopy : string := "s3:ObjectCreated:Copy".

Record BucketSettings := { LockConfiguration : string }.

Record CopyObjectResponse := {
  LastModified : string;
  ETag : string
}.

(** XML body of CreateBucket. *)
Record createBucketParams := { cbLocationConstraint : string }.

Record conditionalArgs := {
  IfMatch : string;
  IfNoneMatch : string;
  IfModifiedSince : option Z;
  IfUnmodifiedSince : option Z
}.

Record copyObjectArgs := {
  Conditional : conditionalArgs;
  MetadataDirective : string;
  TaggingDirective : string
}.

Definition replaceDirective : string := "REPLACE".
Definition copyDirective : string := "COPY".

(** ** The world a handler runs in *)

Inductive Level := LDebug | LInfo | LError.

Record LogEntry := {
  level : Level;
  message : string;
  logged : option error
}.

(** What a handler writes to its [http.ResponseWriter]. *)
Inductive Write :=
| WError (e : error)
| WSuccessHeadersOnly
| WEncoded (body : CopyObjectResponse).

(** Calls on the object layer ([h.obj]) and on the notification sender. *)
Inductive Call :=
| CGetObjectInfo (p : HeadObjectParams.t)
| CGetObjectTagging (v : ObjectVersion.t)
| CCopyObject (p : CopyObjectParams.t)
| CGetBucketSettings (b : BucketInfo)
| CPutBucketACL (p : PutBucketACLParams.t)
| CPutObjectTagging (v : ObjectVersion.t) (tagSet : gmap string string)
| CCreateBucket (p : CreateBucketParams.t) (boxData : loc)
| CSendNotifications (s : SendNotificationParams.t).

(** The store of access boxes, the trace of calls, the log, the response
    written so far and the response headers. *)
Record World := {
  heap : gmap loc Box;
  calls : list Call;
  logs : list LogEntry;
  writes : list Write;
  wHeader : Header
}.

Definition set_heap (f : gmap loc Box → gmap loc Box) (w : World) : World :=
  {| heap := f (heap w); calls := calls w; logs := logs w; writes := writes w;
     wHeader := wHeader w |}.

Definition add_call (c : Call) (w : World) : World :=
  {| heap := heap w; calls := calls w ++ [c]; logs := logs w; writes := writes w;
     wHeader := wHeader w |}.

Definition add_log (e : LogEntry) (w : World) : World :=
  {| heap := heap w; calls := calls w; logs := logs w ++ [e]; writes := writes w;
     wHeader := wHeader w |}.

Definition add_write (x : Write) (w : World) : World :=
  {| heap := heap w; calls := calls w; logs := logs w; writes := writes w ++ [x];
     wHeader := wHeader w |}.

Definition set_wHeader (f : Header → Header) (w : World) : World :=
  {| heap := heap w; calls := calls w; logs := logs w; writes := writes w;
     wHeader := f (wHeader w) |}.

(** How a piece of handler code ends: it falls through with a value, the
    handler [return]s, or the goroutine panics. *)
Inductive flow (A : Type) :=
| Next (a : A)
| Returned
| Panicked.

Arguments Next {A} a.
Arguments Returned {A}.
Arguments Panicked {A}.

Definition H (A : Type) : Type := World → World * flow A.

#[global] Instance H_ret : MRet H := λ A a w, (w, Next a).

#[global] Instance H_bind : MBind H := λ A B f m w,
  match m w with
  | (w', Next a) => f a w'
  | (w', Returned) => (w', Returned)
  | (w', Panicked) => (w', Panicked)
  end.

Definition returned {A} : H A := λ w, (w, Returned).

Definition panic {A} : H A := λ w, (w, Panicked).

Definition act (f : World → World) : H unit := λ w, (f w, Next tt).

Definition call (c : Call) : H unit := act (add_call c).

Definition log (l : Level) (msg : string) (e : option error) : H unit :=
  act (add_log {| level := l; message := msg; logged := e |}).

Definition WriteErrorResponse (e : error) : H unit := act (add_write (WError e)).

(** [v[0]] panics on an empty slice. *)
Definition index0 {A} (v : list A) : H A :=
  match v with
  | x :: _ => mret x
  | [] => panic
  end.

(** [h.writeError] (put.go). *)
Definition writeError (msg : string) (err : error) : H unit :=
  log LError msg (Some err);; WriteErrorResponse err.

(** Modelled from the spec: [h.logAndSendError] is not among the sources;
    it logs the message and emits the mapped error. *)
Definition logAndSendError (msg : string) (err : error) : H unit :=
  log LError msg (Some err);; WriteErrorResponse err.

(** [if err != nil { h.logAndSendError(w, msg, reqInfo, err); return }] *)
Definition try {A} (x : A + error) (msg : string) : H A :=
  match x with
  | inl a => mret a
  | inr err => logAndSendError msg err;; returned
  end.

(** The final world of a handler started in [w]. *)
Definition run (m : H unit) (w : World) : World := fst (m w).

Definition World0 (hp : gmap loc Box) : World :=
  {| heap := hp; calls := []; logs := []; writes := []; wHeader := ∅ |}.

(** ** External collaborators *)

Record URL := {
  Path : string;
  Query : gmap string (list string)
}.

(** The object-layer capability set [h.obj]; [inl] is a result with a nil
    error, [inr] a non-nil error. *)
Record ObjectLayer := {
  GetObjectInfo : Context → HeadObjectParams.t → ObjectInfo.t + error;
  GetObjectTagging : Context → ObjectVersion.t →
                     (string * option (gmap string string)) + error;
  CopyObject : Context → CopyObjectParams.t → ObjectInfo.t + error;
  GetBucketSettings : Context → BucketInfo → BucketSettings + error;
  PutBucketACL : Context → PutBucketACLParams.t → option error;
  PutObjectTagging : Context → ObjectVersion.t → gmap string string → string + error;
  CreateBucket : Context → CreateBucketParams.t → Box → string + error
}.

(** Functions of the handler package, of [api] and of the Go libraries that
    the three files call and that are not among the sources. *)
Record Helpers := {
  url_Parse : string → URL + error;
  GetReqInfo : Context → ReqInfo;
  containsACLHeaders : Request → bool;
  getBucketAndCheckOwner : Request → string → list string → BucketInfo + error;
  getSessionTokenSetEACL : Context → option string + error;
  parseHTTPTime : string → option Z + error;
  parseTaggingHeader : Header → option (gmap string string) + error;
  formEncryptionParams : Header → EncryptionParams + error;
  FormEncryptionInfo : option (gmap string string) → string;
  MatchObjectEncryption : EncryptionParams → string → option error;
  checkPreconditions : ObjectInfo.t → conditionalArgs → option error;
  getCopiesNumberOrDefault : option (gmap string string) → list Z → list Z + error;
  formObjectLock : BucketInfo → string → Header → option ObjectLock + error;
  FormatRFC3339 : Z → string;
  EncodeToResponse : CopyObjectResponse → option error;
  getNewEAclTable : Request → BucketInfo → ObjectInfo.t → string + error;
  NotificationInfoFromObject : ObjectInfo.t → string;
  addSSECHeaders : Header → Header → Header;
  xml_Decode : string → createBucketParams + error;
  policy_Parse : string → option PlacementPolicy + error;
  Map_unicode_ToLower : string → string
}.

(** The [handler] struct: the object layer, the configured copies number,
    and what its methods outside the sources do. *)
Record handler := {
  obj : ObjectLayer;
  cfgCopiesNumber : list Z;
  aclRules : AclRules;
  lib : Helpers;
  sendNotifications : Context → SendNotificationParams.t → option error
}.

Definition with_sendNotifications (h : handler)
    (f : Context → SendNotificationParams.t → option error) : handler :=
  {| obj := obj h; cfgCopiesNumber := cfgCopiesNumber h; aclRules := aclRules h;
     lib := lib h; sendNotifications := f |}.

(** ** put.go *)

(** [parseMetadata]: the range over [r.Header] is a fold over the map; the
    result is [None] when [v[0]] panics. *)
Definition parseMetadata (r : Request) : option (gmap string string) :=
  map_fold
    (λ (k : string) (v : list string) (res : option (gmap string string)),
       if GoString.HasPrefix k api.MetadataPrefix then
         match res, v with
         | Some m, v0 :: _ => Some (<[GoString.TrimPrefix k api.MetadataPrefix := v0]> m)
         | _, _ => None
         end
       else res)
    (Some ∅) (rHeader r).

Definition parseLocationConstraint (lb : Helpers) (r : Request)
  : createBucketParams + error :=
  if rContentLength r =? 0 then inl {| cbLocationConstraint := "" |}
  else xml_Decode lb (rBody r).

(** [getBoxData]: [data] is the pointer stored in the context, and the
    assignment to [boxData.Gate] goes through that pointer. *)
Definition getBoxData (ctx : Context) : H (option loc * option error) := λ w,
  match Value ctx BoxData with
  | Some (VBox (Some data)) =>
      match heap w !! data with
      | Some box =>
          match Gate box with
          | None =>
              (set_heap <[data := Box_setGate box (Some emptyGateData)]> w,
               Next (Some data, None))
          | Some _ => (w, Next (Some data, None))
          end
      | None => (w, Panicked)
      end
  | _ => (w, Next (None, Some (Errorf "couldn't get box data from context")))
  end.

(** The loop over [boxData.Policies] with its [break]; [cur] is [p.Policy]. *)
Fixpoint scanPolicies (policies : list ContainerPolicy) (constraint : string)
    (cur : option PlacementPolicy) : option PlacementPolicy :=
  match policies with
  | [] => cur
  | placementPolicy :: rest =>
      if String.eqb (LocationConstraint placementPolicy) constraint
      then Policy placementPolicy
      else scanPolicies rest constraint cur
  end.

Definition CreateBucketHandler (h : handler) (r : Request) : H unit :=
  let name := Var r "bucket" in
  '(acl, err) ← match rHeader r !! "X-Amz-Acl" with
                 | Some val =>
                     v0 ← index0 val;
                     mret (parseBasicACL (aclRules h) (Map_unicode_ToLower (lib h)) v0)
                 | None => mret (publicBasicRule, None)
                 end;
  match err with
  | Some e => writeError "could not parse basic ACL" e;; returned
  | None => mret tt
  end;;
  createParams ← match parseLocationConstraint (lib h) r with
                  | inl cp => mret cp
                  | inr e => writeError "could not parse body" e;; returned
                  end;
  '(boxData, err) ← getBoxData (rContext r);
  data ← match err, boxData with
          | Some e, _ => writeError "could get boxData" e;; returned
          | None, Some data => mret data
          | None, None => panic
          end;
  box ← (λ w, match heap w !! data with
              | Some box => (w, Next box)
              | None => (w, Panicked)
              end);
  let policy0 :=
    if negb (String.eqb (cbLocationConstraint createParams) "")
    then scanPolicies (Policies box) (cbLocationConstraint createParams) None
    else None in
  policy ← match policy0 with
            | None =>
                match policy_Parse (lib h) defaultPolicy with
                | inl pol => mret pol
                | inr e => writeError "could not parse policy" e;; returned
                end
            | Some pol => mret (Some pol)
            end;
  let p := {| CreateBucketParams.Name := name; CreateBucketParams.ACL := acl;
              CreateBucketParams.Policy := policy |} in
  call (CCreateBucket p data);;
  cid ← match CreateBucket (obj h) (rContext r) p box with
         | inl cid => mret cid
         | inr e => writeError "could not create bucket" e;; returned
         end;
  log LInfo "bucket is created" None;;
  act (add_write WSuccessHeadersOnly).

(** ** copy.go *)

Definition is_bucket_char (c : ascii) : bool :=
  GoString.is_lower c || ((48 <=? GoString.code c) && (GoString.code c <=? 57))
  || Ascii.eqb c "." || Ascii.eqb c "-".

Definition is_newline (c : ascii) : bool := GoString.code c =? 10.

Fixpoint string_forallb (f : ascii → bool) (s : string) : bool :=
  match s with
  | EmptyString => true
  | String c s' => f c && string_forallb f s'
  end.

(** The text before the first '/' and the text after it. *)
Fixpoint cut_slash (s : string) : option (string * string) :=
  match s with
  | EmptyString => None
  | String c s' =>
      if Ascii.eqb c "/" then Some (EmptyString, s')
      else match cut_slash s' with
           | Some (b, o) => Some (String c b, o)
           | None => None
           end
  end.

(** The match of [^/?(?P<bucket_name>[a-z0-9.\-]{3,63})/(?P<object_name>.+)$]:
    an optional leading '/', a bucket of 3 to 63 characters of the class,
    which excludes '/', so the bucket ends at the first '/', and a non-empty
    object without a newline up to the end of the text. *)
Definition copySourceMatch (path : string) : option (string * string) :=
  let s := match path with
           | String c s' => if Ascii.eqb c "/" then s' else path
           | EmptyString => path
           end in
  match cut_slash s with
  | Some (b, o) =>
      if (3 <=? String.length b)%nat && (String.length b <=? 63)%nat
         && string_forallb is_bucket_char b
         && (1 <=? String.length o)%nat
         && string_forallb (λ c, negb (is_newline c)) o
      then Some (b, o)
      else None
  | None => None
  end.

(** Modelled from the spec: [auth.RegexpSubmatcher] is not among the
    sources; [GetSubmatches] maps each named group of the match to its text
    and is empty when the regex does not match. *)
Definition GetSubmatches (path : string) : gmap string string :=
  match copySourceMatch path with
  | Some (b, o) => <["bucket_name" := b]> (<["object_name" := o]> ∅)
  | None => ∅
  end.

(** path2BucketObject returns a bucket and an object. *)
Definition path2BucketObject (path : string) : (string * string) + error :=
  let matches := GetSubmatches path in
  if negb (size matches =? 2)%nat then inr (APIError ErrInvalidRequest)
  else inl (default "" (matches !! "bucket_name"),
            default "" (matches !! "object_name")).

Definition isValidDirective (directive : string) : bool :=
  (String.length directive =? 0)%nat
  || String.eqb directive replaceDirective || String.eqb directive copyDirective.

Definition parseCopyObjectArgs (lb : Helpers) (headers : Header)
  : copyObjectArgs + error :=
  match parseHTTPTime lb (Header_Get headers api.AmzCopyIfModifiedSince) with
  | inr err => inr err
  | inl ifModifiedSince =>
      match parseHTTPTime lb (Header_Get headers api.AmzCopyIfUnmodifiedSince) with
      | inr err => inr err
      | inl ifUnmodifiedSince =>
          let args := {| IfMatch := Header_Get headers api.AmzCopyIfMatch;
                         IfNoneMatch := Header_Get headers api.AmzCopyIfNoneMatch;
                         IfModifiedSince := ifModifiedSince;
                         IfUnmodifiedSince := ifUnmodifiedSince |} in
          let metadataDirective := Header_Get headers api.AmzMetadataDirective in
          if negb (isValidDirective metadataDirective)
          then inr (APIError ErrInvalidMetadataDirective)
          else
            let taggingDirective := Header_Get headers api.AmzTaggingDirective in
            if negb (isValidDirective taggingDirective)
            then inr (APIError ErrInvalidTaggingDirective)
            else inl {| Conditional := args;
                        MetadataDirective := metadataDirective;
                        TaggingDirective := taggingDirective |}
      end
  end.

(** The version id and the path taken from [x-amz-copy-source]: when
    [url.Parse] fails its error is dropped and both variables keep their
    initial values. *)
Definition copySourceOf (lb : Helpers) (r : Request) : string * string :=
  let src := Header_Get (rHeader r) api.AmzCopySource in
  match url_Parse lb src with
  | inl u => (Header_Get (Query u) api.QueryVersionID, Path u)
  | inr _ => ("", src)
  end.

(** What [CopyObjectHandler] holds once the source object is found. *)
Record copyHead := {
  reqInfo : ReqInfo;
  containsACL : bool;
  srcBucket : string;
  srcObject : string;
  headParams : HeadObjectParams.t;
  dstBktInfo : BucketInfo;
  sessionTokenEACL : option string;
  srcInfo : ObjectInfo.t
}.

(** What it holds before the preconditions are checked. *)
Record copyPlan := {
  args : copyObjectArgs;
  metadata0 : option (gmap string string);
  tagSet0 : option (gmap string string);
  encryptionParams : EncryptionParams
}.

(** [CopyObjectHandler], from its first line to the head of the source. *)
Definition CopyObjectHandler_head (h : handler) (r : Request) : H copyHead :=
  let reqInfo := GetReqInfo (lib h) (rContext r) in
  let containsACL := containsACLHeaders (lib h) r in
  let '(versionID, src) := copySourceOf (lib h) r in
  '(srcBucket, srcObject) ← try (path2BucketObject src) "invalid source copy";
  bktInfo ← try (getBucketAndCheckOwner (lib h) r srcBucket
                   [api.AmzSourceExpectedBucketOwner])
                "couldn't get source bucket";
  let p := {| HeadObjectParams.BktInfo := bktInfo;
              HeadObjectParams.Object := srcObject;
              HeadObjectParams.VersionID := versionID |} in
  dstBktInfo ← try (getBucketAndCheckOwner (lib h) r (BucketName reqInfo) [])
                   "couldn't get target bucket";
  sessionTokenEACL ←
    (if containsACL
     then try (getSessionTokenSetEACL (lib h) (rContext r))
              "could not get eacl session token from a box"
     else mret None);
  call (CGetObjectInfo p);;
  objInfo ← try (GetObjectInfo (obj h) (rContext r) p) "could not find object";
  mret {| reqInfo := reqInfo; containsACL := containsACL; srcBucket := srcBucket;
          srcObject := srcObject; headParams := p; dstBktInfo := dstBktInfo;
          sessionTokenEACL := sessionTokenEACL; srcInfo := objInfo |}.

(** From [parseCopyObjectArgs] to the encryption match. *)
Definition CopyObjectHandler_plan (h : handler) (r : Request) (s : copyHead)
  : H copyPlan :=
  let objInfo := srcInfo s in
  args ← try (parseCopyObjectArgs (lib h) (rHeader r)) "could not parse request params";
  metadata ←
    (if String.eqb (MetadataDirective args) replaceDirective
     then match parseMetadata r with
          | Some m => mret (Some m)
          | None => panic
          end
     else mret None);
  tagSet ←
    (if String.eqb (TaggingDirective args) replaceDirective
     then try (parseTaggingHeader (lib h) (rHeader r)) "could not parse tagging header"
     else
       let objVersion :=
         {| ObjectVersion.BktInfo := HeadObjectParams.BktInfo (headParams s);
            ObjectVersion.ObjectName := srcObject s;
            ObjectVersion.VersionID := ObjectInfo.VersionID objInfo |} in
       call (CGetObjectTagging objVersion);;
       '(_, tagSet) ← try (GetObjectTagging (obj h) (rContext r) objVersion)
                          "could not get object tagging";
       mret tagSet);
  encryptionParams ← try (formEncryptionParams (lib h) (rHeader r)) "invalid sse headers";
  match MatchObjectEncryption (lib h) encryptionParams
          (FormEncryptionInfo (lib h) (ObjectInfo.Headers objInfo)) with
  | Some err =>
      logAndSendError "encryption doesn't match object" (APIError ErrBadRequest);;
      returned
  | None => mret tt
  end;;
  mret {| args := args; metadata0 := metadata; tagSet0 := tagSet;
          encryptionParams := encryptionParams |}.

(** From the precondition check to the end. *)
Definition CopyObjectHandler_commit (h : handler) (r : Request) (s : copyHead)
    (d : copyPlan) : H unit :=
  let objInfo := srcInfo s in
  match checkPreconditions (lib h) objInfo (Conditional (args d)) with
  | Some err =>
      logAndSendError "precondition failed" (APIError ErrPreconditionFailed);;
      returned
  | None => mret tt
  end;;
  '(objInfo, metadata) ←
    match metadata0 d with
    | None =>
        objInfo ←
          (if (0 <? String.length (ObjectInfo.ContentType objInfo))%nat
           then match ObjectInfo.Headers objInfo with
                | Some hd =>
                    mret (ObjectInfo.setHeaders objInfo
                            (Some (<[api.ContentType := ObjectInfo.ContentType objInfo]> hd)))
                | None => panic
                end
           else mret objInfo);
        mret (objInfo, ObjectInfo.Headers objInfo)
    | Some m =>
        let contentType := Header_Get (rHeader r) api.ContentType in
        if (0 <? String.length contentType)%nat
        then mret (objInfo, Some (<[api.ContentType := contentType]> m))
        else mret (objInfo, Some m)
    end;
  copiesNumber ← try (getCopiesNumberOrDefault (lib h) metadata (cfgCopiesNumber h))
                     "invalid copies number";
  let params :=
    {| CopyObjectParams.SrcObject := objInfo;
       CopyObjectParams.ScrBktInfo := HeadObjectParams.BktInfo (headParams s);
       CopyObjectParams.DstBktInfo := dstBktInfo s;
       CopyObjectParams.DstObject := ObjectName (reqInfo s);
       CopyObjectParams.SrcSize := ObjectInfo.Size objInfo;
       CopyObjectParams.Header := metadata;
       CopyObjectParams.Encryption := encryptionParams d;
       CopyObjectParams.CopiesNuber := copiesNumber;
       CopyObjectParams.Lock := None |} in
  call (CGetBucketSettings (dstBktInfo s));;
  settings ← try (GetBucketSettings (obj h) (rContext r) (dstBktInfo s))
                 "could not get bucket settings";
  lock ← try (formObjectLock (lib h) (dstBktInfo s) (LockConfiguration settings) (rHeader r))
             "could not form object lock";
  let params := CopyObjectParams.setLock params lock in
  call (CCopyObject params);;
  objInfo ← try (CopyObject (obj h) (rContext r) params) "couldn't copy object";
  let response := {| LastModified := FormatRFC3339 (lib h) (ObjectInfo.Created objInfo);
                     ETag := ObjectInfo.HashSum objInfo |} in
  match EncodeToResponse (lib h) response with
  | Some err => logAndSendError "something went wrong" err;; returned
  | None => act (add_write (WEncoded response))
  end;;
  (if containsACL s
   then
     newEaclTable ← try (getNewEAclTable (lib h) r (dstBktInfo s) objInfo)
                        "could not get new eacl table";
     let p := {| PutBucketACLParams.BktInfo := dstBktInfo s;
                 PutBucketACLParams.EACL := newEaclTable;
                 PutBucketACLParams.SessionToken := sessionTokenEACL s |} in
     call (CPutBucketACL p);;
     match PutBucketACL (obj h) (rContext r) p with
     | Some err => logAndSendError "could not put bucket acl" err;; returned
     | None => mret tt
     end
   else mret tt);;
  match tagSet0 d with
  | Some tagSet =>
      let t := {| ObjectVersion.BktInfo := dstBktInfo s;
                  ObjectVersion.ObjectName := ObjectName (reqInfo s);
                  ObjectVersion.VersionID := ObjectInfo.VersionID objInfo |} in
      call (CPutObjectTagging t tagSet);;
      _ ← try (PutObjectTagging (obj h) (rContext r) t tagSet)
              "could not upload object tagging";
      mret tt
  | None => mret tt
  end;;
  log LInfo "object is copied" None;;
  let n := {| SendNotificationParams.Event := EventObjectCreatedCopy;
              SendNotificationParams.NotificationInfo :=
                NotificationInfoFromObject (lib h) objInfo;
              SendNotificationParams.BktInfo := dstBktInfo s;
              SendNotificationParams.ReqInfo_ := reqInfo s |} in
  call (CSendNotifications n);;
  match sendNotifications h (rContext r) n with
  | Some err => log LError "couldn't send notification: %w" (Some err)
  | None => mret tt
  end;;
  if sseEnabled (encryptionParams d)
  then act (set_wHeader (λ wh, addSSECHeaders (lib h) wh (rHeader r)))
  else mret tt.

Definition CopyObjectHandler (h : handler) (r : Request) : H unit :=
  s ← CopyObjectHandler_head h r;
  d ← CopyObjectHandler_plan h r s;
  CopyObjectHandler_commit h r s d.

(** ** user-auth.go *)

(** [center.Authenticate] returns a box pointer and an error. *)
Record Center := {
  Authenticate : Request → option loc * option error
}.

#[global] Instance ErrorCode_eq_dec : EqDecision ErrorCode.
Proof. solve_decision. Defined.

#[global] Instance error_eq_dec : EqDecision error.
Proof. solve_decision. Defined.

(** The middleware that [AttachUserAuth] installs around a handler [h]. *)
Definition AttachUserAuth (center : Center) (h : Request → H unit) (r : Request)
  : H unit :=
  let '(box, err) := Authenticate center r in
  ctx ← match err with
         | Some err =>
             if decide (err = ErrNoAuthorizationHeader)
             then log LDebug "couldn't receive bearer token, using neofs-key" None;;
                  mret (rContext r)
             else log LError "failed to pass authentication" (Some err);;
                  WriteErrorResponse (APIError ErrAccessDenied);;
                  returned
         | None => mret (WithValue (rContext r) BoxData (VBox box))
         end;
  h (WithContext r ctx).

(** ** Reading traces *)

Fixpoint headCalls (cs : list Call) : list HeadObjectParams.t :=
  match cs with
  | [] => []
  | CGetObjectInfo p :: cs' => p :: headCalls cs'
  | _ :: cs' => headCalls cs'
  end.

Fixpoint copyCalls (cs : list Call) : list CopyObjectParams.t :=
  match cs with
  | [] => []
  | CCopyObject p :: cs' => p :: copyCalls cs'
  | _ :: cs' => copyCalls cs'
  end.

Fixpoint createCalls (cs : list Call) : list (CreateBucketParams.t * loc) :=
  match cs with
  | [] => []
  | CCreateBucket p l :: cs' => (p, l) :: createCalls cs'
  | _ :: cs' => createCalls cs'
  end.

(** The statuses of the error responses written. *)
Fixpoint errorStatuses (ws : list Write) : list Z :=
  match ws with
  | [] => []
  | WError e :: ws' => status_of e :: errorStatuses ws'
  | _ :: ws' => errorStatuses ws'
  end.

(** ** A concrete gateway for the scenarios of the spec *)

Module Demo.

Definition acl : AclRules :=
  {| PublicBasicRule := 0x1FFFFFFF; PrivateBasicRule := 0x1C8C8CCC;
     ReadOnlyBasicRule := 0x1FFFCFFF |}.

Definition bucket (name : string) : BucketInfo :=
  {| bktName := name; bktCID := "cid-" +:+ name; bktOwner := "owner" |}.

(** The source object of the scenarios: ETag [abc], type [text/plain]. *)
Definition source : ObjectInfo.t :=
  {| ObjectInfo.ID := "oid-src"; ObjectInfo.Bucket := "src"; ObjectInfo.Name := "key";
     ObjectInfo.Size := 5; ObjectInfo.ContentType := "text/plain";
     ObjectInfo.Created := 0; ObjectInfo.HashSum := "abc";
     ObjectInfo.Version := "v1";
     ObjectInfo.Headers := Some {[ "Owner" := "alice" ]} |}.

Definition copied (p : CopyObjectParams.t) : ObjectInfo.t :=
  {| ObjectInfo.ID := "oid-dst"; ObjectInfo.Bucket := bktName (CopyObjectParams.DstBktInfo p);
     ObjectInfo.Name := CopyObjectParams.DstObject p;
     ObjectInfo.Size := CopyObjectParams.SrcSize p; ObjectInfo.ContentType := "";
     ObjectInfo.Created := 1; ObjectInfo.HashSum := "abc";
     ObjectInfo.Version := "v2";
     ObjectInfo.Headers := CopyObjectParams.Header p |}.

Definition layer : ObjectLayer :=
  {| GetObjectInfo := λ _ _, inl source;
     GetObjectTagging := λ _ _, inl ("v1", None);
     CopyObject := λ _ p, inl (copied p);
     GetBucketSettings := λ _ _, inl {| LockConfiguration := "" |};
     PutBucketACL := λ _ _, None;
     PutObjectTagging := λ _ _ _, inl "v2";
     CreateBucket := λ _ p _, inl ("cid-" +:+ CreateBucketParams.Name p) |}.

Fixpoint has_percent (s : string) : bool :=
  match s with
  | EmptyString => false
  | String c s' => Ascii.eqb c "%" || has_percent s'
  end.

(** A URL parser that rejects every escape and knows no query. *)
Definition parse_url (s : string) : URL + error :=
  if has_percent s then inr (Foreign "invalid URL escape")
  else inl {| Path := s; Query := ∅ |}.

Definition helpers : Helpers :=
  {| url_Parse := parse_url;
     GetReqInfo := λ _, {| RequestID := "rid"; BucketName := "dst"; ObjectName := "copy" |};
     containsACLHeaders := λ _, false;
     getBucketAndCheckOwner := λ _ name _, inl (bucket name);
     getSessionTokenSetEACL := λ _, inl None;
     parseHTTPTime := λ s, if String.eqb s "" then inl None else inl (Some 0);
     parseTaggingHeader := λ _, inl None;
     formEncryptionParams := λ _, inl {| sseEnabled := false; sseKey := "" |};
     FormEncryptionInfo := λ _, "";
     MatchObjectEncryption := λ _ _, None;
     checkPreconditions := λ o c,
       if negb (String.eqb (IfNoneMatch c) "")
          && String.eqb (IfNoneMatch c) (ObjectInfo.HashSum o)
       then Some (APIError ErrPreconditionFailed) else None;
     getCopiesNumberOrDefault := λ _ d, inl d;
     formObjectLock := λ _ _ _, inl None;
     FormatRFC3339 := λ _, "1970-01-01T00:00:01Z";
     EncodeToResponse := λ _, None;
     getNewEAclTable := λ _ _ _, inl "";
     NotificationInfoFromObject := ObjectInfo.Name;
     addSSECHeaders := λ wh _, wh;
     xml_Decode := λ body, inl {| cbLocationConstraint := body |};
     policy_Parse := λ s, inl (Some {| policyText := s |});
     Map_unicode_ToLower := GoString.lowerASCII |}.

Definition h : handler :=
  {| obj := layer; cfgCopiesNumber := [1]; aclRules := acl; lib := helpers;
     sendNotifications := λ _ _, Some (Foreign "broker is down") |}.

Definition request (hd : Header) (body : string) (ctx : Context) : Request :=
  {| rHeader := hd; rContentLength := Z.of_nat (String.length body); rBody := body;
     rVars := {[ "bucket" := "dst"; "object" := "copy" ]}; rURL := "/dst/copy";
     rContext := ctx |}.

(** S6: a copy with [x-amz-metadata-directive: MERGE]. *)
Definition copyMerge : Request :=
  request {[ api.AmzCopySource := ["/src/key"];
             api.AmzMetadataDirective := ["MERGE"] ]} "" [].

(** S4: a copy with REPLACE and [x-amz-meta-X: Y], with or without a
    Content-Type of its own. *)
Definition copyReplace (contentType : option string) : Request :=
  let hd : Header := {[ api.AmzCopySource := ["/src/key"];
                        api.AmzMetadataDirective := ["REPLACE"];
                        "X-Amz-Meta-X" := ["Y"] ]} in
  request (match contentType with
           | Some v => <[api.ContentType := [v]]> hd
           | None => hd
           end) "" [].

(** S5: a copy with [x-amz-copy-source-if-none-match: abc]. *)
Definition copyIfNoneMatch : Request :=
  request {[ api.AmzCopySource := ["/src/key"];
             api.AmzCopyIfNoneMatch := ["abc"] ]} "" [].

(** A copy whose source has an escape that [url.Parse] rejects. *)
Definition copyBadEscape : Request :=
  request {[ api.AmzCopySource := ["/src/key%zz"] ]} "" [].

Definition policyEU : PlacementPolicy := {| policyText := "REP 1 IN EU" |}.

(** A box without a gate, as the context holds it at location 1. *)
Definition box : Box :=
  {| Gate := None;
     Policies := [ {| LocationConstraint := "eu"; Policy := Some policyEU |} ] |}.

(** A box whose first [eu] entry carries no policy. *)
Definition boxUnset : Box :=
  {| Gate := None;
     Policies := [ {| LocationConstraint := "eu"; Policy := None |};
                   {| LocationConstraint := "eu"; Policy := Some policyEU |} ] |}.

Definition ctxBox : Context := WithValue [] BoxData (VBox (Some 1%positive)).

Definition store : gmap loc Box := {[ 1%positive := box ]}.

Definition storeUnset : gmap loc Box := {[ 1%positive := boxUnset ]}.

(** S2 and S3: bucket creation with the constraint [eu], and without one. *)
Definition createEU : Request := request ∅ "eu" ctxBox.

Definition createPlain : Request := request ∅ "" ctxBox.

Definition center (res : option loc * option error) : Center :=
  {| Authenticate := λ _, res |}.

End Demo.

(** ** Notions used in the statements *)

(** A value that is none of the three canned tokens takes the default
    branch of the switch. *)
Definition canned (v : string) : bool :=
  String.eqb v basicACLPublic || String.eqb v basicACLPrivate
  || String.eqb v basicACLReadOnly.

Definition parseHex (mapToLower : string → string) (v : string) : Z * option error :=
  let n := GoString.Trim (GoString.ToLower mapToLower v) "0x" in
  match Strconv.ParseUint16_32 n with
  | (_, Some _) => (0, Some (Errorf ("can't parse basic ACL: " +:+ n)))
  | (value, None) => (u32 value, None)
  end.

Definition is_hex_digit (c : ascii) : bool :=
  let n := GoString.code c in
  ((48 <=? n) && (n <=? 57)) || ((97 <=? n) && (n <=? 102))
  || ((65 <=? n) && (n <=? 70)).

(** A string of hexadecimal digits, in either case. *)
Definition is_hex (h : string) : bool := string_forallb is_hex_digit h.

(** The metadata as the spec describes it: under REPLACE the [x-amz-meta-*]
    headers of the request, with the request's Content-Type when it is not
    empty; otherwise the headers of the source, with the source's
    Content-Type when it is not empty. *)
Definition destinationMetadata (r : Request) (src : ObjectInfo.t)
  : option (gmap string string) :=
  if String.eqb (Header_Get (rHeader r) api.AmzMetadataDirective) replaceDirective
  then
    match parseMetadata r with
    | Some m =>
        let contentType := Header_Get (rHeader r) api.ContentType in
        Some (if String.eqb contentType "" then m
              else <[api.ContentType := contentType]> m)
    | None => None
    end
  else
    if String.eqb (ObjectInfo.ContentType src) "" then ObjectInfo.Headers src
    else <[api.ContentType := ObjectInfo.ContentType src]> <$> ObjectInfo.Headers src.

(** How a store of boxes may differ after a handler ran: a box is as it
    was, or it had no gate and now has the empty one. *)
Definition gate_only (hp hp' : gmap loc Box) : Prop :=
  ∀ l, hp' !! l = hp !! l
       ∨ ∃ b, hp !! l = Some b ∧ Gate b = None
              ∧ hp' !! l = Some (Box_setGate b (Some emptyGateData)).

(** The first entry of the policy list whose constraint is the given one. *)
Definition firstMatch (policies : list ContainerPolicy) (constraint : string)
  : option ContainerPolicy :=
  List.find (λ pp, String.eqb (LocationConstraint pp) constraint) policies.

(** The policy the spec names: that of the first matching entry, the
    default when the constraint is empty or nothing matches. *)
Definition specPolicy (b : Box) (constraint : string)
    (dflt : option PlacementPolicy) : option PlacementPolicy :=
  if String.eqb constraint "" then dflt
  else match firstMatch (Policies b) constraint with
       | Some entry => Policy entry
       | None => dflt
       end.

(** The policy the handler adopts: the same, except that a first matching
    entry without a policy also gives the default. *)
Definition adoptedPolicy (b : Box) (constraint : string)
    (dflt : option PlacementPolicy) : option PlacementPolicy :=
  if String.eqb constraint "" then dflt
  else match firstMatch (Policies b) constraint with
       | Some entry =>
           match Policy entry with
           | Some pol => Some pol
           | None => dflt
           end
       | None => dflt
       end.

Definition sourceRejected (e : LogEntry) : bool :=
  String.eqb (message e) "invalid source copy".

Definition sourceRejections (w : World) : list LogEntry :=
  List.filter sourceRejected (logs w).

Definition notificationFailure (err : error) : LogEntry :=
  {| level := LError; message := "couldn't send notification: %w"; logged := Some err |}.

Fixpoint notifyCalls (cs : list Call) : list SendNotificationParams.t :=
  match cs with
  | [] => []
  | CSendNotifications n :: cs' => n :: notifyCalls cs'
  | _ :: cs' => notifyCalls cs'
  end.

(** Two runs from [w], the first with the notifier [notify], that differ at
    most in the log: either no notification was sent in the first, or one
    was, and its failure, if any, is the one line the first log has more. *)
Definition notify_rel (notify : Context → SendNotificationParams.t → option error)
    (ctx : Context) (w : World) (x y : World * flow unit) : Prop :=
  writes (fst x) = writes (fst y) ∧ wHeader (fst x) = wHeader (fst y)
  ∧ calls (fst x) = calls (fst y) ∧ heap (fst x) = heap (fst y)
  ∧ snd x = snd y
  ∧ ((notifyCalls (calls (fst x)) = notifyCalls (calls w)
      ∧ logs (fst x) = logs (fst y))
     ∨ ∃ n, notifyCalls (calls (fst x)) = notifyCalls (calls w) ++ [n]
            ∧ logs (fst x)
              = logs (fst y) ++ match notify ctx n with
                                | Some err => [notificationFailure err]
                                | None => []
                                end).

(** ** Notions used in the further properties *)

(** *** The ACL parser *)

(** The value of a hexadecimal digit, in either case. *)
Definition hexDigitValue (c : ascii) : Z :=
  let n := GoString.code c in
  if (48 <=? n) && (n <=? 57) then n - 48
  else if (97 <=? n) && (n <=? 102) then n - 87
  else n - 55.

(** The number a string of hexadecimal digits denotes, most significant
    digit first, on top of [acc]. *)
Fixpoint hexValue (s : string) (acc : Z) : Z :=
  match s with
  | EmptyString => acc
  | String c s' => hexValue s' (acc * 16 + hexDigitValue c)
  end.

Definition first_char (s : string) : option ascii :=
  match s with
  | EmptyString => None
  | String c _ => Some c
  end.

Fixpoint last_char (s : string) : option ascii :=
  match s with
  | EmptyString => None
  | String c EmptyString => Some c
  | String _ s' => last_char s'
  end.

Definition nonempty (s : string) : bool :=
  match s with
  | EmptyString => false
  | String _ _ => true
  end.

(** *** The calls of a copy *)

(** The place of a call in the copy pipeline. *)
Definition rank (c : Call) : nat :=
  match c with
  | CGetObjectInfo _ => 0
  | CGetObjectTagging _ => 1
  | CGetBucketSettings _ => 2
  | CCopyObject _ => 3
  | CPutBucketACL _ => 4
  | CPutObjectTagging _ _ => 5
  | CSendNotifications _ => 6
  | CCreateBucket _ _ => 7
  end.

(** Every number of the list is at least [k] and smaller than the next. *)
Fixpoint increasing_from (k : nat) (l : list nat) : bool :=
  match l with
  | [] => true
  | x :: l' => (k <=? x)%nat && increasing_from (S x) l'
  end.

Fixpoint settingsCalls (cs : list Call) : list BucketInfo :=
  match cs with
  | [] => []
  | CGetBucketSettings b :: cs' => b :: settingsCalls cs'
  | _ :: cs' => settingsCalls cs'
  end.

Fixpoint aclCalls (cs : list Call) : list PutBucketACLParams.t :=
  match cs with
  | [] => []
  | CPutBucketACL p :: cs' => p :: aclCalls cs'
  | _ :: cs' => aclCalls cs'
  end.

Fixpoint tagCalls (cs : list Call) : list (ObjectVersion.t * gmap string string) :=
  match cs with
  | [] => []
  | CPutObjectTagging v t :: cs' => (v, t) :: tagCalls cs'
  | _ :: cs' => tagCalls cs'
  end.

(** The calls made after the copy: ACL, tagging, notification. *)
Definition afterCopy (cs : list Call) : list Call :=
  List.filter (λ c, (4 <=? rank c)%nat && (rank c <=? 6)%nat) cs.

Fixpoint sourceTagCalls (cs : list Call) : list ObjectVersion.t :=
  match cs with
  | [] => []
  | CGetObjectTagging v :: cs' => v :: sourceTagCalls cs'
  | _ :: cs' => sourceTagCalls cs'
  end.

(** What [CopyObjectHandler] has checked and chosen when it calls
    [CopyObject] with [p], for the source [src] and the arguments [a]. *)
Definition copyChecked (h : handler) (r : Request) (src : ObjectInfo.t)
    (a : copyObjectArgs) (p : CopyObjectParams.t) : Prop :=
  checkPreconditions (lib h) src (Conditional a) = None
  ∧ formEncryptionParams (lib h) (rHeader r) = inl (CopyObjectParams.Encryption p)
  ∧ MatchObjectEncryption (lib h) (CopyObjectParams.Encryption p)
      (FormEncryptionInfo (lib h) (ObjectInfo.Headers src)) = None
  ∧ getCopiesNumberOrDefault (lib h) (CopyObjectParams.Header p) (cfgCopiesNumber h)
    = inl (CopyObjectParams.CopiesNuber p)
  ∧ ∃ st, GetBucketSettings (obj h) (rContext r) (CopyObjectParams.DstBktInfo p) = inl st
          ∧ formObjectLock (lib h) (CopyObjectParams.DstBktInfo p)
              (LockConfiguration st) (rHeader r) = inl (CopyObjectParams.Lock p).

(** The tags [vt] put on the copy are justified by the run with calls
    [cs]: they go to the target of the one copy made, and are the tags of
    the request under REPLACE, the tags read from the source otherwise. *)
Definition tagsPut (h : handler) (r : Request) (cs : list Call)
    (vt : ObjectVersion.t * gmap string string) : Prop :=
  ∃ a p copy,
    parseCopyObjectArgs (lib h) (rHeader r) = inl a
    ∧ copyCalls cs = [p]
    ∧ CopyObject (obj h) (rContext r) p = inl copy
    ∧ fst vt = {| ObjectVersion.BktInfo := CopyObjectParams.DstBktInfo p;
                  ObjectVersion.ObjectName := CopyObjectParams.DstObject p;
                  ObjectVersion.VersionID := ObjectInfo.VersionID copy |}
    ∧ if String.eqb (TaggingDirective a) replaceDirective
      then sourceTagCalls cs = []
           ∧ parseTaggingHeader (lib h) (rHeader r) = inl (Some (snd vt))
      else ∃ hd src ver,
             headCalls cs = [hd]
             ∧ GetObjectInfo (obj h) (rContext r) hd = inl src
             ∧ sourceTagCalls cs
               = [{| ObjectVersion.BktInfo := HeadObjectParams.BktInfo hd;
                     ObjectVersion.ObjectName := HeadObjectParams.Object hd;
                     ObjectVersion.VersionID := ObjectInfo.VersionID src |}]
             ∧ GetObjectTagging (obj h) (rContext r)
                 {| ObjectVersion.BktInfo := HeadObjectParams.BktInfo hd;
                    ObjectVersion.ObjectName := HeadObjectParams.Object hd;
                    ObjectVersion.VersionID := ObjectInfo.VersionID src |}
               = inl (ver, Some (snd vt)).

(** The parameters [p] of a copy name the headed source and the target of
    the request. *)
Definition copyAsked (h : handler) (r : Request) (cs : list Call)
    (p : CopyObjectParams.t) : Prop :=
  let req := GetReqInfo (lib h) (rContext r) in
  ∃ hd src a,
    headCalls cs = [hd]
    ∧ GetObjectInfo (obj h) (rContext r) hd = inl src
    ∧ parseCopyObjectArgs (lib h) (rHeader r) = inl a
    ∧ CopyObjectParams.ScrBktInfo p = HeadObjectParams.BktInfo hd
    ∧ getBucketAndCheckOwner (lib h) r (BucketName req) []
      = inl (CopyObjectParams.DstBktInfo p)
    ∧ CopyObjectParams.DstObject p = ObjectName req
    ∧ CopyObjectParams.SrcSize p = ObjectInfo.Size src
    ∧ CopyObjectParams.SrcObject p
      = if String.eqb (MetadataDirective a) replaceDirective then src
        else ObjectInfo.setHeaders src (CopyObjectParams.Header p).

(** The copy with [p] was made after the checks of [copyChecked], for the
    source the run headed and the arguments of the request. *)
Definition copyGuarded (h : handler) (r : Request) (cs : list Call)
    (p : CopyObjectParams.t) : Prop :=
  ∃ hd src a,
    headCalls cs = [hd]
    ∧ GetObjectInfo (obj h) (rContext r) hd = inl src
    ∧ parseCopyObjectArgs (lib h) (rHeader r) = inl a
    ∧ copyChecked h r src a p.

(** The ACL [a] was put for a request with ACL headers, on the target of
    the one copy made. *)
Definition aclPut (h : handler) (r : Request) (cs : list Call)
    (a : PutBucketACLParams.t) : Prop :=
  ∃ p copy,
    containsACLHeaders (lib h) r = true
    ∧ copyCalls cs = [p]
    ∧ CopyObject (obj h) (rContext r) p = inl copy
    ∧ PutBucketACLParams.BktInfo a = CopyObjectParams.DstBktInfo p
    ∧ getSessionTokenSetEACL (lib h) (rContext r) = inl (PutBucketACLParams.SessionToken a)
    ∧ getNewEAclTable (lib h) r (CopyObjectParams.DstBktInfo p) copy
      = inl (PutBucketACLParams.EACL a).

(** The notification [n] tells of the one copy made. *)
Definition notified (h : handler) (r : Request) (cs : list Call)
    (n : SendNotificationParams.t) : Prop :=
  ∃ p copy,
    copyCalls cs = [p]
    ∧ CopyObject (obj h) (rContext r) p = inl copy
    ∧ n = {| SendNotificationParams.Event := EventObjectCreatedCopy;
             SendNotificationParams.NotificationInfo :=
               NotificationInfoFromObject (lib h) copy;
             SendNotificationParams.BktInfo := CopyObjectParams.DstBktInfo p;
             SendNotificationParams.ReqInfo_ := GetReqInfo (lib h) (rContext r) |}
    ∧ (containsACLHeaders (lib h) r = true → aclCalls cs ≠ []).

(** ** [PutObjectHandler] *)

Module Put.

(** [layer.PutObjectParams]. *)
Record PutObjectParams := {
  Bucket : string;
  Object : string;
  Reader : string;
  Size : Z;
  Header : gmap string string
}.

(** The [api.Error] struct the handler fills in. *)
Record Error := {
  Code : string;
  Description : string;
  HTTPStatusCode : Z
}.

Inductive Written :=
| WErrorResponse (e : Error)
| WSuccessResponseHeadersOnly.

(** A line of the log: the message, the string fields and the error. *)
Record LogLine := {
  msg : string;
  fields : list (string * string);
  cause : error
}.

(** What the handler calls outside the sources: [h.obj.PutObject],
    [api.GetRequestID], the code of [api.GetAPIError(api.ErrInternalError)],
    [err.Error()] and the canonical form of the header name [api.ETag]. *)
Record Env := {
  PutObject : Context → PutObjectParams → ObjectInfo.t + error;
  GetRequestID : Context → string;
  InternalErrorCode : string;
  Error_text : error → string;
  ETag : string
}.

(** The trace of [PutObject] calls, the log, the response written so far
    and the response headers. *)
Record State := {
  puts : list PutObjectParams;
  logged : list LogLine;
  written : list Written;
  header : gmap string (list string)
}.

Definition StatusInternalServerError : Z := 500.

Definition State0 : State :=
  {| puts := []; logged := []; written := []; header := ∅ |}.

Definition PutObjectHandler (e : Env) (r : Request) (s : State) : State * flow unit :=
  let bkt := Var r "bucket" in
  let obj := Var r "object" in
  let rid := GetRequestID e (rContext r) in
  match parseMetadata r with
  | None => (s, Panicked)
  | Some metadata =>
      let params := {| Bucket := bkt; Object := obj; Reader := rBody r;
                       Size := rContentLength r; Header := metadata |} in
      let s := {| puts := puts s ++ [params]; logged := logged s;
                  written := written s; header := header s |} in
      match PutObject e (rContext r) params with
      | inr err =>
          let line := {| msg := "could not upload object";
                         fields := [("request_id", rid); ("bucket_name", bkt);
                                    ("object_name", obj)];
                         cause := err |} in
          let resp := {| Code := InternalErrorCode e;
                         Description := Error_text e err;
                         HTTPStatusCode := StatusInternalServerError |} in
          ({| puts := puts s; logged := logged s ++ [line];
              written := written s ++ [WErrorResponse resp]; header := header s |},
           Returned)
      | inl info =>
          ({| puts := puts s; logged := logged s;
              written := written s ++ [WSuccessResponseHeadersOnly];
              header := <[ETag e := [ObjectInfo.HashSum info]]> (header s) |},
           Next tt)
      end
  end.

End Put.

(** A gateway whose requests carry ACL headers, whose source has tags and
    whose URLs may name a version. *)
Module Rich.

Definition tags : gmap string string := {[ "team" := "ops" ]}.

Definition layer : ObjectLayer :=
  {| GetObjectInfo := λ _ _, inl Demo.source;
     GetObjectTagging := λ _ _, inl ("v1", Some tags);
     CopyObject := λ _ p, inl (Demo.copied p);
     GetBucketSettings := λ _ _, inl {| LockConfiguration := "" |};
     PutBucketACL := λ _ _, None;
     PutObjectTagging := λ _ _ _, inl "v2";
     CreateBucket := λ _ p _, inl ("cid-" +:+ CreateBucketParams.Name p) |}.

Fixpoint path_of (s : string) : string :=
  match s with
  | EmptyString => EmptyString
  | String c s' => if Ascii.eqb c "?" then EmptyString else String c (path_of s')
  end.

Fixpoint query_of (s : string) : string :=
  match s with
  | EmptyString => EmptyString
  | String c s' => if Ascii.eqb c "?" then s' else query_of s'
  end.

(** A URL parser that rejects every escape and reads one [versionId]. *)
Definition parse_url (s : string) : URL + error :=
  if Demo.has_percent s then inr (Foreign "invalid URL escape")
  else inl {| Path := path_of s;
              Query := if GoString.HasPrefix (query_of s) "versionId="
                       then {[ api.QueryVersionID :=
                                 [GoString.TrimPrefix (query_of s) "versionId="] ]}
                       else ∅ |}.

Definition url7 : URL :=
  {| Path := "/src/key"; Query := {[ api.QueryVersionID := ["v7"] ]} |}.

Definition helpers : Helpers :=
  {| url_Parse := parse_url;
     GetReqInfo := GetReqInfo Demo.helpers;
     containsACLHeaders := λ _, true;
     getBucketAndCheckOwner := getBucketAndCheckOwner Demo.helpers;
     getSessionTokenSetEACL := λ _, inl (Some "token");
     parseHTTPTime := parseHTTPTime Demo.helpers;
     parseTaggingHeader := parseTaggingHeader Demo.helpers;
     formEncryptionParams := formEncryptionParams Demo.helpers;
     FormEncryptionInfo := FormEncryptionInfo Demo.helpers;
     MatchObjectEncryption := MatchObjectEncryption Demo.helpers;
     checkPreconditions := checkPreconditions Demo.helpers;
     getCopiesNumberOrDefault := getCopiesNumberOrDefault Demo.helpers;
     formObjectLock := formObjectLock Demo.helpers;
     FormatRFC3339 := FormatRFC3339 Demo.helpers;
     EncodeToResponse := EncodeToResponse Demo.helpers;
     getNewEAclTable := λ _ b _, inl ("eacl-" +:+ bktName b);
     NotificationInfoFromObject := NotificationInfoFromObject Demo.helpers;
     addSSECHeaders := addSSECHeaders Demo.helpers;
     xml_Decode := xml_Decode Demo.helpers;
     policy_Parse := policy_Parse Demo.helpers;
     Map_unicode_ToLower := Map_unicode_ToLower Demo.helpers |}.

Definition h : handler :=
  {| obj := layer; cfgCopiesNumber := [1]; aclRules := Demo.acl; lib := helpers;
     sendNotifications := λ _ _, None |}.

(** A copy of version [v7] of [/src/key]. *)
Definition copyVersioned : Request :=
  Demo.request {[ api.AmzCopySource := ["/src/key?versionId=v7"] ]} "" [].

(** An upload with one metadata header, and one whose metadata header has
    no value. *)
Definition env (fail : bool) : Put.Env :=
  {| Put.PutObject := λ _ p,
       if fail then inr (APIError ErrAccessDenied)
       else inl (Demo.copied
                   {| CopyObjectParams.SrcObject := Demo.source;
                      CopyObjectParams.ScrBktInfo := Demo.bucket "src";
                      CopyObjectParams.DstBktInfo := Demo.bucket (Put.Bucket p);
                      CopyObjectParams.DstObject := Put.Object p;
                      CopyObjectParams.SrcSize := Put.Size p;
                      CopyObjectParams.Header := Some (Put.Header p);
                      CopyObjectParams.Encryption := {| sseEnabled := false; sseKey := "" |};
                      CopyObjectParams.CopiesNuber := [];
                      CopyObjectParams.Lock := None |});
     Put.GetRequestID := λ _, "rid";
     Put.InternalErrorCode := "InternalError";
     Put.Error_text := λ _, "access denied";
     Put.ETag := "Etag" |}.

Definition upload : Request :=
  Demo.request {[ "X-Amz-Meta-Color" := ["red"; "blue"]; "Content-Type" := ["text/plain"] ]}
    "hello" [].

End Rich.

(** * Properties *)

(** ** The library models on concrete inputs *)

Example ParseUint_examples :
  Strconv.ParseUint16_32 "1c8c8ccc" = (0x1C8C8CCC, None)
  ∧ Strconv.ParseUint16_32 "FFFFFFFF" = (0xFFFFFFFF, None)
  ∧ Strconv.ParseUint16_32 "100000000" = (0xFFFFFFFF, Some Strconv.ErrRange)
  ∧ Strconv.ParseUint16_32 "" = (0, Some Strconv.ErrSyntax)
  ∧ Strconv.ParseUint16_32 "0x1f" = (0, Some Strconv.ErrSyntax)
  ∧ Strconv.ParseUint16_32 "-1" = (0, Some Strconv.ErrSyntax).
Proof. repeat split. Qed.

Example Trim_examples (U : string → string) :
  GoString.Trim "0x1f" "0x" = "1f"
  ∧ GoString.Trim "0x00100x" "0x" = "1"
  ∧ GoString.Trim "x0x0" "0x" = ""
  ∧ GoString.TrimPrefix "0x00100x" "0x" = "00100x"
  ∧ GoString.ToLower U "0X1F-Az" = "0x1f-az".
Proof. repeat split. Qed.

Example copySourceMatch_examples :
  copySourceMatch "/src/key" = Some ("src", "key")
  ∧ copySourceMatch "my.bucket-1/a/b c" = Some ("my.bucket-1", "a/b c")
  ∧ copySourceMatch "/ab/key" = None
  ∧ copySourceMatch "/Src/key" = None
  ∧ copySourceMatch "//src/key" = None
  ∧ copySourceMatch "/src/" = None
  ∧ copySourceMatch "/src" = None.
Proof. repeat split. Qed.

Example path2BucketObject_examples :
  path2BucketObject "/src/key" = inl ("src", "key")
  ∧ path2BucketObject "/ab/key" = inr (APIError ErrInvalidRequest).
Proof. split; vm_compute; reflexivity. Qed.

(** S1 and S4: the metadata of [X-Amz-Meta-Foo: bar] is [{Foo: bar}]; other
    headers are left out. *)
Example parseMetadata_examples :
  parseMetadata (Demo.request {[ "X-Amz-Meta-Foo" := ["bar"];
                                 "Content-Length" := ["5"] ]} "hello" [])
  = Some {[ "Foo" := "bar" ]}
  ∧ parseMetadata (Demo.copyReplace (Some "image/png")) = Some {[ "X" := "Y" ]}.
Proof. split; vm_compute; reflexivity. Qed.

(** ** Canned ACL parser *)

Section BasicACL.

Variable acl : AclRules.
Variable U : string → string.

Lemma parseBasicACL_private :
  parseBasicACL acl U "private" = (PrivateBasicRule acl, None).
Proof. reflexivity. Qed.

Lemma parseBasicACL_public_read :
  parseBasicACL acl U "public-read" = (ReadOnlyBasicRule acl, None).
Proof. reflexivity. Qed.

Lemma parseBasicACL_public_read_write :
  parseBasicACL acl U "public-read-write" = (PublicBasicRule acl, None).
Proof. reflexivity. Qed.

Lemma parseBasicACL_default v :
  canned v = false → parseBasicACL acl U v = parseHex U v.
Proof.
  unfold canned, parseBasicACL, parseHex. intros Hc.
  apply orb_false_iff in Hc as [Hc Hro].
  apply orb_false_iff in Hc as [Hpub Hpriv].
  by rewrite Hpub, Hpriv, Hro.
Qed.

Lemma all_ascii (P : ascii → Prop) :
  (∀ b0 b1 b2 b3 b4 b5 b6 b7, P (Ascii b0 b1 b2 b3 b4 b5 b6 b7)) → ∀ c, P c.
Proof. intros HP [b0 b1 b2 b3 b4 b5 b6 b7]. apply HP. Qed.

Lemma ToLower_ASCII s :
  GoString.isASCII s = true → GoString.ToLower U s = GoString.lowerASCII s.
Proof. unfold GoString.ToLower. by intros ->. Qed.

Lemma upper_char_ASCII c :
  (GoString.code (GoString.upper_char c) <? 128) = (GoString.code c <? 128).
Proof.
  revert c. apply all_ascii.
  intros [] [] [] [] [] [] [] []; vm_compute; reflexivity.
Qed.

Lemma isASCII_ToUpper s : GoString.isASCII (GoString.ToUpper s) = GoString.isASCII s.
Proof.
  induction s as [|c s IH]; simpl; [done|].
  by rewrite upper_char_ASCII, IH.
Qed.

Lemma hex_digit_ASCII c : is_hex_digit c = true → (GoString.code c <? 128) = true.
Proof.
  unfold is_hex_digit. cbv zeta. intros Hd.
  destruct (Z.ltb_spec (GoString.code c) 128) as [|Hge]; [done|]. exfalso.
  rewrite !orb_true_iff, !andb_true_iff, !Z.leb_le in Hd. lia.
Qed.

Lemma isASCII_hex h : is_hex h = true → GoString.isASCII h = true.
Proof.
  induction h as [|c h IH]; [done|].
  unfold is_hex. simpl. fold (is_hex h). intros [Hc Hh]%andb_true_iff.
  by rewrite (hex_digit_ASCII c Hc), (IH Hh).
Qed.

Lemma lower_upper_char c :
  GoString.lower_char (GoString.upper_char c) = GoString.lower_char c.
Proof.
  revert c. apply all_ascii.
  intros [] [] [] [] [] [] [] []; vm_compute; reflexivity.
Qed.

Lemma ToLower_ToUpper s : GoString.lowerASCII (GoString.ToUpper s) = GoString.lowerASCII s.
Proof.
  induction s as [|c s IH]; simpl; [done|].
  by rewrite lower_upper_char, IH.
Qed.

Lemma Trim_0x s : GoString.Trim ("0x" +:+ s) "0x" = GoString.Trim s "0x".
Proof. reflexivity. Qed.

Lemma ToLower_0x s : GoString.lowerASCII ("0x" +:+ s) = "0x" +:+ GoString.lowerASCII s.
Proof. reflexivity. Qed.

Lemma canned_0x s : canned ("0x" +:+ s) = false.
Proof. reflexivity. Qed.

Lemma upper_char_not_p c : Ascii.eqb (GoString.upper_char c) "p" = false.
Proof.
  revert c. apply all_ascii.
  intros [] [] [] [] [] [] [] []; vm_compute; reflexivity.
Qed.

Lemma canned_ToUpper s : canned (GoString.ToUpper s) = false.
Proof.
  destruct s as [|c s]; [reflexivity|].
  unfold canned, basicACLPublic, basicACLPrivate, basicACLReadOnly. simpl.
  by rewrite upper_char_not_p.
Qed.

Lemma hex_digit_not_p c : is_hex_digit c = true → Ascii.eqb c "p" = false.
Proof.
  intros Hd. destruct (Ascii.eqb_spec c "p") as [->|]; [|reflexivity].
  vm_compute in Hd. discriminate Hd.
Qed.

Lemma canned_hex h : is_hex h = true → canned h = false.
Proof.
  destruct h as [|c s]; [reflexivity|].
  unfold is_hex. simpl. intros [Hc _]%andb_true_iff.
  unfold canned, basicACLPublic, basicACLPrivate, basicACLReadOnly. simpl.
  by rewrite (hex_digit_not_p _ Hc).
Qed.

(** The prefix [0x] and the case of the digits do not matter: the three
    spellings of a hexadecimal string give the same result, value or
    error. *)
Lemma parseBasicACL_spellings h :
  is_hex h = true →
  parseBasicACL acl U ("0x" +:+ h) = parseBasicACL acl U h
  ∧ parseBasicACL acl U (GoString.ToUpper h) = parseBasicACL acl U h.
Proof.
  intros Hh.
  rewrite (parseBasicACL_default h (canned_hex h Hh)).
  rewrite (parseBasicACL_default _ (canned_0x h)).
  rewrite (parseBasicACL_default _ (canned_ToUpper h)).
  unfold parseHex.
  rewrite (ToLower_ASCII h (isASCII_hex h Hh)).
  rewrite (ToLower_ASCII ("0x" +:+ h) (isASCII_hex h Hh)).
  rewrite (ToLower_ASCII (GoString.ToUpper h))
    by (rewrite isASCII_ToUpper; exact (isASCII_hex h Hh)).
  by rewrite ToLower_0x, Trim_0x, ToLower_ToUpper.
Qed.

(** The text of the error is built from the trimmed, lower-case string. *)
Lemma parseBasicACL_error v e :
  snd (parseBasicACL acl U v) = Some e →
  e = Errorf ("can't parse basic ACL: " +:+ GoString.Trim (GoString.ToLower U v) "0x").
Proof.
  destruct (canned v) eqn:Hc.
  - unfold canned in Hc. unfold parseBasicACL.
    destruct (String.eqb v basicACLPublic); [done|].
    destruct (String.eqb v basicACLPrivate); [done|].
    destruct (String.eqb v basicACLReadOnly); done.
  - rewrite (parseBasicACL_default v Hc). unfold parseHex.
    destruct (Strconv.ParseUint16_32 _) as [value [err|]]; simpl; congruence.
Qed.

End BasicACL.

(** C1: the default branch trims every leading and trailing '0' and 'x',
    not a leading [0x]: the value [1x] is not a hexadecimal number, with or
    without the prefix, and [strconv.ParseUint] rejects it, yet
    [parseBasicACL] returns the mask 1 and no error. *)
Theorem C1_parseBasicACL_accepts_1x (acl : AclRules) (U : string → string) :
  is_hex "1x" = false
  ∧ Strconv.ParseUint16_32 (GoString.TrimPrefix (GoString.ToLower U "1x") "0x")
    = (0, Some Strconv.ErrSyntax)
  ∧ parseBasicACL acl U "1x" = (1, None).
Proof. repeat split. Qed.

(** The same trimming changes the value of well-formed masks that end in a
    zero, and rejects the mask zero. *)
Lemma parseBasicACL_trailing_zero (acl : AclRules) (U : string → string) :
  parseBasicACL acl U "0x10" = (1, None)
  ∧ parseBasicACL acl U "0" = (0, Some (Errorf "can't parse basic ACL: ")).
Proof. split; reflexivity. Qed.

(** ** Running handler code *)

Ltac unfold_H :=
  unfold try, index0, logAndSendError, writeError in *;
  unfold call, log, WriteErrorResponse, act, returned, panic,
    mbind, mret, H_bind, H_ret in *.

Ltac case_step :=
  match goal with
  | H : (_, _) = (_, _) |- _ => inversion H; subst; clear H
  | H : context [match ?x with _ => _ end] |- _ => destruct x eqn:?
  | H : context [if ?x then _ else _] |- _ => destruct x eqn:?
  end.

Ltac flip_negb :=
  repeat match goal with
         | H : negb _ = true |- _ => apply negb_true_iff in H
         | H : negb _ = false |- _ => apply negb_false_iff in H
         end.

Ltac use_eqs :=
  flip_negb;
  repeat match goal with
         | H : ?x = _ |- context [?x] => rewrite H
         end.

Lemma copyCalls_app cs cs' : copyCalls (cs ++ cs') = copyCalls cs ++ copyCalls cs'.
Proof.
  induction cs as [|c cs IH]; simpl; [done|].
  destruct c; simpl; by rewrite ?IH.
Qed.

Lemma headCalls_app cs cs' : headCalls (cs ++ cs') = headCalls cs ++ headCalls cs'.
Proof.
  induction cs as [|c cs IH]; simpl; [done|].
  destruct c; simpl; by rewrite ?IH.
Qed.

Lemma createCalls_app cs cs' : createCalls (cs ++ cs') = createCalls cs ++ createCalls cs'.
Proof.
  induction cs as [|c cs IH]; simpl; [done|].
  destruct c; simpl; by rewrite ?IH.
Qed.

Lemma errorStatuses_app ws ws' :
  errorStatuses (ws ++ ws') = errorStatuses ws ++ errorStatuses ws'.
Proof.
  induction ws as [|x ws IH]; simpl; [done|].
  destruct x; simpl; by rewrite ?IH.
Qed.

(** When the first part of [CopyObjectHandler] falls through, it has made
    one call, the head of the source, has written and logged nothing, and
    holds the bucket and object that [path2BucketObject] returned. *)
Lemma head_next h r w w1 s :
  CopyObjectHandler_head h r w = (w1, Next s) →
  heap w1 = heap w ∧ logs w1 = logs w ∧ writes w1 = writes w
  ∧ wHeader w1 = wHeader w
  ∧ calls w1 = calls w ++ [CGetObjectInfo (headParams s)]
  ∧ path2BucketObject (snd (copySourceOf (lib h) r)) = inl (srcBucket s, srcObject s)
  ∧ HeadObjectParams.VersionID (headParams s) = fst (copySourceOf (lib h) r)
  ∧ HeadObjectParams.Object (headParams s) = srcObject s
  ∧ GetObjectInfo (obj h) (rContext r) (headParams s) = inl (srcInfo s).
Proof.
  unfold CopyObjectHandler_head. intros Hrun.
  destruct (copySourceOf (lib h) r) as [versionID src].
  unfold_H. repeat case_step; simpl; done.
Qed.

(** Whatever way the first part ends, it has not called [CopyObject]. *)
Lemma head_copyCalls h r w w1 f :
  CopyObjectHandler_head h r w = (w1, f) → copyCalls (calls w1) = copyCalls (calls w).
Proof.
  unfold CopyObjectHandler_head. intros Hrun.
  destruct (copySourceOf (lib h) r) as [versionID src].
  unfold_H. repeat case_step; simpl; rewrite ?copyCalls_app, ?app_nil_r; done.
Qed.

(** When the second part falls through, it has written nothing and holds
    the parsed arguments; the metadata is set exactly when the directive is
    REPLACE, and then it is what [parseMetadata] returned. *)
Lemma plan_next h r s w w2 d :
  CopyObjectHandler_plan h r s w = (w2, Next d) →
  heap w2 = heap w ∧ writes w2 = writes w ∧ wHeader w2 = wHeader w
  ∧ logs w2 = logs w
  ∧ copyCalls (calls w2) = copyCalls (calls w)
  ∧ headCalls (calls w2) = headCalls (calls w)
  ∧ parseCopyObjectArgs (lib h) (rHeader r) = inl (args d)
  ∧ metadata0 d = (if String.eqb (MetadataDirective (args d)) replaceDirective
                   then parseMetadata r else None)
  ∧ (String.eqb (MetadataDirective (args d)) replaceDirective = true →
     is_Some (parseMetadata r)).
Proof.
  unfold CopyObjectHandler_plan. intros Hrun.
  unfold_H. repeat case_step; simpl;
    rewrite ?copyCalls_app, ?headCalls_app, ?app_nil_r; use_eqs;
    repeat split; eauto; done.
Qed.

Lemma plan_copyCalls h r s w w2 f :
  CopyObjectHandler_plan h r s w = (w2, f) → copyCalls (calls w2) = copyCalls (calls w).
Proof.
  unfold CopyObjectHandler_plan. intros Hrun.
  unfold_H. repeat case_step; simpl; rewrite ?copyCalls_app, ?app_nil_r; done.
Qed.

(** A request whose arguments do not parse is answered with the parse
    error before anything else is done. *)
Lemma plan_rejects h r s w err :
  parseCopyObjectArgs (lib h) (rHeader r) = inr err →
  CopyObjectHandler_plan h r s w
  = (add_write (WError err)
       (add_log {| level := LError; message := "could not parse request params";
                   logged := Some err |} w),
     Returned).
Proof.
  intros Hp. unfold CopyObjectHandler_plan. unfold_H. by rewrite Hp.
Qed.

Lemma parseCopyObjectArgs_directives lb hd a :
  parseCopyObjectArgs lb hd = inl a →
  isValidDirective (Header_Get hd api.AmzMetadataDirective) = true
  ∧ isValidDirective (Header_Get hd api.AmzTaggingDirective) = true
  ∧ MetadataDirective a = Header_Get hd api.AmzMetadataDirective
  ∧ TaggingDirective a = Header_Get hd api.AmzTaggingDirective.
Proof.
  unfold parseCopyObjectArgs. intros Hp.
  repeat case_step; try discriminate.
  inversion Hp; subst; simpl.
  repeat match goal with H : negb _ = false |- _ => apply negb_false_iff in H end.
  done.
Qed.

Lemma parseCopyObjectArgs_invalid lb hd t1 t2 :
  parseHTTPTime lb (Header_Get hd api.AmzCopyIfModifiedSince) = inl t1 →
  parseHTTPTime lb (Header_Get hd api.AmzCopyIfUnmodifiedSince) = inl t2 →
  isValidDirective (Header_Get hd api.AmzMetadataDirective) = false
  ∨ isValidDirective (Header_Get hd api.AmzTaggingDirective) = false →
  parseCopyObjectArgs lb hd
  = inr (APIError (if isValidDirective (Header_Get hd api.AmzMetadataDirective)
                   then ErrInvalidTaggingDirective
                   else ErrInvalidMetadataDirective)).
Proof.
  intros H1 H2 Hd. unfold parseCopyObjectArgs. rewrite H1, H2.
  destruct (isValidDirective (Header_Get hd api.AmzMetadataDirective)); simpl; [|done].
  destruct Hd as [Hd|Hd]; [done|]. by rewrite Hd.
Qed.

Lemma parseCopyObjectArgs_invalid_err lb hd :
  isValidDirective (Header_Get hd api.AmzMetadataDirective) = false
  ∨ isValidDirective (Header_Get hd api.AmzTaggingDirective) = false →
  ∃ err, parseCopyObjectArgs lb hd = inr err.
Proof.
  intros Hd.
  destruct (parseCopyObjectArgs lb hd) as [a|err] eqn:Hp; [|by eexists].
  apply parseCopyObjectArgs_directives in Hp as (Hm & Ht & _).
  destruct Hd; congruence.
Qed.

(** ** Directives *)

(** C2, as the code has it: a copy whose metadata or tagging directive is
    not empty, COPY or REPLACE never reaches [CopyObject]; but the source is
    headed before the directives are looked at, so when the request gets as
    far as the source object and both dates parse, exactly one
    [GetObjectInfo] call has been made and the answer is 400
    InvalidMetadataDirective, or 400 InvalidTaggingDirective when only the
    tagging directive is wrong. *)
Theorem C2_invalid_directive h r hp :
  isValidDirective (Header_Get (rHeader r) api.AmzMetadataDirective) = false
  ∨ isValidDirective (Header_Get (rHeader r) api.AmzTaggingDirective) = false →
  let w' := run (CopyObjectHandler h r) (World0 hp) in
  copyCalls (calls w') = []
  ∧ (∀ s w1 t1 t2,
       CopyObjectHandler_head h r (World0 hp) = (w1, Next s) →
       parseHTTPTime (lib h) (Header_Get (rHeader r) api.AmzCopyIfModifiedSince) = inl t1 →
       parseHTTPTime (lib h) (Header_Get (rHeader r) api.AmzCopyIfUnmodifiedSince) = inl t2 →
       headCalls (calls w') = [headParams s]
       ∧ writes w'
         = [WError (APIError
              (if isValidDirective (Header_Get (rHeader r) api.AmzMetadataDirective)
               then ErrInvalidTaggingDirective else ErrInvalidMetadataDirective))]
       ∧ errorStatuses (writes w') = [400]).
Proof.
  intros Hd w'. subst w'. unfold run, CopyObjectHandler, mbind, H_bind.
  destruct (parseCopyObjectArgs_invalid_err (lib h) (rHeader r) Hd) as [err Herr].
  destruct (CopyObjectHandler_head h r (World0 hp)) as [w1 f] eqn:Hhead.
  pose proof (head_copyCalls _ _ _ _ _ Hhead) as Hcopy. simpl in Hcopy.
  split.
  - destruct f as [s| |]; simpl; try done.
    rewrite (plan_rejects h r s w1 err Herr). simpl. by rewrite Hcopy.
  - intros s w1' t1 t2 [= <- ->] H1 H2.
    apply head_next in Hhead as (_ & _ & Hw & _ & Hc & _). simpl in Hw, Hc.
    pose proof (parseCopyObjectArgs_invalid _ _ _ _ H1 H2 Hd) as Hp.
    rewrite (plan_rejects h r s w1 _ Hp). simpl. rewrite Hw, Hc. simpl.
    repeat split. by destruct (isValidDirective _).
Qed.

Lemma C2_invalid_directive_witness :
  let w' := run (CopyObjectHandler Demo.h Demo.copyMerge) (World0 ∅) in
  copyCalls (calls w') = []
  ∧ length (headCalls (calls w')) = 1%nat
  ∧ writes w' = [WError (APIError ErrInvalidMetadataDirective)]
  ∧ errorStatuses (writes w') = [400].
Proof.
  pose proof (C2_invalid_directive Demo.h Demo.copyMerge ∅ (or_introl eq_refl))
    as [Hcopy Hrest].
  destruct (CopyObjectHandler_head Demo.h Demo.copyMerge (World0 ∅)) as [w1 f] eqn:Hhead.
  vm_compute in Hhead. injection Hhead as <- <-.
  destruct (Hrest _ _ None None eq_refl eq_refl eq_refl) as (Hh & Hw & Hs).
  split; [exact Hcopy|]. split; [by rewrite Hh|]. split; [exact Hw|exact Hs].
Defined.

(** S6 of the spec: the answer is InvalidMetadataDirective, but the source
    has been headed. *)
Lemma C2_head_is_made :
  let w' := run (CopyObjectHandler Demo.h Demo.copyMerge) (World0 ∅) in
  ¬ (writes w' = [WError (APIError ErrInvalidMetadataDirective)]
     ∧ headCalls (calls w') = []
     ∧ copyCalls (calls w') = []).
Proof. intros w' (_ & Hh & _). vm_compute in Hh. discriminate Hh. Qed.

(** ** Metadata extraction *)

Lemma HasPrefix_app p k : GoString.HasPrefix (p +:+ k) p = true.
Proof.
  induction p as [|c p IH]; simpl; [done|].
  by rewrite Ascii.eqb_refl, IH.
Qed.

Lemma TrimPrefix_app p k : GoString.TrimPrefix (p +:+ k) p = k.
Proof.
  unfold GoString.TrimPrefix. rewrite HasPrefix_app.
  induction p as [|c p IH]; simpl; done.
Qed.

Lemma HasPrefix_split s p :
  GoString.HasPrefix s p = true → s = p +:+ GoString.TrimPrefix s p.
Proof.
  unfold GoString.TrimPrefix. intros Hp. rewrite Hp. revert s Hp.
  induction p as [|c p IH]; intros s Hp; simpl; [done|].
  destruct s as [|d s]; simpl in Hp; [done|].
  apply andb_true_iff in Hp as [Hc Hp]. apply Ascii.eqb_eq in Hc as ->.
  change (String c s = String c (p +:+ GoString.drop (String.length p) s)).
  f_equal. exact (IH s Hp).
Qed.

(** The metadata map holds, under each key, the first value of the header
    whose name is the metadata prefix followed by that key. *)
Lemma parseMetadata_lookup r m k :
  parseMetadata r = Some m →
  m !! k = rHeader r !! (api.MetadataPrefix +:+ k) ≫= head.
Proof.
  unfold parseMetadata. revert m.
  apply (map_fold_weak_ind
    (λ (res : option (gmap string string)) (hd : Header),
       ∀ m, res = Some m → m !! k = hd !! (api.MetadataPrefix +:+ k) ≫= head)).
  - intros m [= <-]. by rewrite !lookup_empty.
  - intros i x hd res Hi IH m.
    destruct (GoString.HasPrefix i api.MetadataPrefix) eqn:Hp.
    + destruct res as [m'|]; [|done]. destruct x as [|v0 x]; [done|].
      intros [= <-].
      destruct (decide (GoString.TrimPrefix i api.MetadataPrefix = k)) as [Hk|Hk].
      * apply HasPrefix_split in Hp. rewrite Hk in Hp. subst i.
        rewrite TrimPrefix_app. by rewrite !lookup_insert_eq.
      * rewrite lookup_insert_ne by done.
        rewrite lookup_insert_ne; [by apply IH|].
        intros ->. by rewrite TrimPrefix_app in Hk.
    + intros Hres. rewrite lookup_insert_ne; [by apply IH|].
      intros ->. by rewrite HasPrefix_app in Hp.
Qed.

(** ** Metadata of the copy *)

Lemma length_pos_eqb s : (0 <? String.length s)%nat = negb (String.eqb s "").
Proof. by destruct s. Qed.

(** Every [CopyObject] call of the last part carries the metadata chosen
    from the plan: the inherited headers when the plan has none. *)
Lemma commit_copyCalls h r s d w w' f :
  CopyObjectHandler_commit h r s d w = (w', f) →
  ∃ ps, copyCalls (calls w') = copyCalls (calls w) ++ ps
        ∧ Forall (λ p, CopyObjectParams.Header p =
                       match metadata0 d with
                       | Some m =>
                           Some (if String.eqb (Header_Get (rHeader r) api.ContentType) ""
                                 then m
                                 else <[api.ContentType :=
                                          Header_Get (rHeader r) api.ContentType]> m)
                       | None =>
                           if String.eqb (ObjectInfo.ContentType (srcInfo s)) ""
                           then ObjectInfo.Headers (srcInfo s)
                           else <[api.ContentType := ObjectInfo.ContentType (srcInfo s)]>
                                  <$> ObjectInfo.Headers (srcInfo s)
                       end) ps.
Proof.
  unfold CopyObjectHandler_commit. intros Hrun.
  unfold_H. rewrite !length_pos_eqb in Hrun.
  repeat case_step; simpl in *; rewrite ?copyCalls_app, ?app_nil_r; simpl;
    try (by exists []; rewrite app_nil_r);
    (eexists [_]; split; [reflexivity|]; constructor; [|constructor]; simpl;
     use_eqs; simpl; done).
Qed.

Lemma copy_metadata h r hp :
  Forall (λ p, ∃ s w1,
            CopyObjectHandler_head h r (World0 hp) = (w1, Next s)
            ∧ CopyObjectParams.Header p = destinationMetadata r (srcInfo s))
    (copyCalls (calls (run (CopyObjectHandler h r) (World0 hp)))).
Proof.
  unfold run, CopyObjectHandler, mbind, H_bind.
  destruct (CopyObjectHandler_head h r (World0 hp)) as [w1 f1] eqn:Hhead.
  pose proof (head_copyCalls _ _ _ _ _ Hhead) as Hc1. simpl in Hc1.
  destruct f1 as [s| |]; simpl; rewrite ?Hc1; try constructor.
  destruct (CopyObjectHandler_plan h r s w1) as [w2 f2] eqn:Hplan.
  pose proof (plan_copyCalls _ _ _ _ _ _ Hplan) as Hc2.
  destruct f2 as [d| |]; simpl; rewrite ?Hc2, ?Hc1; try constructor.
  destruct (CopyObjectHandler_commit h r s d w2) as [w3 f3] eqn:Hcommit.
  apply commit_copyCalls in Hcommit as (ps & Hps & Hall).
  simpl. rewrite Hps, Hc2, Hc1. simpl.
  apply plan_next in Hplan as (_ & _ & _ & _ & _ & _ & Hargs & Hmeta & Hsome).
  apply parseCopyObjectArgs_directives in Hargs as (_ & _ & Hmd & _).
  eapply Forall_impl; [exact Hall|]. intros p Hp. exists s, w1.
  split; [reflexivity|]. simpl in Hp.
  rewrite Hp, Hmeta. unfold destinationMetadata. rewrite <- Hmd.
  destruct (String.eqb _ replaceDirective); [|done].
  by destruct (Hsome eq_refl) as [m ->].
Qed.

(** C3, as the code has it: the metadata passed to [CopyObject] is, under
    REPLACE, the [x-amz-meta-*] headers of the request with the request's
    Content-Type when that is not empty, and otherwise the headers of the
    source with the source's Content-Type when that is not empty.  In S4
    the destination headers are [{X: Y}] plus the Content-Type of the
    request; when the request has none, no Content-Type is added: the type
    of the source is not used under REPLACE. *)
Theorem C3_copy_metadata :
  (∀ h r hp s w1,
     CopyObjectHandler_head h r (World0 hp) = (w1, Next s) →
     Forall (λ p, CopyObjectParams.Header p = destinationMetadata r (srcInfo s))
       (copyCalls (calls (run (CopyObjectHandler h r) (World0 hp)))))
  ∧ (∀ h hp contentType,
       Forall (λ p, CopyObjectParams.Header p =
                    Some (match contentType with
                          | Some v => if String.eqb v "" then {[ "X" := "Y" ]}
                                      else <[api.ContentType := v]> {[ "X" := "Y" ]}
                          | None => {[ "X" := "Y" ]}
                          end))
         (copyCalls (calls (run (CopyObjectHandler h (Demo.copyReplace contentType))
                              (World0 hp))))).
Proof.
  split.
  - intros h r hp s w1 Hhead.
    eapply Forall_impl; [apply copy_metadata|].
    intros p (s' & w1' & Hhead' & Hp). simpl in Hp. congruence.
  - intros h hp contentType.
    eapply Forall_impl; [apply copy_metadata|].
    intros p (s & w1 & _ & Hp). simpl in Hp. rewrite Hp.
    destruct contentType as [v|]; [|reflexivity].
    unfold destinationMetadata.
    replace (Header_Get (rHeader (Demo.copyReplace (Some v))) api.AmzMetadataDirective)
      with "REPLACE" by reflexivity.
    replace (parseMetadata (Demo.copyReplace (Some v)))
      with (Some ({[ "X" := "Y" ]} : gmap string string)) by (vm_compute; reflexivity).
    replace (Header_Get (rHeader (Demo.copyReplace (Some v))) api.ContentType)
      with v by reflexivity.
    reflexivity.
Qed.

Lemma C3_copy_metadata_witness :
  let w' := run (CopyObjectHandler Demo.h (Demo.copyReplace (Some "image/png")))
              (World0 ∅) in
  length (copyCalls (calls w')) = 1%nat
  ∧ Forall (λ p, CopyObjectParams.Header p
                 = Some (<[api.ContentType := "image/png"]> {[ "X" := "Y" ]}))
      (copyCalls (calls w'))
  ∧ Forall (λ p, CopyObjectParams.Header p
                 = destinationMetadata (Demo.copyReplace (Some "image/png")) Demo.source)
      (copyCalls (calls w')).
Proof.
  destruct C3_copy_metadata as [Hgen Hs4].
  split; [vm_compute; reflexivity|]. split.
  - exact (Hs4 Demo.h ∅ (Some "image/png")).
  - destruct (CopyObjectHandler_head Demo.h (Demo.copyReplace (Some "image/png"))
                (World0 ∅)) as [w1 f] eqn:Hhead.
    vm_compute in Hhead. injection Hhead as <- <-.
    exact (Hgen Demo.h (Demo.copyReplace (Some "image/png")) ∅ _ _ eq_refl).
Defined.

(** S4 of the spec when the request has no Content-Type and the source is
    [text/plain]: the copy is made, and its headers are not
    [{X: Y, Content-Type: text/plain}]. *)
Lemma C3_no_source_type_under_replace :
  let w' := run (CopyObjectHandler Demo.h (Demo.copyReplace None)) (World0 ∅) in
  ¬ Forall (λ p, CopyObjectParams.Header p
                 = Some (<[api.ContentType := ObjectInfo.ContentType Demo.source]>
                           {[ "X" := "Y" ]}))
      (copyCalls (calls w')).
Proof.
  intros w' Hall.
  assert (Hlen : ∃ p, copyCalls (calls w') = [p]
                      ∧ CopyObjectParams.Header p = Some {[ "X" := "Y" ]}).
  { eexists. split; vm_compute; reflexivity. }
  destruct Hlen as (p & Hps & Hp). rewrite Hps in Hall.
  apply Forall_inv in Hall. rewrite Hp in Hall.
  apply (f_equal (λ o : option (gmap string string), o ≫= (.!! api.ContentType))) in Hall.
  vm_compute in Hall. discriminate Hall.
Qed.

(** ** Access box *)

Lemma gate_only_refl hp : gate_only hp hp.
Proof. intros l. by left. Qed.

Lemma gate_only_insert (hp : gmap loc Box) data b :
  hp !! data = Some b → Gate b = None →
  gate_only hp (<[data := Box_setGate b (Some emptyGateData)]> hp).
Proof.
  intros Hb Hg l. destruct (decide (l = data)) as [->|Hne].
  - right. exists b. by rewrite lookup_insert_eq.
  - left. by rewrite lookup_insert_ne.
Qed.

Lemma gate_only_policies hp hp' l :
  gate_only hp hp' → Policies <$> (hp' !! l) = Policies <$> (hp !! l).
Proof.
  intros Hg. destruct (Hg l) as [->|(b & -> & _ & ->)]; done.
Qed.

Lemma getBoxData_heap ctx w w' res :
  getBoxData ctx w = (w', res) → gate_only (heap w) (heap w').
Proof.
  unfold getBoxData. intros Hrun.
  repeat case_step; simpl; eauto using gate_only_refl, gate_only_insert.
Qed.

Lemma CreateBucketHandler_heap h r w w' f :
  CreateBucketHandler h r w = (w', f) → gate_only (heap w) (heap w').
Proof.
  unfold CreateBucketHandler, getBoxData. intros Hrun.
  unfold_H. repeat case_step; simpl in *;
    eauto using gate_only_refl, gate_only_insert.
Qed.

(** The only write of [CreateBucketHandler] to the store of boxes is the
    one of its call of [getBoxData]. *)
Lemma CreateBucketHandler_heap_cases h r w :
  heap (run (CreateBucketHandler h r) w) = heap w
  ∨ heap (run (CreateBucketHandler h r) w) = heap (fst (getBoxData (rContext r) w)).
Proof.
  unfold run. destruct (CreateBucketHandler h r w) as [w' f] eqn:Hrun. simpl.
  unfold CreateBucketHandler, getBoxData in Hrun. unfold getBoxData. unfold_H.
  repeat case_step; simpl in *; use_eqs; simpl; eauto.
Qed.

(** C4, as the code has it: [getBoxData] and [CreateBucketHandler] never
    change the policy list of a box, never change a box other than the one
    the context points to, and leave a box that has a gate as it is; but
    the empty gate is written through the pointer held in the context, so
    a box without a gate is modified in place. *)
Theorem C4_box_gate_written_in_place ctx w l b :
  Value ctx BoxData = Some (VBox (Some l)) →
  heap w !! l = Some b →
  let w' := fst (getBoxData ctx w) in
  (∀ l', Policies <$> (heap w' !! l') = Policies <$> (heap w !! l'))
  ∧ (∀ l', l' ≠ l → heap w' !! l' = heap w !! l')
  ∧ (Gate b ≠ None → heap w' = heap w)
  ∧ (Gate b = None → heap w' !! l = Some (Box_setGate b (Some emptyGateData)))
  ∧ (∀ h r w0, gate_only (heap w0) (heap (run (CreateBucketHandler h r) w0)))
  ∧ (∀ h r, rContext r = ctx →
       let w1 := run (CreateBucketHandler h r) w in
       (heap w1 = heap w ∨ heap w1 = heap w')
       ∧ (∀ l', Policies <$> (heap w1 !! l') = Policies <$> (heap w !! l'))
       ∧ (∀ l', l' ≠ l → heap w1 !! l' = heap w !! l')
       ∧ (Gate b ≠ None → heap w1 = heap w))
  ∧ (∀ h r w0, (∀ l0, Value (rContext r) BoxData ≠ Some (VBox (Some l0))) →
       heap (run (CreateBucketHandler h r) w0) = heap w0).
Proof.
  intros Hctx Hb w'. subst w'.
  destruct (getBoxData ctx w) as [w' res] eqn:Hrun. simpl.
  assert (Hpol : ∀ l', Policies <$> (heap w' !! l') = Policies <$> (heap w !! l')).
  { intros l'. eapply gate_only_policies, getBoxData_heap, Hrun. }
  assert (Hother : ∀ l', l' ≠ l → heap w' !! l' = heap w !! l').
  { intros l' Hne. unfold getBoxData in Hrun. rewrite Hctx, Hb in Hrun.
    destruct (Gate b); inversion Hrun; subst; simpl; [done|].
    by rewrite lookup_insert_ne. }
  assert (Hset : Gate b ≠ None → heap w' = heap w).
  { intros Hg. unfold getBoxData in Hrun. rewrite Hctx, Hb in Hrun.
    destruct (Gate b); [|done]. by inversion Hrun. }
  split; [exact Hpol|]. split; [exact Hother|]. split; [exact Hset|].
  split; [|split; [|split]].
  - intros Hg. unfold getBoxData in Hrun. rewrite Hctx, Hb, Hg in Hrun.
    inversion Hrun; subst; simpl. by rewrite lookup_insert_eq.
  - intros h r w0. unfold run.
    destruct (CreateBucketHandler h r w0) as [w1 f] eqn:Hc. simpl.
    eapply CreateBucketHandler_heap, Hc.
  - intros h r Hr. cbv zeta.
    assert (Hcases : heap (run (CreateBucketHandler h r) w) = heap w
                     ∨ heap (run (CreateBucketHandler h r) w) = heap w').
    { destruct (CreateBucketHandler_heap_cases h r w) as [He|He]; [by left|].
      right. by rewrite He, Hr, Hrun. }
    split; [exact Hcases|].
    destruct Hcases as [->| ->]; [done|]. by split; [|split].
  - intros h r w0 Hno.
    destruct (CreateBucketHandler_heap_cases h r w0) as [He|He]; [exact He|].
    rewrite He. unfold getBoxData.
    destruct (Value (rContext r) BoxData) as [[[l0|]|x]|] eqn:Hv; try done.
    by destruct (Hno l0).
Qed.

Lemma C4_box_gate_written_in_place_witness :
  let w := World0 Demo.store in
  let w' := fst (getBoxData Demo.ctxBox w) in
  let w1 := run (CreateBucketHandler Demo.h Demo.createEU) w in
  heap w' !! 1%positive = Some (Box_setGate Demo.box (Some emptyGateData))
  ∧ Policies <$> (heap w' !! 1%positive) = Some (Policies Demo.box)
  ∧ Policies <$> (heap w1 !! 1%positive) = Some (Policies Demo.box)
  ∧ heap w1 !! 2%positive = None.
Proof.
  intros w w' w1.
  destruct (C4_box_gate_written_in_place Demo.ctxBox w 1%positive Demo.box
              eq_refl eq_refl) as (Hpol & _ & _ & Hgate & _ & Hcreate & _).
  destruct (Hcreate Demo.h Demo.createEU eq_refl) as (_ & Hpol1 & Hother1 & _).
  split; [exact (Hgate eq_refl)|]. split; [exact (Hpol 1%positive)|].
  split; [exact (Hpol1 1%positive)|].
  exact (Hother1 2%positive ltac:(discriminate)).
Defined.

(** Read-only access at a box without a gate: the box held in the context is not
    the same after [getBoxData]. *)
Lemma C4_stored_box_changes :
  let w := World0 Demo.store in
  Value Demo.ctxBox BoxData = Some (VBox (Some 1%positive))
  ∧ heap w !! 1%positive = Some Demo.box
  ∧ ¬ (heap (fst (getBoxData Demo.ctxBox w)) !! 1%positive = heap w !! 1%positive).
Proof.
  intros w. split; [reflexivity|]. split; [reflexivity|].
  intros Heq. vm_compute in Heq. discriminate Heq.
Qed.

(** ** Auth middleware *)

(** C5: when [Authenticate] reports the missing header, the inner handler
    runs on the request with its context as it was, after one debug line;
    on any other error the answer is 403 AccessDenied and the result does
    not depend on the inner handler, which is not run; on success the inner
    handler runs on a context in which [BoxData] is bound to the returned
    box. *)
Theorem C5_AttachUserAuth center inner r w box :
  (Authenticate center r = (box, Some ErrNoAuthorizationHeader) →
   AttachUserAuth center inner r w
   = inner (WithContext r (rContext r))
       (add_log {| level := LDebug;
                   message := "couldn't receive bearer token, using neofs-key";
                   logged := None |} w)
   ∧ rContext (WithContext r (rContext r)) = rContext r)
  ∧ (∀ err, Authenticate center r = (box, Some err) →
            err ≠ ErrNoAuthorizationHeader →
            ∀ inner',
              AttachUserAuth center inner' r w
              = (add_write (WError (APIError ErrAccessDenied))
                   (add_log {| level := LError;
                               message := "failed to pass authentication";
                               logged := Some err |} w),
                 Returned)
              ∧ status_of (APIError ErrAccessDenied) = 403)
  ∧ (Authenticate center r = (box, None) →
     AttachUserAuth center inner r w
     = inner (WithContext r (WithValue (rContext r) BoxData (VBox box))) w
     ∧ Value (rContext (WithContext r (WithValue (rContext r) BoxData (VBox box))))
         BoxData = Some (VBox box)).
Proof.
  unfold AttachUserAuth. split; [|split].
  - intros ->. unfold_H. by rewrite decide_True.
  - intros err -> Hne inner'. unfold_H. by rewrite decide_False.
  - intros ->. split; reflexivity.
Qed.

Lemma C5_AttachUserAuth_witness :
  let r := Demo.createPlain in
  let inner := CreateBucketHandler Demo.h in
  let w := World0 Demo.store in
  writes (run (AttachUserAuth (Demo.center (None, Some ErrNoAuthorizationHeader)) inner
                 (WithContext r [])) w)
  = [WError (Errorf "couldn't get box data from context")]
  ∧ writes (run (AttachUserAuth (Demo.center (None, Some (Foreign "bad signature"))) inner
                   (WithContext r [])) w)
    = [WError (APIError ErrAccessDenied)]
  ∧ writes (run (AttachUserAuth (Demo.center (Some 1%positive, None)) inner
                   (WithContext r [])) w)
    = [WSuccessHeadersOnly].
Proof.
  intros r inner w. unfold run. split; [|split].
  - destruct (C5_AttachUserAuth (Demo.center (None, Some ErrNoAuthorizationHeader))
                inner (WithContext r []) w None) as (Hanon & _).
    destruct (Hanon eq_refl) as [-> _].
    vm_compute. reflexivity.
  - destruct (C5_AttachUserAuth (Demo.center (None, Some (Foreign "bad signature")))
                inner (WithContext r []) w None) as (_ & Hdeny & _).
    destruct (Hdeny (Foreign "bad signature") eq_refl ltac:(discriminate) inner)
      as [-> _].
    reflexivity.
  - destruct (C5_AttachUserAuth (Demo.center (Some 1%positive, None))
                inner (WithContext r []) w (Some 1%positive)) as (_ & _ & Hok).
    destruct (Hok eq_refl) as [-> _].
    vm_compute. reflexivity.
Defined.

(** ** Bucket creation *)

Lemma scanPolicies_firstMatch policies constraint :
  scanPolicies policies constraint None
  = firstMatch policies constraint ≫= Policy.
Proof.
  unfold firstMatch.
  induction policies as [|pp rest IH]; simpl; [done|].
  by destruct (String.eqb (LocationConstraint pp) constraint).
Qed.

(** What [CreateBucketHandler] passes to the object layer: at most one
    call, for the box of the context, with the ACL of the header, or the
    public rule when there is no header, and the policy found by the scan,
    or else the parsed default. *)
Lemma CreateBucketHandler_calls h r hp :
  let w' := run (CreateBucketHandler h r) (World0 hp) in
  createCalls (calls w') = []
  ∨ ∃ p l b cp,
      createCalls (calls w') = [(p, l)]
      ∧ Value (rContext r) BoxData = Some (VBox (Some l))
      ∧ hp !! l = Some b
      ∧ parseLocationConstraint (lib h) r = inl cp
      ∧ CreateBucketParams.Name p = Var r "bucket"
      ∧ match rHeader r !! "X-Amz-Acl" with
        | Some val => ∃ v0, head val = Some v0
                            ∧ parseBasicACL (aclRules h) (Map_unicode_ToLower (lib h)) v0
                              = (CreateBucketParams.ACL p, None)
        | None => CreateBucketParams.ACL p = publicBasicRule
        end
      ∧ match (if String.eqb (cbLocationConstraint cp) "" then None
               else scanPolicies (Policies b) (cbLocationConstraint cp) None) with
        | Some pol => CreateBucketParams.Policy p = Some pol
        | None => policy_Parse (lib h) defaultPolicy = inl (CreateBucketParams.Policy p)
        end.
Proof.
  intros w'. subst w'. unfold run.
  destruct (CreateBucketHandler h r (World0 hp)) as [w' f] eqn:Hrun. simpl.
  unfold CreateBucketHandler, getBoxData in Hrun. unfold_H.
  repeat case_step; simpl in *; try (by left);
    right; do 4 eexists;
    (split; [reflexivity|]); simpl;
    rewrite ?lookup_insert_eq in *; simplify_eq; flip_negb;
    unfold Box_setGate in *; simpl in *;
    repeat split; eauto; use_eqs; simpl; eauto.
Qed.

(** With no ACL header, a box in the context, a body that parses and a
    default policy that parses, the handler does call [CreateBucket]. *)
Lemma CreateBucketHandler_reaches h r hp l b cp dflt :
  rHeader r !! "X-Amz-Acl" = None →
  Value (rContext r) BoxData = Some (VBox (Some l)) →
  hp !! l = Some b →
  parseLocationConstraint (lib h) r = inl cp →
  policy_Parse (lib h) defaultPolicy = inl dflt →
  createCalls (calls (run (CreateBucketHandler h r) (World0 hp))) ≠ [].
Proof.
  intros Hacl Hctx Hb Hcp Hdflt. unfold run.
  destruct (CreateBucketHandler h r (World0 hp)) as [w' f] eqn:Hrun. simpl.
  unfold CreateBucketHandler, getBoxData in Hrun. unfold_H.
  rewrite Hacl, Hcp, Hctx in Hrun. simpl in Hrun. rewrite Hb in Hrun.
  repeat case_step; simpl in *; rewrite ?lookup_insert_eq in *;
    simplify_eq; done.
Qed.

Lemma adopted_is_spec b constraint dflt :
  (∀ entry, firstMatch (Policies b) constraint = Some entry → Policy entry ≠ None) →
  adoptedPolicy b constraint dflt = specPolicy b constraint dflt.
Proof.
  intros Hset. unfold adoptedPolicy, specPolicy.
  destruct (String.eqb constraint ""); [done|].
  destruct (firstMatch (Policies b) constraint) as [entry|] eqn:Hf; [|done].
  specialize (Hset entry eq_refl). by destruct (Policy entry).
Qed.

(** C6, as the code has it: the policy passed to [CreateBucket] is the
    Policy of the first entry of the box whose LocationConstraint is the
    parsed one, when the constraint is not empty and that entry has a
    policy; it is the parse of ["REP 3"] when the constraint is empty, when
    no entry matches, and also when the first matching entry has no
    policy.  Without an ACL header the call is made, once. *)
Theorem C6_adopted_policy h r hp l b cp dflt :
  Value (rContext r) BoxData = Some (VBox (Some l)) →
  hp !! l = Some b →
  parseLocationConstraint (lib h) r = inl cp →
  policy_Parse (lib h) defaultPolicy = inl dflt →
  let created := createCalls (calls (run (CreateBucketHandler h r) (World0 hp))) in
  defaultPolicy = "REP 3"
  ∧ Forall (λ c, CreateBucketParams.Policy (fst c)
                 = adoptedPolicy b (cbLocationConstraint cp) dflt) created
  ∧ (rHeader r !! "X-Amz-Acl" = None → length created = 1%nat)
  ∧ ((∀ entry, firstMatch (Policies b) (cbLocationConstraint cp) = Some entry →
               Policy entry ≠ None) →
     adoptedPolicy b (cbLocationConstraint cp) dflt
     = specPolicy b (cbLocationConstraint cp) dflt).
Proof.
  intros Hctx Hb Hcp Hdflt created.
  pose proof (CreateBucketHandler_reaches h r hp l b cp dflt) as Hreach.
  subst created.
  split; [reflexivity|].
  destruct (CreateBucketHandler_calls h r hp)
    as [Hnone|(p & l' & b' & cp' & Hone & Hctx' & Hb' & Hcp' & _ & _ & Hpol)].
  { rewrite Hnone. split; [constructor|]. split; [|apply adopted_is_spec].
    intros Hacl. by destruct (Hreach Hacl Hctx Hb Hcp Hdflt). }
  rewrite Hone. split; [|split; [done|apply adopted_is_spec]].
  constructor; [|constructor]. simpl.
  rewrite Hctx in Hctx'. injection Hctx' as <-.
  rewrite Hb in Hb'. injection Hb' as <-.
  rewrite Hcp in Hcp'. injection Hcp' as <-.
  unfold adoptedPolicy.
  destruct (String.eqb (cbLocationConstraint cp) "").
  - rewrite Hdflt in Hpol. by injection Hpol as <-.
  - rewrite scanPolicies_firstMatch in Hpol.
    destruct (firstMatch (Policies b) (cbLocationConstraint cp)) as [entry|]; simpl in Hpol.
    + destruct (Policy entry); [done|].
      rewrite Hdflt in Hpol. by injection Hpol as <-.
    + rewrite Hdflt in Hpol. by injection Hpol as <-.
Qed.

Lemma C6_adopted_policy_witness :
  let w' := run (CreateBucketHandler Demo.h Demo.createEU) (World0 Demo.store) in
  length (createCalls (calls w')) = 1%nat
  ∧ Forall (λ c, CreateBucketParams.Policy (fst c) = Some Demo.policyEU)
      (createCalls (calls w')).
Proof.
  intros w'.
  destruct (C6_adopted_policy Demo.h Demo.createEU Demo.store
              1%positive Demo.box {| cbLocationConstraint := "eu" |}
              (Some {| policyText := "REP 3" |})
              eq_refl eq_refl eq_refl eq_refl) as (_ & Hall & Hlen & _).
  split; [exact (Hlen eq_refl)|exact Hall].
Defined.

(** Bucket creation at a box whose first [eu] entry has no policy: the bucket is
    created, and not with the policy of that entry. *)
Lemma C6_unset_policy_gives_default :
  let w' := run (CreateBucketHandler Demo.h Demo.createEU)
              (World0 Demo.storeUnset) in
  ¬ Forall (λ c, CreateBucketParams.Policy (fst c)
                 = specPolicy Demo.boxUnset "eu" (Some {| policyText := "REP 3" |}))
      (createCalls (calls w')).
Proof.
  intros w' Hall.
  assert (Hc : ∃ p, createCalls (calls w') = [(p, 1%positive)]
                    ∧ CreateBucketParams.Policy p = Some {| policyText := "REP 3" |}).
  { eexists. split; vm_compute; reflexivity. }
  destruct Hc as (p & Hps & Hp). rewrite Hps in Hall.
  apply Forall_inv in Hall. simpl in Hall. rewrite Hp in Hall.
  vm_compute in Hall. discriminate Hall.
Qed.

(** C7: a CreateBucket request without [x-amz-acl] reaches the object layer
    with the ACL [0x0FFFFFFF]: every call carries it, and the call is made
    once the body parses, the context holds a box and the default policy
    parses. *)
Theorem C7_default_acl h r hp :
  rHeader r !! "X-Amz-Acl" = None →
  let created := createCalls (calls (run (CreateBucketHandler h r) (World0 hp))) in
  Forall (λ c, CreateBucketParams.ACL (fst c) = 0x0FFFFFFF) created
  ∧ (∀ l b cp dflt,
       Value (rContext r) BoxData = Some (VBox (Some l)) →
       hp !! l = Some b →
       parseLocationConstraint (lib h) r = inl cp →
       policy_Parse (lib h) defaultPolicy = inl dflt →
       ∃ p, created = [(p, l)] ∧ CreateBucketParams.ACL p = 0x0FFFFFFF).
Proof.
  intros Hacl created. subst created.
  destruct (CreateBucketHandler_calls h r hp)
    as [Hnone|(p & l & b & cp & Hone & Hctx & _ & _ & _ & Hp & _)].
  - rewrite Hnone. split; [constructor|].
    intros l b cp dflt Hctx Hb Hcp Hdflt.
    by destruct (CreateBucketHandler_reaches h r hp l b cp dflt Hacl Hctx Hb Hcp Hdflt).
  - rewrite Hone. rewrite Hacl in Hp. split.
    + constructor; [exact Hp|constructor].
    + intros l' b' cp' dflt Hctx' _ _ _.
      rewrite Hctx in Hctx'. injection Hctx' as <-. by exists p.
Qed.

Lemma C7_default_acl_witness :
  let w' := run (CreateBucketHandler Demo.h Demo.createPlain) (World0 Demo.store) in
  ∃ p, createCalls (calls w') = [(p, 1%positive)]
       ∧ CreateBucketParams.ACL p = 0x0FFFFFFF.
Proof.
  intros w'.
  destruct (C7_default_acl Demo.h Demo.createPlain Demo.store eq_refl) as [_ Hmade].
  exact (Hmade 1%positive Demo.box {| cbLocationConstraint := "" |}
           (Some {| policyText := "REP 3" |}) eq_refl eq_refl eq_refl eq_refl).
Defined.

(** ** Preconditions *)

(** C8: when the handler has the source object and its plan, and the
    conditional headers fail against the source, the answer is
    412 PreconditionFailed and [CopyObject] is not called. *)
Theorem C8_precondition_failed h r hp s w1 d w2 err :
  CopyObjectHandler_head h r (World0 hp) = (w1, Next s) →
  CopyObjectHandler_plan h r s w1 = (w2, Next d) →
  checkPreconditions (lib h) (srcInfo s) (Conditional (args d)) = Some err →
  let w' := run (CopyObjectHandler h r) (World0 hp) in
  writes w' = [WError (APIError ErrPreconditionFailed)]
  ∧ errorStatuses (writes w') = [412]
  ∧ copyCalls (calls w') = [].
Proof.
  intros Hhead Hplan Hcheck w'. subst w'.
  unfold run, CopyObjectHandler, mbind, H_bind. rewrite Hhead, Hplan.
  unfold CopyObjectHandler_commit. unfold_H. rewrite Hcheck. simpl.
  apply head_next in Hhead as (_ & _ & Hw1 & _ & Hc1 & _).
  apply plan_next in Hplan as (_ & Hw2 & _ & _ & Hc2 & _).
  rewrite Hw2, Hw1, Hc2, Hc1, copyCalls_app. done.
Qed.

Lemma C8_precondition_failed_witness :
  let w' := run (CopyObjectHandler Demo.h Demo.copyIfNoneMatch) (World0 ∅) in
  writes w' = [WError (APIError ErrPreconditionFailed)]
  ∧ errorStatuses (writes w') = [412]
  ∧ copyCalls (calls w') = [].
Proof.
  destruct (CopyObjectHandler_head Demo.h Demo.copyIfNoneMatch (World0 ∅))
    as [w1 f1] eqn:Hhead.
  vm_compute in Hhead. destruct f1 as [s| |]; try discriminate Hhead.
  destruct (CopyObjectHandler_plan Demo.h Demo.copyIfNoneMatch s w1)
    as [w2 f2] eqn:Hplan.
  injection Hhead as <- <-.
  vm_compute in Hplan. destruct f2 as [d| |]; try discriminate Hplan.
  injection Hplan as <- <-.
  eapply (C8_precondition_failed Demo.h Demo.copyIfNoneMatch ∅ _ _ _ _
            (APIError ErrPreconditionFailed)).
  - vm_compute. reflexivity.
  - vm_compute. reflexivity.
  - vm_compute. reflexivity.
Defined.

(** ** Copy source *)

Lemma filter_snoc_false {A} (f : A → bool) l x :
  f x = false → List.filter f (l ++ [x]) = List.filter f l.
Proof. intros Hx. rewrite List.filter_app. simpl. rewrite Hx. apply app_nil_r. Qed.

Ltac skip_logs :=
  unfold sourceRejections; simpl;
  repeat (rewrite filter_snoc_false by reflexivity); simpl.

Lemma plan_sourceRejections h r s w w2 f :
  CopyObjectHandler_plan h r s w = (w2, f) → sourceRejections w2 = sourceRejections w.
Proof.
  unfold CopyObjectHandler_plan. intros Hrun.
  unfold_H. repeat case_step; skip_logs; done.
Qed.

Lemma commit_sourceRejections h r s d w w3 f :
  CopyObjectHandler_commit h r s d w = (w3, f) → sourceRejections w3 = sourceRejections w.
Proof.
  unfold CopyObjectHandler_commit. intros Hrun.
  unfold_H. repeat case_step; skip_logs; done.
Qed.

Lemma head_sourceRejections h r w w1 f b o :
  path2BucketObject (snd (copySourceOf (lib h) r)) = inl (b, o) →
  CopyObjectHandler_head h r w = (w1, f) → sourceRejections w1 = sourceRejections w.
Proof.
  unfold CopyObjectHandler_head. intros Hpath Hrun.
  destruct (copySourceOf (lib h) r) as [versionID src]. simpl in Hpath.
  unfold_H. rewrite Hpath in Hrun. repeat case_step; skip_logs; done.
Qed.

Lemma head_headCalls h r w w1 f :
  CopyObjectHandler_head h r w = (w1, f) →
  headCalls (calls w1) = headCalls (calls w)
  ∨ ∃ bktInfo b o,
      path2BucketObject (snd (copySourceOf (lib h) r)) = inl (b, o)
      ∧ headCalls (calls w1)
        = headCalls (calls w)
          ++ [{| HeadObjectParams.BktInfo := bktInfo;
                 HeadObjectParams.Object := o;
                 HeadObjectParams.VersionID := fst (copySourceOf (lib h) r) |}].
Proof.
  unfold CopyObjectHandler_head. intros Hrun.
  destruct (copySourceOf (lib h) r) as [versionID src].
  unfold_H. repeat case_step; simpl; rewrite ?headCalls_app; simpl;
    try (by left); right; eauto.
Qed.

Lemma plan_headCalls h r s w w2 f :
  CopyObjectHandler_plan h r s w = (w2, f) → headCalls (calls w2) = headCalls (calls w).
Proof.
  unfold CopyObjectHandler_plan. intros Hrun.
  unfold_H. repeat case_step; simpl; rewrite ?headCalls_app, ?app_nil_r; done.
Qed.

Lemma commit_headCalls h r s d w w3 f :
  CopyObjectHandler_commit h r s d w = (w3, f) → headCalls (calls w3) = headCalls (calls w).
Proof.
  unfold CopyObjectHandler_commit. intros Hrun.
  unfold_H. repeat case_step; simpl; rewrite ?headCalls_app, ?app_nil_r; done.
Qed.

Lemma path2BucketObject_match path :
  path2BucketObject path
  = match copySourceMatch path with
    | Some (b, o) => inl (b, o)
    | None => inr (APIError ErrInvalidRequest)
    end.
Proof.
  unfold path2BucketObject, GetSubmatches.
  destruct (copySourceMatch path) as [[b o]|]; [|reflexivity].
  rewrite map_size_insert_None, map_size_insert_None, map_size_empty by done.
  simpl. by rewrite lookup_insert_eq, lookup_insert_ne, lookup_insert_eq.
Qed.

(** C10: when [url.Parse] fails on the copy source, the error is dropped:
    the version id stays empty and the header value itself goes to the
    regex.  If the regex does not match it, the handler only logs and
    sends InvalidRequest; if it matches, the handler does not reject the
    source, and any head of the source is made for the object the regex
    found, with an empty version id. *)
Theorem C10_unparsed_copy_source h r hp err :
  url_Parse (lib h) (Header_Get (rHeader r) api.AmzCopySource) = inr err →
  let raw := Header_Get (rHeader r) api.AmzCopySource in
  let w' := run (CopyObjectHandler h r) (World0 hp) in
  copySourceOf (lib h) r = ("", raw)
  ∧ (copySourceMatch raw = None →
     w' = add_write (WError (APIError ErrInvalidRequest))
            (add_log {| level := LError; message := "invalid source copy";
                        logged := Some (APIError ErrInvalidRequest) |} (World0 hp))
     ∧ errorStatuses (writes w') = [400])
  ∧ (∀ b o, copySourceMatch raw = Some (b, o) →
            path2BucketObject raw = inl (b, o)
            ∧ sourceRejections w' = []
            ∧ Forall (λ p, HeadObjectParams.VersionID p = ""
                           ∧ HeadObjectParams.Object p = o)
                (headCalls (calls w'))).
Proof.
  intros Hurl raw w'.
  assert (Hsrc : copySourceOf (lib h) r = ("", raw)).
  { unfold copySourceOf, raw. by rewrite Hurl. }
  split; [exact Hsrc|]. subst w'. split.
  - intros Hno. unfold run, CopyObjectHandler, CopyObjectHandler_head.
    rewrite Hsrc, path2BucketObject_match, Hno. split; reflexivity.
  - intros b o Hm.
    assert (Hpath : path2BucketObject (snd (copySourceOf (lib h) r)) = inl (b, o)).
    { rewrite Hsrc. simpl. by rewrite path2BucketObject_match, Hm. }
    split; [by rewrite Hsrc in Hpath|].
    unfold run, CopyObjectHandler, mbind, H_bind.
    destruct (CopyObjectHandler_head h r (World0 hp)) as [w1 f1] eqn:Hhead.
    pose proof (head_sourceRejections _ _ _ _ _ _ _ Hpath Hhead) as Hr1.
    assert (Hh1 : Forall (λ p, HeadObjectParams.VersionID p = ""
                               ∧ HeadObjectParams.Object p = o)
                    (headCalls (calls w1))).
    { destruct (head_headCalls _ _ _ _ _ Hhead)
        as [->|(bktInfo & b' & o' & Hpath' & ->)]; simpl; [constructor|].
      rewrite Hpath in Hpath'. injection Hpath' as <- <-.
      rewrite Hsrc. by repeat constructor. }
    destruct f1 as [s| |]; simpl; try done.
    destruct (CopyObjectHandler_plan h r s w1) as [w2 f2] eqn:Hplan.
    pose proof (plan_sourceRejections _ _ _ _ _ _ Hplan) as Hr2.
    pose proof (plan_headCalls _ _ _ _ _ _ Hplan) as Hh2.
    destruct f2 as [d| |]; simpl; rewrite ?Hr2, ?Hh2; try done.
    destruct (CopyObjectHandler_commit h r s d w2) as [w3 f3] eqn:Hcommit.
    pose proof (commit_sourceRejections _ _ _ _ _ _ _ Hcommit) as Hr3.
    pose proof (commit_headCalls _ _ _ _ _ _ _ Hcommit) as Hh3.
    simpl. rewrite Hr3, Hh3, Hr2, Hh2. done.
Qed.

Lemma C10_unparsed_copy_source_witness :
  let w' := run (CopyObjectHandler Demo.h Demo.copyBadEscape) (World0 ∅) in
  copySourceMatch "/src/key%zz" = Some ("src", "key%zz")
  ∧ sourceRejections w' = []
  ∧ length (headCalls (calls w')) = 1%nat
  ∧ Forall (λ p, HeadObjectParams.VersionID p = ""
                 ∧ HeadObjectParams.Object p = "key%zz")
      (headCalls (calls w')).
Proof.
  intros w'.
  destruct (C10_unparsed_copy_source Demo.h Demo.copyBadEscape ∅
              (Foreign "invalid URL escape") eq_refl) as (_ & _ & Hm).
  destruct (Hm "src" "key%zz" eq_refl) as (_ & Hr & Hh).
  split; [reflexivity|]. split; [exact Hr|]. split; [vm_compute; reflexivity|exact Hh].
Defined.

(** ** Notifications *)

Lemma notifyCalls_app cs cs' :
  notifyCalls (cs ++ cs') = notifyCalls cs ++ notifyCalls cs'.
Proof.
  induction cs as [|c cs IH]; simpl; [done|].
  destruct c; simpl; by rewrite ?IH.
Qed.

Lemma notify_rel_refl notify ctx w x :
  notifyCalls (calls (fst x)) = notifyCalls (calls w) → notify_rel notify ctx w x x.
Proof. unfold notify_rel. tauto. Qed.

Lemma head_notify h n r :
  CopyObjectHandler_head (with_sendNotifications h n) r = CopyObjectHandler_head h r.
Proof. reflexivity. Qed.

Lemma plan_notify h n r s :
  CopyObjectHandler_plan (with_sendNotifications h n) r s = CopyObjectHandler_plan h r s.
Proof. reflexivity. Qed.

Lemma head_notifyCalls h r w w1 f :
  CopyObjectHandler_head h r w = (w1, f) → notifyCalls (calls w1) = notifyCalls (calls w).
Proof.
  unfold CopyObjectHandler_head. intros Hrun.
  destruct (copySourceOf (lib h) r) as [versionID src].
  unfold_H. repeat case_step; simpl; rewrite ?notifyCalls_app, ?app_nil_r; done.
Qed.

Lemma plan_notifyCalls h r s w w2 f :
  CopyObjectHandler_plan h r s w = (w2, f) → notifyCalls (calls w2) = notifyCalls (calls w).
Proof.
  unfold CopyObjectHandler_plan. intros Hrun.
  unfold_H. repeat case_step; simpl; rewrite ?notifyCalls_app, ?app_nil_r; done.
Qed.

(** A step that sends no notification and is the same in both runs keeps
    the runs related. *)
Lemma bind_notify_rel {A} notify ctx (m : H A) (k1 k2 : A → H unit) w :
  (∀ w' f, m w = (w', f) → notifyCalls (calls w') = notifyCalls (calls w)) →
  (∀ a w', notify_rel notify ctx w' (k1 a w') (k2 a w')) →
  notify_rel notify ctx w ((m ≫= k1) w) ((m ≫= k2) w).
Proof.
  intros Hm Hk. unfold mbind, H_bind.
  destruct (m w) as [w' [a| |]] eqn:Hrun.
  - specialize (Hk a w'). specialize (Hm _ _ eq_refl).
    unfold notify_rel in *. rewrite <- Hm. exact Hk.
  - apply notify_rel_refl. simpl. eauto.
  - apply notify_rel_refl. simpl. eauto.
Qed.

Ltac quiet_step :=
  let Hm := fresh "Hm" in
  intros ? ? Hm; unfold_H; repeat case_step; simpl;
  rewrite ?notifyCalls_app, ?app_nil_r; done.

Lemma commit_notify h n r s d w :
  notify_rel n (rContext r) w
    (CopyObjectHandler_commit (with_sendNotifications h n) r s d w)
    (CopyObjectHandler_commit (with_sendNotifications h (λ _ _, None)) r s d w).
Proof.
  unfold CopyObjectHandler_commit.
  cbn [with_sendNotifications lib obj cfgCopiesNumber sendNotifications].
  repeat first
    [ apply bind_notify_rel; [solve [quiet_step]|intros]
    | match goal with a : (_ * _)%type |- _ => destruct a end ].
  unfold_H. unfold notify_rel.
  destruct (n _ _) eqn:Hn; destruct (sseEnabled _); simpl;
    rewrite ?notifyCalls_app; simpl;
    (repeat (split; [reflexivity|])); right; eexists;
    (split; [reflexivity|]); rewrite Hn, ?app_nil_r; reflexivity.
Qed.

(** C9: the response of a copy does not depend on whether the notification
    could be sent: against the run in which publishing succeeds, the run
    with any notifier writes the same response and response headers, makes
    the same calls and ends the same way.  If a notification was sent and
    publishing failed, the error is the one line the log has more; nothing
    else differs. *)
Theorem C9_notification_error_is_logged h notify r w :
  let sent := CopyObjectHandler (with_sendNotifications h (λ _ _, None)) r w in
  let tried := CopyObjectHandler (with_sendNotifications h notify) r w in
  writes (fst tried) = writes (fst sent)
  ∧ wHeader (fst tried) = wHeader (fst sent)
  ∧ calls (fst tried) = calls (fst sent)
  ∧ snd tried = snd sent
  ∧ ((notifyCalls (calls (fst tried)) = notifyCalls (calls w)
      ∧ logs (fst tried) = logs (fst sent))
     ∨ ∃ n, notifyCalls (calls (fst tried)) = notifyCalls (calls w) ++ [n]
            ∧ logs (fst tried)
              = logs (fst sent) ++ match notify (rContext r) n with
                                   | Some err => [notificationFailure err]
                                   | None => []
                                   end).
Proof.
  intros sent tried.
  assert (Hrel : notify_rel notify (rContext r) w tried sent).
  { subst sent tried. unfold CopyObjectHandler. rewrite !head_notify.
    apply bind_notify_rel; [intros w1 f; apply head_notifyCalls|].
    intros s w1. rewrite !plan_notify.
    apply bind_notify_rel; [intros w2 f; apply plan_notifyCalls|].
    intros d w2. apply commit_notify. }
  unfold notify_rel in Hrel. tauto.
Qed.

(** In the concrete gateway the broker is down: the copy still answers with
    its result, and the failure is the last line of the log. *)
Lemma notification_failure_example :
  let w' := run (CopyObjectHandler Demo.h (Demo.copyReplace None)) (World0 ∅) in
  writes w' = [WEncoded {| LastModified := "1970-01-01T00:00:01Z"; ETag := "abc" |}]
  ∧ last (logs w') = Some (notificationFailure (Foreign "broker is down")).
Proof. split; vm_compute; reflexivity. Qed.

(** * Further properties *)

(** ** The ACL parser *)

Lemma code_range c : 0 ≤ GoString.code c < 256.
Proof.
  unfold GoString.code. pose proof (N_ascii_bounded c) as Hb. lia.
Qed.

Lemma all_ascii_bool (f : ascii → bool) :
  forallb f (map ascii_of_nat (seq 0 256)) = true → ∀ c, f c = true.
Proof.
  intros Hall c. rewrite forallb_forall in Hall. apply Hall.
  apply in_map_iff. exists (nat_of_ascii c). split; [apply ascii_nat_embedding|].
  apply in_seq. pose proof (nat_ascii_bounded c). lia.
Qed.

Lemma digit_hex c d :
  Strconv.digit (GoString.code c) = Some d → d < 16 →
  is_hex_digit c = true ∧ d = hexDigitValue c.
Proof.
  intros Hd Hlt.
  pose proof (all_ascii_bool
    (λ c, match Strconv.digit (GoString.code c) with
          | Some d => if d <? 16 then is_hex_digit c && (d =? hexDigitValue c) else true
          | None => true
          end) ltac:(vm_compute; reflexivity) c) as Hc.
  simpl in Hc. rewrite Hd in Hc.
  destruct (Z.ltb_spec d 16); [|lia].
  apply andb_true_iff in Hc as [Hh He]. split; [done|]. by apply Z.eqb_eq.
Qed.

Lemma hex_digit c :
  is_hex_digit c = true →
  Strconv.digit (GoString.code c) = Some (hexDigitValue c) ∧ 0 ≤ hexDigitValue c < 16.
Proof.
  intros Hh.
  pose proof (all_ascii_bool
    (λ c, if is_hex_digit c
          then match Strconv.digit (GoString.code c) with
               | Some d => (d =? hexDigitValue c) && (0 <=? d) && (d <? 16)
               | None => false
               end
          else true) ltac:(vm_compute; reflexivity) c) as Hc.
  simpl in Hc. rewrite Hh in Hc.
  destruct (Strconv.digit (GoString.code c)) as [d|]; [|done].
  apply andb_true_iff in Hc as [[He H0]%andb_true_iff H16].
  apply Z.eqb_eq in He. subst d. split; [done|]. lia.
Qed.

Lemma hexValue_mono s n : is_hex s = true → 0 ≤ n → n ≤ hexValue s n.
Proof.
  revert n. induction s as [|c s IH]; intros n Hs Hn; simpl; [lia|].
  unfold is_hex in Hs. simpl in Hs. apply andb_true_iff in Hs as [Hc Hs].
  destruct (hex_digit c Hc) as [_ Hd].
  specialize (IH (n * 16 + hexDigitValue c) Hs). lia.
Qed.

Lemma hexValue_bound s n :
  is_hex s = true → 0 ≤ n → hexValue s n < (n + 1) * 16 ^ Z.of_nat (String.length s).
Proof.
  revert n. induction s as [|c s IH]; intros n Hs Hn.
  - simpl. lia.
  - unfold is_hex in Hs. simpl in Hs. apply andb_true_iff in Hs as [Hc Hs].
    destruct (hex_digit c Hc) as [_ Hd].
    specialize (IH (n * 16 + hexDigitValue c) Hs ltac:(lia)).
    change (String.length (String c s)) with (S (String.length s)).
    rewrite Nat2Z.inj_succ, Z.pow_succ_r by lia. simpl hexValue.
    assert (0 < 16 ^ Z.of_nat (String.length s)) by (apply Z.pow_pos_nonneg; lia).
    nia.
Qed.

(** [strconv.ParseUint] accepts exactly the digit strings whose value fits
    32 bits, and returns that value. *)
Lemma loop_hex s n :
  is_hex s = true → 0 ≤ n → hexValue s n ≤ Strconv.maxVal →
  Strconv.loop s n = (hexValue s n, None).
Proof.
  revert n. induction s as [|c s IH]; intros n Hs Hn Hv; simpl; [done|].
  unfold is_hex in Hs. simpl in Hs. apply andb_true_iff in Hs as [Hc Hs].
  destruct (hex_digit c Hc) as [-> Hd]. simpl in Hv.
  pose proof (hexValue_mono s (n * 16 + hexDigitValue c) Hs ltac:(lia)) as Hm.
  assert (Hmax : Strconv.maxVal = 4294967295) by reflexivity.
  assert (Hcut : Strconv.cutoff = 1152921504606846976) by reflexivity.
  destruct (Z.leb_spec 16 (hexDigitValue c)); [lia|].
  rewrite Hcut. destruct (Z.leb_spec 1152921504606846976 n); [lia|].
  unfold Strconv.u64.
  rewrite (Z.mod_small (n * 16)) by lia.
  rewrite (Z.mod_small (n * 16 + hexDigitValue c)) by lia.
  destruct (Z.ltb_spec (n * 16 + hexDigitValue c) (n * 16)); [lia|].
  rewrite Hmax. destruct (Z.ltb_spec 4294967295 (n * 16 + hexDigitValue c)); [lia|].
  simpl. apply IH; [done|lia|lia].
Qed.

Lemma loop_ok s n v :
  0 ≤ n ≤ Strconv.maxVal → Strconv.loop s n = (v, None) →
  is_hex s = true ∧ v = hexValue s n ∧ 0 ≤ v ≤ Strconv.maxVal.
Proof.
  revert n. induction s as [|c s IH]; intros n Hn Hl; simpl in Hl.
  - injection Hl as <-. done.
  - destruct (Strconv.digit (GoString.code c)) as [d|] eqn:Hd; [|done].
    destruct (Z.leb_spec 16 d); [done|].
    destruct (digit_hex c d Hd ltac:(lia)) as [Hc ->].
    destruct (hex_digit c Hc) as [_ Hr].
    assert (Hmax : Strconv.maxVal = 4294967295) by reflexivity.
    assert (Hcut : Strconv.cutoff = 1152921504606846976) by reflexivity.
    rewrite Hcut in Hl. destruct (Z.leb_spec 1152921504606846976 n); [done|].
    unfold Strconv.u64 in Hl.
    rewrite (Z.mod_small (n * 16)) in Hl by lia.
    rewrite (Z.mod_small (n * 16 + hexDigitValue c)) in Hl by lia.
    destruct (Z.ltb_spec (n * 16 + hexDigitValue c) (n * 16)); [done|].
    rewrite Hmax in Hl.
    destruct (Z.ltb_spec 4294967295 (n * 16 + hexDigitValue c)); [done|].
    simpl in Hl. apply IH in Hl as (Hs & -> & Hv); [|lia].
    unfold is_hex. simpl. fold (is_hex s). by rewrite Hc, Hs.
Qed.

Lemma ParseUint16_32_hex s :
  nonempty s = true → is_hex s = true → hexValue s 0 ≤ Strconv.maxVal →
  Strconv.ParseUint16_32 s = (hexValue s 0, None).
Proof.
  intros Hne Hs Hv. destruct s as [|c s]; [done|].
  by apply (loop_hex (String c s) 0).
Qed.

Lemma ParseUint16_32_ok s v :
  Strconv.ParseUint16_32 s = (v, None) →
  nonempty s = true ∧ is_hex s = true ∧ v = hexValue s 0 ∧ 0 ≤ v ≤ Strconv.maxVal.
Proof.
  intros Hp. destruct s as [|c s]; [done|].
  split; [done|]. by apply (loop_ok (String c s) 0).
Qed.

Lemma u32_small z : 0 ≤ z ≤ Strconv.maxVal → u32 z = z.
Proof.
  intros Hz. unfold u32. apply Z.mod_small.
  change Strconv.maxVal with 4294967295 in Hz. lia.
Qed.

Lemma parseHex_value U v :
  let n := GoString.Trim (GoString.ToLower U v) "0x" in
  parseHex U v
  = if nonempty n && is_hex n && (hexValue n 0 <=? 0xFFFFFFFF)
    then (hexValue n 0, None)
    else (0, Some (Errorf ("can't parse basic ACL: " +:+ n))).
Proof.
  intros n. unfold parseHex. fold n.
  destruct (nonempty n && is_hex n && (hexValue n 0 <=? 0xFFFFFFFF)) eqn:Hok.
  - apply andb_true_iff in Hok as [[Hne Hh]%andb_true_iff Hle].
    apply Z.leb_le in Hle.
    rewrite (ParseUint16_32_hex n Hne Hh Hle). f_equal.
    apply u32_small. pose proof (hexValue_mono n 0 Hh ltac:(lia)).
    change Strconv.maxVal with 4294967295. lia.
  - destruct (Strconv.ParseUint16_32 n) as [value [e|]] eqn:Hp; [done|].
    apply ParseUint16_32_ok in Hp as (Hne & Hh & -> & Hv).
    rewrite Hne, Hh in Hok. simpl in Hok.
    apply Z.leb_gt in Hok. change Strconv.maxVal with 4294967295 in Hv. lia.
Qed.

(** X1: for a value that is none of the canned tokens, the result is decided
    by the string [strings.ToLower] and the trimming leave: if it is a
    non-empty string of hex digits whose value fits 32 bits, that value is
    returned, without truncation and without error; otherwise the result
    is 0 and the error names that string.  This holds for every value,
    whatever [strings.ToLower] does outside ASCII. *)
Theorem X1_parseBasicACL_value acl U v :
  canned v = false →
  let n := GoString.Trim (GoString.ToLower U v) "0x" in
  parseBasicACL acl U v
  = if nonempty n && is_hex n && (hexValue n 0 <=? 0xFFFFFFFF)
    then (hexValue n 0, None)
    else (0, Some (Errorf ("can't parse basic ACL: " +:+ n))).
Proof.
  intros Hc n. rewrite (parseBasicACL_default acl U v Hc). apply parseHex_value.
Qed.

Lemma X1_parseBasicACL_value_witness :
  let U := Map_unicode_ToLower Demo.helpers in
  let upper := String (ascii_of_nat 195) (String (ascii_of_nat 137) "1") in
  let lower := String (ascii_of_nat 195) (String (ascii_of_nat 169) "1") in
  parseBasicACL Demo.acl U "0x1C8C8CCC" = (0x1C8C8CCC, None)
  ∧ parseBasicACL Demo.acl U "read-only"
    = (0, Some (Errorf "can't parse basic ACL: read-only"))
  ∧ parseBasicACL Demo.acl (λ _, lower) upper
    = (0, Some (Errorf ("can't parse basic ACL: " +:+ lower))).
Proof.
  intros U upper lower. split; [|split].
  - exact (X1_parseBasicACL_value Demo.acl U "0x1C8C8CCC" eq_refl).
  - exact (X1_parseBasicACL_value Demo.acl U "read-only" eq_refl).
  - exact (X1_parseBasicACL_value Demo.acl (λ _, lower) upper eq_refl).
Defined.

Lemma TrimLeft_first s cutset c :
  first_char s = Some c → GoString.mem c cutset = false →
  GoString.TrimLeft s cutset = s.
Proof.
  destruct s as [|d s]; [done|]. intros [= ->] Hc. simpl. by rewrite Hc.
Qed.

Lemma TrimRight_last s cutset c :
  last_char s = Some c → GoString.mem c cutset = false →
  GoString.TrimRight s cutset = s.
Proof.
  induction s as [|d s IH]; [done|]. intros Hl Hc.
  destruct s as [|e s].
  - injection Hl as ->. simpl. by rewrite Hc.
  - change (last_char (String d (String e s))) with (last_char (String e s)) in Hl.
    specialize (IH Hl Hc).
    change (GoString.TrimRight (String d (String e s)) cutset)
      with (match GoString.TrimRight (String e s) cutset with
            | EmptyString =>
                if GoString.mem d cutset then EmptyString else String d EmptyString
            | t => String d t
            end).
    by rewrite IH.
Qed.

Lemma lower_hex_digit c :
  is_hex_digit c = true →
  is_hex_digit (GoString.lower_char c) = true
  ∧ hexDigitValue (GoString.lower_char c) = hexDigitValue c
  ∧ GoString.mem (GoString.lower_char c) "0x" = Ascii.eqb c "0".
Proof.
  intros Hh.
  pose proof (all_ascii_bool
    (λ c, if is_hex_digit c
          then is_hex_digit (GoString.lower_char c)
               && (hexDigitValue (GoString.lower_char c) =? hexDigitValue c)
               && Bool.eqb (GoString.mem (GoString.lower_char c) "0x") (Ascii.eqb c "0")
          else true) ltac:(vm_compute; reflexivity) c) as Hc.
  simpl in Hc. rewrite Hh in Hc.
  apply andb_true_iff in Hc as [[H1 H2]%andb_true_iff H3].
  apply Z.eqb_eq in H2. apply Bool.eqb_prop in H3. done.
Qed.

Lemma ToLower_hex h :
  is_hex h = true →
  is_hex (GoString.lowerASCII h) = true
  ∧ (∀ n, hexValue (GoString.lowerASCII h) n = hexValue h n)
  ∧ String.length (GoString.lowerASCII h) = String.length h.
Proof.
  induction h as [|c h IH]; [done|].
  unfold is_hex. simpl. fold (is_hex h). fold (is_hex (GoString.lowerASCII h)).
  intros [Hc Hh]%andb_true_iff.
  destruct (lower_hex_digit c Hc) as (Hl & Hv & _).
  destruct (IH Hh) as (IH1 & IH2 & IH3).
  rewrite Hl, IH1, IH3. repeat split. intros n. by rewrite Hv, IH2.
Qed.

Lemma ToLower_first h c :
  first_char h = Some c → first_char (GoString.lowerASCII h) = Some (GoString.lower_char c).
Proof. destruct h; [done|]. by intros [= ->]. Qed.

Lemma ToLower_last h c :
  last_char h = Some c → last_char (GoString.lowerASCII h) = Some (GoString.lower_char c).
Proof.
  induction h as [|d h IH]; [done|].
  destruct h as [|e h]; [by intros [= ->]|].
  intros Hl. exact (IH Hl).
Qed.

Lemma is_hex_last h c : is_hex h = true → last_char h = Some c → is_hex_digit c = true.
Proof.
  induction h as [|d h IH]; [done|].
  unfold is_hex. simpl. fold (is_hex h). intros [Hd Hh]%andb_true_iff.
  destruct h as [|e h]; [by intros [= <-]|]. intros Hl. exact (IH Hh Hl).
Qed.

(** X2: a mask written as one to eight hex digits that neither begins nor
    ends with the digit 0 is parsed to the number it denotes, with or
    without the prefix [0x]. *)
Theorem X2_parseBasicACL_mask acl U h a z :
  is_hex h = true →
  (String.length h ≤ 8)%nat →
  first_char h = Some a → a ≠ "0"%char →
  last_char h = Some z → z ≠ "0"%char →
  parseBasicACL acl U h = (hexValue h 0, None)
  ∧ parseBasicACL acl U ("0x" +:+ h) = (hexValue h 0, None)
  ∧ 0 ≤ hexValue h 0 < 2 ^ 32.
Proof.
  intros Hh Hlen Ha Ha0 Hz Hz0.
  destruct (ToLower_hex h Hh) as (Hlh & Hlv & Hll).
  assert (Hha : is_hex_digit a = true).
  { destruct h as [|c h]; [done|]. injection Ha as ->.
    unfold is_hex in Hh. simpl in Hh. by apply andb_true_iff in Hh as [? _]. }
  pose proof (is_hex_last h z Hh Hz) as Hhz.
  destruct (lower_hex_digit a Hha) as (_ & _ & Hma).
  destruct (lower_hex_digit z Hhz) as (_ & _ & Hmz).
  assert (Htrim : GoString.Trim (GoString.lowerASCII h) "0x" = GoString.lowerASCII h).
  { unfold GoString.Trim.
    rewrite (TrimLeft_first _ _ _ (ToLower_first h a Ha)).
    - apply (TrimRight_last _ _ _ (ToLower_last h z Hz)).
      rewrite Hmz. by apply Ascii.eqb_neq.
    - rewrite Hma. by apply Ascii.eqb_neq. }
  assert (Hbound : 0 ≤ hexValue h 0 < 2 ^ 32).
  { pose proof (hexValue_mono h 0 Hh ltac:(lia)).
    pose proof (hexValue_bound h 0 Hh ltac:(lia)) as Hb.
    assert (16 ^ Z.of_nat (String.length h) ≤ 16 ^ 8)
      by (apply Z.pow_le_mono_r; lia).
    change (2 ^ 32) with (16 ^ 8). lia. }
  assert (Hres : parseHex U h = (hexValue h 0, None)).
  { rewrite parseHex_value. rewrite (ToLower_ASCII U h (isASCII_hex h Hh)).
    rewrite Htrim, Hlh, Hlv.
    assert (Hne : nonempty (GoString.lowerASCII h) = true)
      by (destruct h; [done|reflexivity]).
    rewrite Hne. simpl.
    destruct (Z.leb_spec (hexValue h 0) 4294967295) as [_|Hgt]; [done|].
    change (2 ^ 32) with 4294967296 in Hbound. lia. }
  split; [|split; [|exact Hbound]].
  - by rewrite (parseBasicACL_default acl U h (canned_hex h Hh)).
  - destruct (parseBasicACL_spellings acl U h Hh) as [-> _].
    by rewrite (parseBasicACL_default acl U h (canned_hex h Hh)).
Qed.

Lemma X2_parseBasicACL_mask_witness :
  let U := Map_unicode_ToLower Demo.helpers in
  parseBasicACL Demo.acl U "1C8C8CCC" = (0x1C8C8CCC, None)
  ∧ parseBasicACL Demo.acl U "0x1C8C8CCC" = (0x1C8C8CCC, None).
Proof.
  intros U.
  destruct (X2_parseBasicACL_mask Demo.acl U "1C8C8CCC" "1" "C"
              eq_refl ltac:(simpl; lia) eq_refl ltac:(discriminate)
              eq_refl ltac:(discriminate)) as (H1 & H2 & _).
  split; [exact H1|exact H2].
Defined.

(** X3: the prefix [0x] and the case of the letters do not matter: for a
    string of hex digits the three spellings give the same value or the
    same error. *)
Theorem X3_parseBasicACL_spellings acl U h :
  is_hex h = true →
  parseBasicACL acl U ("0x" +:+ h) = parseBasicACL acl U h
  ∧ parseBasicACL acl U (GoString.ToUpper h) = parseBasicACL acl U h
  ∧ parseBasicACL acl U (GoString.lowerASCII h) = parseBasicACL acl U h.
Proof.
  intros Hh. destruct (parseBasicACL_spellings acl U h Hh) as [H0x Hup].
  split; [exact H0x|]. split; [exact Hup|].
  destruct (ToLower_hex h Hh) as (Hlh & _).
  rewrite (parseBasicACL_default acl U h (canned_hex h Hh)).
  rewrite (parseBasicACL_default acl U _ (canned_hex _ Hlh)).
  unfold parseHex.
  rewrite (ToLower_ASCII U h (isASCII_hex h Hh)).
  rewrite (ToLower_ASCII U _ (isASCII_hex _ Hlh)).
  assert (Hidem : GoString.lowerASCII (GoString.lowerASCII h) = GoString.lowerASCII h).
  { clear. induction h as [|c h IH]; simpl; [done|].
    rewrite IH. f_equal.
    revert c. apply all_ascii.
    intros [] [] [] [] [] [] [] []; vm_compute; reflexivity. }
  by rewrite Hidem.
Qed.

Lemma X3_parseBasicACL_spellings_witness :
  let U := Map_unicode_ToLower Demo.helpers in
  parseBasicACL Demo.acl U "0x0fbfbfff" = parseBasicACL Demo.acl U "0fbfbfff"
  ∧ parseBasicACL Demo.acl U "0FBFBFFF" = parseBasicACL Demo.acl U "0fbfbfff".
Proof.
  intros U.
  destruct (X3_parseBasicACL_spellings Demo.acl U "0fbfbfff" eq_refl) as (H1 & H2 & _).
  split; [exact H1|exact H2].
Defined.

Lemma ToLower_app s t :
  GoString.lowerASCII (s +:+ t) = GoString.lowerASCII s +:+ GoString.lowerASCII t.
Proof.
  induction s as [|c s IH]; [done|].
  change (String c s +:+ t) with (String c (s +:+ t)).
  simpl. rewrite IH. reflexivity.
Qed.

Lemma TrimRight_snoc s cutset c :
  GoString.mem c cutset = true →
  GoString.TrimRight (s +:+ String c EmptyString) cutset = GoString.TrimRight s cutset.
Proof.
  intros Hc. induction s as [|d s IH].
  - simpl. by rewrite Hc.
  - change (String d s +:+ String c EmptyString)
      with (String d (s +:+ String c EmptyString)).
    simpl. by rewrite IH.
Qed.

Lemma TrimLeft_snoc s cutset c :
  GoString.mem c cutset = true →
  GoString.TrimLeft (s +:+ String c EmptyString) cutset
  = match GoString.TrimLeft s cutset with
    | EmptyString => EmptyString
    | t => t +:+ String c EmptyString
    end.
Proof.
  intros Hc. induction s as [|d s IH].
  - simpl. by rewrite Hc.
  - change (String d s +:+ String c EmptyString)
      with (String d (s +:+ String c EmptyString)).
    simpl. destruct (GoString.mem d cutset); [exact IH|reflexivity].
Qed.

Lemma Trim_snoc s cutset c :
  GoString.mem c cutset = true →
  GoString.Trim (s +:+ String c EmptyString) cutset = GoString.Trim s cutset.
Proof.
  intros Hc. unfold GoString.Trim. rewrite (TrimLeft_snoc s cutset c Hc).
  destruct (GoString.TrimLeft s cutset) as [|d t]; [done|].
  apply (TrimRight_snoc (String d t) cutset c Hc).
Qed.

Lemma last_char_snoc s c : last_char (s +:+ String c EmptyString) = Some c.
Proof.
  induction s as [|d s IH]; [done|].
  change (String d s +:+ String c EmptyString)
    with (String d (s +:+ String c EmptyString)).
  destruct s as [|e s]; [done|]. exact IH.
Qed.

Lemma canned_snoc_0 v : canned (v +:+ "0") = false.
Proof.
  unfold canned.
  assert (Hne : ∀ t, last_char t ≠ Some "0"%char → String.eqb (v +:+ "0") t = false).
  { intros t Ht. apply String.eqb_neq. intros <-. by rewrite last_char_snoc in Ht. }
  rewrite !Hne; done.
Qed.

Lemma isASCII_app s t :
  GoString.isASCII (s +:+ t) = GoString.isASCII s && GoString.isASCII t.
Proof.
  induction s as [|c s IH]; [done|].
  change (String c s +:+ t) with (String c (s +:+ t)).
  simpl. by rewrite IH, andb_assoc.
Qed.

(** X4: zeros at either end of the value are dropped before it is parsed:
    an ASCII value that is not a canned token gives the same result with
    one more [0] in front or at the end. *)
Theorem X4_parseBasicACL_zero_ends acl U v :
  GoString.isASCII v = true →
  canned v = false →
  parseBasicACL acl U ("0" +:+ v) = parseBasicACL acl U v
  ∧ parseBasicACL acl U (v +:+ "0") = parseBasicACL acl U v.
Proof.
  intros Hv Hc. rewrite (parseBasicACL_default acl U v Hc). split.
  - rewrite (parseBasicACL_default acl U ("0" +:+ v) eq_refl).
    unfold parseHex.
    by rewrite (ToLower_ASCII U ("0" +:+ v) Hv), (ToLower_ASCII U v Hv).
  - rewrite (parseBasicACL_default acl U _ (canned_snoc_0 v)).
    unfold parseHex.
    rewrite (ToLower_ASCII U (v +:+ "0")) by (by rewrite isASCII_app, Hv).
    rewrite (ToLower_ASCII U v Hv), ToLower_app.
    change (GoString.lowerASCII "0") with "0".
    by rewrite (Trim_snoc _ "0x" "0" eq_refl).
Qed.

Lemma X4_parseBasicACL_zero_ends_witness :
  let U := Map_unicode_ToLower Demo.helpers in
  parseBasicACL Demo.acl U "01f" = parseBasicACL Demo.acl U "1f"
  ∧ parseBasicACL Demo.acl U "1f0" = parseBasicACL Demo.acl U "1f".
Proof.
  intros U. exact (X4_parseBasicACL_zero_ends Demo.acl U "1f" eq_refl eq_refl).
Defined.

(** ** The copy source *)

Lemma cut_slash_app b o :
  string_forallb is_bucket_char b = true →
  cut_slash (b +:+ String "/" o) = Some (b, o).
Proof.
  induction b as [|c b IH]; [done|]. simpl. intros [Hc Hb]%andb_true_iff.
  change (String c b +:+ String "/" o) with (String c (b +:+ String "/" o)).
  simpl. destruct (Ascii.eqb_spec c "/") as [->|_]; [done|].
  by rewrite (IH Hb).
Qed.

Lemma cut_slash_split s b o : cut_slash s = Some (b, o) → s = b +:+ String "/" o.
Proof.
  revert b. induction s as [|c s IH]; intros b; [done|]. simpl.
  destruct (Ascii.eqb_spec c "/") as [->|_].
  - by intros [= <- <-].
  - destruct (cut_slash s) as [[b' o']|]; [|done].
    intros [= <- <-]. by rewrite (IH b' eq_refl).
Qed.

Lemma copySourceMatch_sound path b o :
  copySourceMatch path = Some (b, o) →
  (3 ≤ String.length b ≤ 63)%nat
  ∧ string_forallb is_bucket_char b = true
  ∧ (1 ≤ String.length o)%nat
  ∧ string_forallb (λ c, negb (is_newline c)) o = true
  ∧ (path = b +:+ String "/" o ∨ path = String "/" (b +:+ String "/" o)).
Proof.
  unfold copySourceMatch. intros Hm.
  set (s := match path with
            | EmptyString => path
            | String c s' => if Ascii.eqb c "/" then s' else path
            end) in Hm.
  destruct (cut_slash s) as [[b' o']|] eqn:Hcut; [|done].
  destruct (_ && _) eqn:Hok in Hm; [|done]. injection Hm as -> ->.
  repeat (apply andb_true_iff in Hok as [Hok ?]).
  apply cut_slash_split in Hcut.
  repeat split; try (by apply Nat.leb_le); try done.
  subst s. destruct path as [|c p]; [by left|].
  destruct (Ascii.eqb_spec c "/") as [->|_]; [right|left]; by rewrite Hcut.
Qed.

Lemma copySourceMatch_complete b o :
  (3 ≤ String.length b ≤ 63)%nat →
  string_forallb is_bucket_char b = true →
  (1 ≤ String.length o)%nat →
  string_forallb (λ c, negb (is_newline c)) o = true →
  copySourceMatch (b +:+ String "/" o) = Some (b, o)
  ∧ copySourceMatch (String "/" (b +:+ String "/" o)) = Some (b, o).
Proof.
  intros Hlen Hb Ho Hnl.
  assert (Hok : (3 <=? String.length b)%nat && (String.length b <=? 63)%nat
                && string_forallb is_bucket_char b && (1 <=? String.length o)%nat
                && string_forallb (λ c, negb (is_newline c)) o = true).
  { rewrite Hb, Hnl. destruct Hlen as [H3 H63].
    apply Nat.leb_le in H3, H63, Ho. by rewrite H3, H63, Ho. }
  split.
  - unfold copySourceMatch. destruct b as [|c b]; [simpl in Hlen; lia|].
    change (String c b +:+ String "/" o) with (String c (b +:+ String "/" o)).
    assert (Hc : Ascii.eqb c "/" = false).
    { simpl in Hb. apply andb_true_iff in Hb as [Hc _].
      destruct (Ascii.eqb_spec c "/") as [->|]; done. }
    cbv beta iota zeta. rewrite Hc.
    change (String c (b +:+ String "/" o)) with (String c b +:+ String "/" o).
    by rewrite (cut_slash_app _ o Hb), Hok.
  - unfold copySourceMatch. cbv beta iota zeta. rewrite Ascii.eqb_refl.
    by rewrite (cut_slash_app _ o Hb), Hok.
Qed.

(** X5: [path2BucketObject] splits [bucket/object] and [/bucket/object]: it
    returns a bucket of 3 to 63 characters from [a-z0-9.-] and a non-empty
    object such that the path is again bucket, slash, object, after at most
    one leading slash; every such bucket and object without a newline is
    found again from its path; any other path gives InvalidRequest. *)
Theorem X5_path2BucketObject_splits :
  (∀ path b o,
     path2BucketObject path = inl (b, o) →
     (3 ≤ String.length b ≤ 63)%nat
     ∧ string_forallb is_bucket_char b = true
     ∧ (1 ≤ String.length o)%nat
     ∧ (path = b +:+ String "/" o ∨ path = String "/" (b +:+ String "/" o)))
  ∧ (∀ b o,
       (3 ≤ String.length b ≤ 63)%nat →
       string_forallb is_bucket_char b = true →
       (1 ≤ String.length o)%nat →
       string_forallb (λ c, negb (is_newline c)) o = true →
       path2BucketObject (b +:+ String "/" o) = inl (b, o)
       ∧ path2BucketObject (String "/" (b +:+ String "/" o)) = inl (b, o))
  ∧ (∀ path err, path2BucketObject path = inr err → err = APIError ErrInvalidRequest).
Proof.
  split; [|split].
  - intros path b o. rewrite path2BucketObject_match.
    destruct (copySourceMatch path) as [[b' o']|] eqn:Hm; [|done].
    intros [= <- <-]. apply copySourceMatch_sound in Hm. tauto.
  - intros b o Hlen Hb Ho Hnl.
    destruct (copySourceMatch_complete b o Hlen Hb Ho Hnl) as [H1 H2].
    by rewrite !path2BucketObject_match, H1, H2.
  - intros path err. rewrite path2BucketObject_match.
    destruct (copySourceMatch path) as [[b o]|]; [done|]. by intros [= <-].
Qed.

Lemma X5_path2BucketObject_splits_witness :
  path2BucketObject "/my.bucket-1/dir/key" = inl ("my.bucket-1", "dir/key")
  ∧ path2BucketObject "my.bucket-1/dir/key" = inl ("my.bucket-1", "dir/key").
Proof.
  destruct X5_path2BucketObject_splits as (_ & Hfound & _).
  destruct (Hfound "my.bucket-1" "dir/key" ltac:(simpl; lia) eq_refl
              ltac:(simpl; lia) eq_refl) as [H1 H2].
  split; [exact H2|exact H1].
Defined.

(** ** Copy arguments, access boxes and bucket creation *)

Lemma isValidDirective_spec d :
  isValidDirective d = true ↔ d = "" ∨ d = "REPLACE" ∨ d = "COPY".
Proof.
  unfold isValidDirective, replaceDirective, copyDirective. split.
  - intros H. apply orb_true_iff in H as [ H | H ];
      [ apply orb_true_iff in H as [ H | H ] | ].
    + left. destruct d; [done|discriminate H].
    + right. left. by apply String.eqb_eq.
    + right. right. by apply String.eqb_eq.
  - intros [ -> | [ -> | -> ] ]; reflexivity.
Qed.

(** X6: [parseCopyObjectArgs] returns arguments exactly when both dates
    parse and both directives are empty, COPY or REPLACE, and the arguments
    then carry the four conditional values and the two directives as sent;
    otherwise its error is that of the first check that fails, in the order
    if-modified-since, if-unmodified-since, metadata directive, tagging
    directive. *)
Theorem X6_parseCopyObjectArgs_result lb hd :
  let modified := parseHTTPTime lb (Header_Get hd api.AmzCopyIfModifiedSince) in
  let unmodified := parseHTTPTime lb (Header_Get hd api.AmzCopyIfUnmodifiedSince) in
  let md := Header_Get hd api.AmzMetadataDirective in
  let td := Header_Get hd api.AmzTaggingDirective in
  let allowed d := d = "" ∨ d = "REPLACE" ∨ d = "COPY" in
  let parsed (x : option Z + error) := ∃ t, x = inl t in
  match parseCopyObjectArgs lb hd with
  | inl a =>
      allowed md ∧ allowed td
      ∧ modified = inl (IfModifiedSince (Conditional a))
      ∧ unmodified = inl (IfUnmodifiedSince (Conditional a))
      ∧ IfMatch (Conditional a) = Header_Get hd api.AmzCopyIfMatch
      ∧ IfNoneMatch (Conditional a) = Header_Get hd api.AmzCopyIfNoneMatch
      ∧ MetadataDirective a = md ∧ TaggingDirective a = td
  | inr err =>
      modified = inr err
      ∨ (parsed modified ∧ unmodified = inr err)
      ∨ (parsed modified ∧ parsed unmodified ∧ ¬ allowed md
         ∧ err = APIError ErrInvalidMetadataDirective)
      ∨ (parsed modified ∧ parsed unmodified ∧ allowed md ∧ ¬ allowed td
         ∧ err = APIError ErrInvalidTaggingDirective)
  end.
Proof.
  intros modified unmodified md td allowed parsed.
  unfold parseCopyObjectArgs. fold modified unmodified md td.
  destruct modified as [t1|e1]; [|by left].
  assert (parsed (inl t1)) by (by exists t1).
  destruct unmodified as [t2|e2]; [|right; left; by split].
  assert (parsed (inl t2)) by (by exists t2).
  destruct (isValidDirective md) eqn:Hmd; simpl.
  - destruct (isValidDirective td) eqn:Htd; simpl.
    + apply isValidDirective_spec in Hmd, Htd. by repeat split.
    + right. right. right. apply isValidDirective_spec in Hmd.
      repeat split; try done. intros Ha%isValidDirective_spec. congruence.
  - right. right. left.
    repeat split; try done. intros Ha%isValidDirective_spec. congruence.
Qed.

(** X7: when the context holds a pointer to a box, [getBoxData] returns
    that pointer without error; afterwards the box has a gate, and a second
    call returns the same pointer and changes nothing. *)
Theorem X7_getBoxData_found ctx w l b :
  Value ctx BoxData = Some (VBox (Some l)) →
  heap w !! l = Some b →
  let w' := fst (getBoxData ctx w) in
  snd (getBoxData ctx w) = Next (Some l, None)
  ∧ (∃ b' g, heap w' !! l = Some b' ∧ Gate b' = Some g ∧ Policies b' = Policies b)
  ∧ getBoxData ctx w' = (w', Next (Some l, None))
  ∧ calls w' = calls w ∧ logs w' = logs w ∧ writes w' = writes w.
Proof.
  intros Hctx Hb w'. subst w'. unfold getBoxData. rewrite Hctx, Hb.
  destruct (Gate b) as [g|] eqn:Hg; simpl.
  - rewrite Hb, Hg. split; [done|]. split; [by exists b, g|]. done.
  - rewrite lookup_insert_eq. simpl. split; [done|].
    split; [by eexists _, emptyGateData|]. done.
Qed.

Lemma X7_getBoxData_found_witness :
  let w := World0 Demo.store in
  let w' := fst (getBoxData Demo.ctxBox w) in
  snd (getBoxData Demo.ctxBox w) = Next (Some 1%positive, None)
  ∧ getBoxData Demo.ctxBox w' = (w', Next (Some 1%positive, None)).
Proof.
  intros w w'.
  destruct (X7_getBoxData_found Demo.ctxBox w 1%positive Demo.box eq_refl eq_refl)
    as (H1 & _ & H2 & _).
  split; [exact H1|exact H2].
Defined.

Lemma getBoxData_missing ctx w :
  (∀ l, Value ctx BoxData ≠ Some (VBox (Some l))) →
  getBoxData ctx w
  = (w, Next (None, Some (Errorf "couldn't get box data from context"))).
Proof.
  intros Hno. unfold getBoxData.
  destruct (Value ctx BoxData) as [[[l|]|s]|] eqn:Hv; try done.
  by destruct (Hno l).
Qed.

Lemma run_AttachUserAuth_ok center inner r w box :
  Authenticate center r = (box, None) →
  AttachUserAuth center inner r w
  = inner (WithContext r (WithValue (rContext r) BoxData (VBox box))) w.
Proof. unfold AttachUserAuth. by intros ->. Qed.

Lemma run_AttachUserAuth_anonymous center inner r w box :
  Authenticate center r = (box, Some ErrNoAuthorizationHeader) →
  AttachUserAuth center inner r w
  = inner (WithContext r (rContext r))
      (add_log {| level := LDebug;
                  message := "couldn't receive bearer token, using neofs-key";
                  logged := None |} w).
Proof. unfold AttachUserAuth. intros ->. unfold_H. by rewrite decide_True. Qed.

(** X9: behind the auth middleware, a request that authenticates with a box
    creates its bucket with that box, whatever the incoming context held
    under [BoxData]: without an ACL header, when the body and the default
    policy parse, CreateBucket is called once, for the authenticated box,
    with the public rule and the policy chosen from that box. *)
Theorem X9_authenticated_create center h r hp l b cp dflt :
  Authenticate center r = (Some l, None) →
  hp !! l = Some b →
  rHeader r !! "X-Amz-Acl" = None →
  parseLocationConstraint (lib h) r = inl cp →
  policy_Parse (lib h) defaultPolicy = inl dflt →
  ∃ p, createCalls (calls (run (AttachUserAuth center (CreateBucketHandler h) r)
                             (World0 hp))) = [(p, l)]
       ∧ CreateBucketParams.ACL p = publicBasicRule
       ∧ CreateBucketParams.Name p = Var r "bucket"
       ∧ CreateBucketParams.Policy p = adoptedPolicy b (cbLocationConstraint cp) dflt.
Proof.
  intros Hauth Hb Hacl Hcp Hdflt. unfold run.
  rewrite (run_AttachUserAuth_ok _ _ _ _ _ Hauth).
  set (r' := WithContext r (WithValue (rContext r) BoxData (VBox (Some l)))).
  assert (Hctx : Value (rContext r') BoxData = Some (VBox (Some l))) by reflexivity.
  pose proof (CreateBucketHandler_reaches h r' hp l b cp dflt Hacl Hctx Hb Hcp Hdflt)
    as Hreach.
  destruct (CreateBucketHandler_calls h r' hp)
    as [Hnone|(p & l' & b' & cp' & Hone & Hctx' & Hb' & Hcp' & Hname & Hp & Hpol)];
    [done|].
  change (CreateBucketHandler h r' (World0 hp)).1
    with (run (CreateBucketHandler h r') (World0 hp)).
  rewrite Hctx in Hctx'. injection Hctx' as <-.
  rewrite Hb in Hb'. injection Hb' as <-.
  change (parseLocationConstraint (lib h) r') with (parseLocationConstraint (lib h) r) in Hcp'.
  rewrite Hcp in Hcp'. injection Hcp' as <-.
  change (rHeader r') with (rHeader r) in Hp. rewrite Hacl in Hp.
  exists p. rewrite Hone. repeat split; try done.
  unfold adoptedPolicy.
  destruct (String.eqb (cbLocationConstraint cp) "").
  - rewrite Hdflt in Hpol. by injection Hpol as <-.
  - rewrite scanPolicies_firstMatch in Hpol.
    destruct (firstMatch (Policies b) (cbLocationConstraint cp)) as [entry|]; simpl in Hpol.
    + destruct (Policy entry); [done|].
      rewrite Hdflt in Hpol. by injection Hpol as <-.
    + rewrite Hdflt in Hpol. by injection Hpol as <-.
Qed.

Lemma X9_authenticated_create_witness :
  ∃ p, createCalls (calls (run (AttachUserAuth (Demo.center (Some 1%positive, None))
                                  (CreateBucketHandler Demo.h)
                                  (WithContext Demo.createEU []))
                             (World0 Demo.store))) = [(p, 1%positive)]
       ∧ CreateBucketParams.ACL p = publicBasicRule
       ∧ CreateBucketParams.Name p = "dst"
       ∧ CreateBucketParams.Policy p = Some Demo.policyEU.
Proof.
  exact (X9_authenticated_create (Demo.center (Some 1%positive, None)) Demo.h
           (WithContext Demo.createEU []) Demo.store 1%positive Demo.box
           {| cbLocationConstraint := "eu" |} (Some {| policyText := "REP 3" |})
           eq_refl eq_refl eq_refl eq_refl eq_refl).
Defined.

(** Without an ACL header and with a body that parses, a context without
    a box ends the request with the box error, before anything else is
    done. *)
Lemma CreateBucketHandler_no_box h r w cp :
  (∀ l, Value (rContext r) BoxData ≠ Some (VBox (Some l))) →
  rHeader r !! "X-Amz-Acl" = None →
  parseLocationConstraint (lib h) r = inl cp →
  CreateBucketHandler h r w
  = (add_write (WError (Errorf "couldn't get box data from context"))
       (add_log {| level := LError; message := "could get boxData";
                   logged := Some (Errorf "couldn't get box data from context") |} w),
     Returned).
Proof.
  intros Hno Hacl Hcp. unfold CreateBucketHandler. unfold_H.
  by rewrite Hacl, Hcp, (getBoxData_missing (rContext r) w Hno).
Qed.

(** X10: behind the auth middleware, a CreateBucket request without an
    Authorization header, whose context carries no box, is not served: the
    answer is the internal error "couldn't get box data from context" with
    status 500, and the object layer is not called. *)
Theorem X10_anonymous_create center h r hp box cp :
  Authenticate center r = (box, Some ErrNoAuthorizationHeader) →
  (∀ l, Value (rContext r) BoxData ≠ Some (VBox (Some l))) →
  rHeader r !! "X-Amz-Acl" = None →
  parseLocationConstraint (lib h) r = inl cp →
  let w' := run (AttachUserAuth center (CreateBucketHandler h) r) (World0 hp) in
  writes w' = [WError (Errorf "couldn't get box data from context")]
  ∧ errorStatuses (writes w') = [500]
  ∧ calls w' = []
  ∧ heap w' = hp.
Proof.
  intros Hauth Hno Hacl Hcp w'. subst w'. unfold run.
  rewrite (run_AttachUserAuth_anonymous _ _ _ _ _ Hauth).
  by rewrite (CreateBucketHandler_no_box h (WithContext r (rContext r)) _ cp Hno Hacl Hcp).
Qed.

Lemma X10_anonymous_create_witness :
  let w' := run (AttachUserAuth (Demo.center (None, Some ErrNoAuthorizationHeader))
                   (CreateBucketHandler Demo.h) (WithContext Demo.createEU []))
              (World0 Demo.store) in
  writes w' = [WError (Errorf "couldn't get box data from context")]
  ∧ errorStatuses (writes w') = [500]
  ∧ calls w' = []
  ∧ heap w' = Demo.store.
Proof.
  apply (X10_anonymous_create (Demo.center (None, Some ErrNoAuthorizationHeader))
           Demo.h (WithContext Demo.createEU []) Demo.store None
           {| cbLocationConstraint := "eu" |}); try reflexivity.
  intros l. discriminate.
Defined.

(** X11: an [x-amz-acl] value that does not parse ends the request at once:
    the error of [parseBasicACL], which names what [strings.ToLower] and
    the trimming leave of the value, is logged and sent; the body is not
    read, the box is not touched and the object layer is not called. *)
Theorem X11_create_bad_acl h r w v vs e :
  rHeader r !! "X-Amz-Acl" = Some (v :: vs) →
  snd (parseBasicACL (aclRules h) (Map_unicode_ToLower (lib h)) v) = Some e →
  e = Errorf ("can't parse basic ACL: "
              +:+ GoString.Trim (GoString.ToLower (Map_unicode_ToLower (lib h)) v) "0x")
  ∧ CreateBucketHandler h r w
    = (add_write (WError e)
         (add_log {| level := LError; message := "could not parse basic ACL";
                     logged := Some e |} w),
       Returned).
Proof.
  intros Hacl He. split; [by apply (parseBasicACL_error (aclRules h))|].
  unfold CreateBucketHandler. unfold_H. rewrite Hacl.
  destruct (parseBasicACL (aclRules h) (Map_unicode_ToLower (lib h)) v) as [z err].
  simpl in He. by subst err.
Qed.

Lemma X11_create_bad_acl_witness :
  let r := Demo.request {[ "X-Amz-Acl" := ["authenticated-read"] ]} "" Demo.ctxBox in
  run (CreateBucketHandler Demo.h r) (World0 Demo.store)
  = add_write (WError (Errorf "can't parse basic ACL: authenticated-read"))
      (add_log {| level := LError; message := "could not parse basic ACL";
                  logged := Some (Errorf "can't parse basic ACL: authenticated-read") |}
         (World0 Demo.store)).
Proof.
  intros r. unfold run.
  destruct (X11_create_bad_acl Demo.h r (World0 Demo.store) "authenticated-read" []
              (Errorf "can't parse basic ACL: authenticated-read") eq_refl eq_refl)
    as [_ ->].
  reflexivity.
Defined.

(** X12: [CreateBucketHandler] answers every request once: when it runs to
    its end it has created the bucket and written the success headers; when
    it returns early it has written one error, the one it logged last; it
    writes nothing only when it panics, which takes an [x-amz-acl] header
    without a value or a dangling box pointer. *)
Theorem X12_create_one_response h r hp :
  let res := CreateBucketHandler h r (World0 hp) in
  match snd res with
  | Next _ =>
      writes (fst res) = [WSuccessHeadersOnly]
      ∧ length (createCalls (calls (fst res))) = 1%nat
  | Returned =>
      ∃ e, writes (fst res) = [WError e]
           ∧ logged <$> last (logs (fst res)) = Some (Some e)
  | Panicked =>
      writes (fst res) = [] ∧ calls (fst res) = []
      ∧ (rHeader r !! "X-Amz-Acl" = Some []
         ∨ ∃ l, Value (rContext r) BoxData = Some (VBox (Some l)) ∧ hp !! l = None)
  end.
Proof.
  intros res. subst res.
  destruct (CreateBucketHandler h r (World0 hp)) as [w' f] eqn:Hrun.
  unfold CreateBucketHandler, getBoxData in Hrun. unfold_H.
  repeat case_step; simpl in *; rewrite ?lookup_insert_eq in *; simplify_eq;
    eauto 6.
Qed.

(** X13: a request whose Content-Length is 0 has no location constraint,
    whatever its body holds: every CreateBucket call then carries the
    parsed default policy, also when the box has a policy for the
    constraint the body names. *)
Theorem X13_create_empty_length h r hp dflt :
  rContentLength r = 0 →
  policy_Parse (lib h) defaultPolicy = inl dflt →
  parseLocationConstraint (lib h) r = inl {| cbLocationConstraint := "" |}
  ∧ Forall (λ c, CreateBucketParams.Policy (fst c) = dflt)
      (createCalls (calls (run (CreateBucketHandler h r) (World0 hp)))).
Proof.
  intros Hlen Hdflt.
  assert (Hcp : parseLocationConstraint (lib h) r = inl {| cbLocationConstraint := "" |}).
  { unfold parseLocationConstraint. by rewrite Hlen. }
  split; [exact Hcp|].
  destruct (CreateBucketHandler_calls h r hp)
    as [->|(p & l & b & cp & -> & _ & _ & Hcp' & _ & _ & Hpol)]; [constructor|].
  rewrite Hcp in Hcp'. injection Hcp' as <-. simpl in Hpol.
  rewrite Hdflt in Hpol. injection Hpol as Heq.
  constructor; [by simpl|constructor].
Qed.

Lemma X13_create_empty_length_witness :
  let r := {| rHeader := ∅; rContentLength := 0; rBody := "eu";
              rVars := {[ "bucket" := "dst" ]}; rURL := "/dst";
              rContext := Demo.ctxBox |} in
  let created := createCalls (calls (run (CreateBucketHandler Demo.h r)
                                       (World0 Demo.store))) in
  length created = 1%nat
  ∧ Forall (λ c, CreateBucketParams.Policy (fst c) = Some {| policyText := "REP 3" |})
      created.
Proof.
  intros r created. split; [vm_compute; reflexivity|].
  exact (proj2 (X13_create_empty_length Demo.h r Demo.store
                  (Some {| policyText := "REP 3" |}) eq_refl eq_refl)).
Defined.

(** ** The calls of a copy *)

Lemma increasing_from_le k k' l :
  (k' ≤ k)%nat → increasing_from k l = true → increasing_from k' l = true.
Proof.
  destruct l as [|x l]; [done|]. simpl. intros Hk [Hx Hl]%andb_true_iff.
  apply Nat.leb_le in Hx. rewrite Hl, andb_true_r. apply Nat.leb_le. lia.
Qed.

Lemma increasing_from_sorted k l :
  increasing_from k l = true → StronglySorted lt l ∧ Forall (λ x, (k ≤ x)%nat) l.
Proof.
  revert k. induction l as [|x l IH]; intros k; simpl.
  - intros _. split; constructor.
  - intros [Hx Hl]%andb_true_iff. apply Nat.leb_le in Hx.
    destruct (IH (S x) Hl) as [Hs Hf]. split.
    + constructor; [done|]. eapply Forall_impl; [exact Hf|]. simpl. intros; lia.
    + constructor; [done|]. eapply Forall_impl; [exact Hf|]. simpl. intros; lia.
Qed.

Ltac flat_calls :=
  simpl; rewrite <- ?app_assoc; simpl.

Lemma head_calls h r w w1 f :
  CopyObjectHandler_head h r w = (w1, f) →
  (calls w1 = calls w ∧ f = Returned)
  ∨ ∃ p, calls w1 = calls w ++ [CGetObjectInfo p].
Proof.
  unfold CopyObjectHandler_head. intros Hrun.
  destruct (copySourceOf (lib h) r) as [versionID src].
  unfold_H. repeat case_step; flat_calls; eauto.
Qed.

Lemma plan_calls h r s w w2 f :
  CopyObjectHandler_plan h r s w = (w2, f) →
  calls w2 = calls w ∨ ∃ v, calls w2 = calls w ++ [CGetObjectTagging v].
Proof.
  unfold CopyObjectHandler_plan. intros Hrun.
  unfold_H. repeat case_step; flat_calls; eauto.
Qed.

Lemma commit_calls h r s d w w3 f :
  CopyObjectHandler_commit h r s d w = (w3, f) →
  ∃ l, calls w3 = calls w ++ l
       ∧ increasing_from 2 (rank <$> l) = true
       ∧ Forall (λ c, (rank c ≤ 6)%nat) l
       ∧ (copyCalls l ≠ [] → settingsCalls l ≠ [])
       ∧ (afterCopy l ≠ [] →
          ∃ p copy, copyCalls l = [p]
                    ∧ CopyObject (obj h) (rContext r) p = inl copy).
Proof.
  unfold CopyObjectHandler_commit. intros Hrun.
  unfold_H. repeat case_step; flat_calls;
    (eexists; split; [first [reflexivity | symmetry; apply app_nil_r]|]);
    (split; [reflexivity|]); (split; [repeat constructor|]);
    (split; [simpl; congruence|]); simpl; first [congruence | eauto].
Qed.

(** The ways a run of [CopyObjectHandler] ends, by the part that ends it. *)
Lemma copy_run_cases h r w :
  (∃ w1, CopyObjectHandler_head h r w = (w1, Returned)
         ∧ CopyObjectHandler h r w = (w1, Returned))
  ∨ (∃ w1, CopyObjectHandler_head h r w = (w1, Panicked)
           ∧ CopyObjectHandler h r w = (w1, Panicked))
  ∨ (∃ s w1 w2, CopyObjectHandler_head h r w = (w1, Next s)
                ∧ CopyObjectHandler_plan h r s w1 = (w2, Returned)
                ∧ CopyObjectHandler h r w = (w2, Returned))
  ∨ (∃ s w1 w2, CopyObjectHandler_head h r w = (w1, Next s)
                ∧ CopyObjectHandler_plan h r s w1 = (w2, Panicked)
                ∧ CopyObjectHandler h r w = (w2, Panicked))
  ∨ (∃ s w1 d w2, CopyObjectHandler_head h r w = (w1, Next s)
                  ∧ CopyObjectHandler_plan h r s w1 = (w2, Next d)
                  ∧ CopyObjectHandler h r w = CopyObjectHandler_commit h r s d w2).
Proof.
  unfold CopyObjectHandler, mbind, H_bind.
  destruct (CopyObjectHandler_head h r w) as [w1 [s| |]] eqn:Hhead; eauto 8.
  destruct (CopyObjectHandler_plan h r s w1) as [w2 [d| |]] eqn:Hplan; eauto 12.
Qed.

Lemma settingsCalls_app cs cs' :
  settingsCalls (cs ++ cs') = settingsCalls cs ++ settingsCalls cs'.
Proof.
  induction cs as [|c cs IH]; simpl; [done|].
  destruct c; simpl; by rewrite ?IH.
Qed.

Lemma aclCalls_app cs cs' : aclCalls (cs ++ cs') = aclCalls cs ++ aclCalls cs'.
Proof.
  induction cs as [|c cs IH]; simpl; [done|].
  destruct c; simpl; by rewrite ?IH.
Qed.

Lemma tagCalls_app cs cs' : tagCalls (cs ++ cs') = tagCalls cs ++ tagCalls cs'.
Proof.
  induction cs as [|c cs IH]; simpl; [done|].
  destruct c; simpl; by rewrite ?IH.
Qed.

(** The calls of a run: the head of the source, the tags of the source,
    then what the last part calls. *)
Lemma copy_calls_split h r hp :
  ∃ l1 l2 l3,
    calls (run (CopyObjectHandler h r) (World0 hp)) = l1 ++ l2 ++ l3
    ∧ ((l1 = [] ∧ l2 = [] ∧ l3 = []) ∨ ∃ p, l1 = [CGetObjectInfo p])
    ∧ (l2 = [] ∨ ∃ v, l2 = [CGetObjectTagging v])
    ∧ increasing_from 2 (rank <$> l3) = true
    ∧ Forall (λ c, (rank c ≤ 6)%nat) l3
    ∧ (copyCalls l3 ≠ [] → settingsCalls l3 ≠ [])
    ∧ (afterCopy l3 ≠ [] →
       ∃ p copy, copyCalls l3 = [p] ∧ CopyObject (obj h) (rContext r) p = inl copy).
Proof.
  unfold run.
  destruct (copy_run_cases h r (World0 hp))
    as [(w1 & Hh & ->)|[(w1 & Hh & ->)|[(s & w1 & w2 & Hh & Hp & ->)
       |[(s & w1 & w2 & Hh & Hp & ->)|(s & w1 & d & w2 & Hh & Hp & ->)]]]]; simpl.
  - destruct (head_calls _ _ _ _ _ Hh) as [[-> _]|[p ->]]; simpl.
    + exists [], [], []. repeat split; eauto; done.
    + exists [CGetObjectInfo p], [], []. repeat split; eauto; done.
  - destruct (head_calls _ _ _ _ _ Hh) as [[_ ?]|[p ->]]; [done|]. simpl.
    exists [CGetObjectInfo p], [], []. repeat split; eauto; done.
  - destruct (head_calls _ _ _ _ _ Hh) as [[_ ?]|[p Hc1]]; [done|]. simpl in Hc1.
    destruct (plan_calls _ _ _ _ _ _ Hp) as [->|[v ->]]; rewrite Hc1.
    + exists [CGetObjectInfo p], [], []. repeat split; eauto; done.
    + exists [CGetObjectInfo p], [CGetObjectTagging v], []. repeat split; eauto; done.
  - destruct (head_calls _ _ _ _ _ Hh) as [[_ ?]|[p Hc1]]; [done|]. simpl in Hc1.
    destruct (plan_calls _ _ _ _ _ _ Hp) as [->|[v ->]]; rewrite Hc1.
    + exists [CGetObjectInfo p], [], []. repeat split; eauto; done.
    + exists [CGetObjectInfo p], [CGetObjectTagging v], []. repeat split; eauto; done.
  - destruct (head_calls _ _ _ _ _ Hh) as [[_ ?]|[p Hc1]]; [done|]. simpl in Hc1.
    destruct (CopyObjectHandler_commit h r s d w2) as [w3 f] eqn:Hc.
    destruct (commit_calls _ _ _ _ _ _ _ Hc) as (l3 & Hc3 & Hl3). simpl.
    rewrite Hc3.
    destruct (plan_calls _ _ _ _ _ _ Hp) as [->|[v ->]]; rewrite Hc1.
    + exists [CGetObjectInfo p], [], l3. split; [done|]. split; [eauto|]. split; [eauto|].
      exact Hl3.
    + exists [CGetObjectInfo p], [CGetObjectTagging v], l3.
      split; [by rewrite <- app_assoc|]. split; [eauto|]. split; [eauto|]. exact Hl3.
Qed.

Lemma afterCopy_app cs cs' : afterCopy (cs ++ cs') = afterCopy cs ++ afterCopy cs'.
Proof. apply List.filter_app. Qed.

(** X14: the calls of [CopyObjectHandler] follow the pipeline: each kind of
    call is made at most once and in the order head, source tags, bucket
    settings, copy, bucket ACL, object tags, notification; the copy is made
    only after the head and the settings; and the ACL, the tags and the
    notification only after a copy that succeeded. *)
Theorem X14_copy_pipeline_order h r hp :
  let cs := calls (run (CopyObjectHandler h r) (World0 hp)) in
  StronglySorted lt (rank <$> cs)
  ∧ Forall (λ c, (rank c ≤ 6)%nat) cs
  ∧ (copyCalls cs ≠ [] → headCalls cs ≠ [] ∧ settingsCalls cs ≠ [])
  ∧ (afterCopy cs ≠ [] →
     ∃ p copy, copyCalls cs = [p] ∧ CopyObject (obj h) (rContext r) p = inl copy).
Proof.
  intros cs. subst cs.
  destruct (copy_calls_split h r hp)
    as (l1 & l2 & l3 & -> & H1 & H2 & Hinc & Hle & Hset & Hafter).
  assert (Hsorted : increasing_from 0 (rank <$> (l1 ++ l2 ++ l3)) = true).
  { destruct H1 as [(-> & -> & ->)|[p ->]]; [done|].
    destruct H2 as [->|[v ->]]; simpl.
    - apply (increasing_from_le 2); [lia|exact Hinc].
    - exact Hinc. }
  split; [exact (proj1 (increasing_from_sorted _ _ Hsorted))|].
  rewrite !copyCalls_app, !headCalls_app, !settingsCalls_app, !afterCopy_app.
  destruct H1 as [(-> & -> & ->)|[p ->]].
  { simpl. repeat split; first [done | constructor]. }
  destruct H2 as [->|[v ->]]; simpl.
  - split; [constructor; [simpl; lia|exact Hle]|]. split; [|exact Hafter].
    intros Hc. split; [done|]. by apply Hset.
  - split; [constructor; [simpl; lia|constructor; [simpl; lia|exact Hle]]|].
    split; [|exact Hafter].
    intros Hc. split; [done|]. by apply Hset.
Qed.

(** What the first part has established when it heads the source. *)
Lemma head_calls_facts h r w w1 f :
  CopyObjectHandler_head h r w = (w1, f) →
  (calls w1 = calls w ∧ f = Returned)
  ∨ ∃ p b dst,
      calls w1 = calls w ++ [CGetObjectInfo p]
      ∧ path2BucketObject (snd (copySourceOf (lib h) r))
        = inl (b, HeadObjectParams.Object p)
      ∧ HeadObjectParams.VersionID p = fst (copySourceOf (lib h) r)
      ∧ getBucketAndCheckOwner (lib h) r b [api.AmzSourceExpectedBucketOwner]
        = inl (HeadObjectParams.BktInfo p)
      ∧ getBucketAndCheckOwner (lib h) r (BucketName (GetReqInfo (lib h) (rContext r))) []
        = inl dst
      ∧ (containsACLHeaders (lib h) r = true →
         ∃ t, getSessionTokenSetEACL (lib h) (rContext r) = inl t)
      ∧ ∀ s, f = Next s →
             headParams s = p ∧ dstBktInfo s = dst
             ∧ containsACL s = containsACLHeaders (lib h) r
             ∧ reqInfo s = GetReqInfo (lib h) (rContext r)
             ∧ (containsACL s = true →
                getSessionTokenSetEACL (lib h) (rContext r) = inl (sessionTokenEACL s))
             ∧ GetObjectInfo (obj h) (rContext r) p = inl (srcInfo s).
Proof.
  unfold CopyObjectHandler_head. intros Hrun.
  destruct (copySourceOf (lib h) r) as [versionID src].
  unfold_H. repeat case_step; flat_calls; try (by left).
  all: right; do 3 eexists; (split; [reflexivity|]); simpl.
  all: repeat match goal with
              | |- _ ∧ _ => split
              | |- ∀ s, Next _ = Next s → _ => intros ? [= <-]; simpl
              | |- _ → _ => intros
              end; eauto; congruence.
Qed.

(** Either a run calls nothing, or it has headed the source once, after
    the source was split, both buckets were resolved and, for a request
    with ACL headers, the session token was found. *)
Lemma copy_head_facts h r hp :
  let cs := calls (run (CopyObjectHandler h r) (World0 hp)) in
  cs = []
  ∨ ∃ p b dst,
      headCalls cs = [p]
      ∧ path2BucketObject (snd (copySourceOf (lib h) r))
        = inl (b, HeadObjectParams.Object p)
      ∧ HeadObjectParams.VersionID p = fst (copySourceOf (lib h) r)
      ∧ getBucketAndCheckOwner (lib h) r b [api.AmzSourceExpectedBucketOwner]
        = inl (HeadObjectParams.BktInfo p)
      ∧ getBucketAndCheckOwner (lib h) r (BucketName (GetReqInfo (lib h) (rContext r))) []
        = inl dst
      ∧ (containsACLHeaders (lib h) r = true →
         ∃ t, getSessionTokenSetEACL (lib h) (rContext r) = inl t).
Proof.
  intros cs. subst cs. unfold run.
  assert (Hfrom : ∀ w1 f w',
    CopyObjectHandler_head h r (World0 hp) = (w1, f) →
    headCalls (calls w') = headCalls (calls w1) →
    (calls w1 = [] → calls w' = []) →
    calls w' = []
    ∨ ∃ p b dst,
        headCalls (calls w') = [p]
        ∧ path2BucketObject (snd (copySourceOf (lib h) r))
          = inl (b, HeadObjectParams.Object p)
        ∧ HeadObjectParams.VersionID p = fst (copySourceOf (lib h) r)
        ∧ getBucketAndCheckOwner (lib h) r b [api.AmzSourceExpectedBucketOwner]
          = inl (HeadObjectParams.BktInfo p)
        ∧ getBucketAndCheckOwner (lib h) r
            (BucketName (GetReqInfo (lib h) (rContext r))) [] = inl dst
        ∧ (containsACLHeaders (lib h) r = true →
           ∃ t, getSessionTokenSetEACL (lib h) (rContext r) = inl t)).
  { intros w1 f w' Hh Hhc Hnil.
    destruct (head_calls_facts _ _ _ _ _ Hh)
      as [[Hc _]|(p & b & dst & Hc & Hpath & Hver & Hsrc & Hdst & Htok & _)].
    - left. by apply Hnil.
    - right. exists p, b, dst. rewrite Hhc, Hc. simpl. done. }
  destruct (copy_run_cases h r (World0 hp))
    as [(w1 & Hh & ->)|[(w1 & Hh & ->)|[(s & w1 & w2 & Hh & Hp & ->)
       |[(s & w1 & w2 & Hh & Hp & ->)|(s & w1 & d & w2 & Hh & Hp & ->)]]]]; simpl.
  - by apply (Hfrom w1 Returned w1).
  - by apply (Hfrom w1 Panicked w1).
  - apply (Hfrom w1 (Next s) w2 Hh (plan_headCalls _ _ _ _ _ _ Hp)).
    intros Hnil. apply head_next in Hh as (_ & _ & _ & _ & Hc & _).
    rewrite Hnil in Hc. by destruct (calls (World0 hp)).
  - apply (Hfrom w1 (Next s) w2 Hh (plan_headCalls _ _ _ _ _ _ Hp)).
    intros Hnil. apply head_next in Hh as (_ & _ & _ & _ & Hc & _).
    rewrite Hnil in Hc. by destruct (calls (World0 hp)).
  - destruct (CopyObjectHandler_commit h r s d w2) as [w3 f] eqn:Hc.
    apply (Hfrom w1 (Next s) w3 Hh).
    + simpl. by rewrite (commit_headCalls _ _ _ _ _ _ _ Hc), (plan_headCalls _ _ _ _ _ _ Hp).
    + intros Hnil. apply head_next in Hh as (_ & _ & _ & _ & Hc1 & _).
      rewrite Hnil in Hc1. by destruct (calls (World0 hp)).
Qed.

(** X16: when [url.Parse] accepts the copy source, the source is headed for
    the version the query names under [versionId] (the empty version when
    the query has none) and for the object found in the path of the URL,
    not in the raw header. *)
Theorem X16_copy_source_version h r hp u :
  url_Parse (lib h) (Header_Get (rHeader r) api.AmzCopySource) = inl u →
  Forall (λ p, HeadObjectParams.VersionID p = Header_Get (Query u) api.QueryVersionID
               ∧ ∃ b, path2BucketObject (Path u) = inl (b, HeadObjectParams.Object p))
    (headCalls (calls (run (CopyObjectHandler h r) (World0 hp)))).
Proof.
  intros Hurl.
  assert (Hsrc : copySourceOf (lib h) r
                 = (Header_Get (Query u) api.QueryVersionID, Path u)).
  { unfold copySourceOf. by rewrite Hurl. }
  destruct (copy_head_facts h r hp)
    as [->|(p & b & dst & -> & Hpath & Hver & _)]; [constructor|].
  rewrite Hsrc in Hpath, Hver. simpl in Hpath, Hver.
  constructor; [|constructor]. split; [done|]. by exists b.
Qed.

(** X19: no call reaches the object layer before the request has been
    checked: a run that calls anything has headed the source exactly once,
    for a source that [path2BucketObject] accepted, after
    [getBucketAndCheckOwner] passed for the source and for the target
    bucket, and, for a request with ACL headers, after the session token
    was found. *)
Theorem X19_copy_checks_first h r hp :
  let cs := calls (run (CopyObjectHandler h r) (World0 hp)) in
  cs ≠ [] →
  ∃ p b dst,
    headCalls cs = [p]
    ∧ path2BucketObject (snd (copySourceOf (lib h) r))
      = inl (b, HeadObjectParams.Object p)
    ∧ getBucketAndCheckOwner (lib h) r b [api.AmzSourceExpectedBucketOwner]
      = inl (HeadObjectParams.BktInfo p)
    ∧ getBucketAndCheckOwner (lib h) r (BucketName (GetReqInfo (lib h) (rContext r))) []
      = inl dst
    ∧ (containsACLHeaders (lib h) r = true →
       ∃ t, getSessionTokenSetEACL (lib h) (rContext r) = inl t).
Proof.
  intros cs Hne.
  destruct (copy_head_facts h r hp)
    as [Hnil|(p & b & dst & Hp & Hpath & _ & Hsrc & Hdst & Htok)]; [done|].
  by exists p, b, dst.
Qed.

Lemma sourceTagCalls_app cs cs' :
  sourceTagCalls (cs ++ cs') = sourceTagCalls cs ++ sourceTagCalls cs'.
Proof.
  induction cs as [|c cs IH]; simpl; [done|].
  destruct c; simpl; by rewrite ?IH.
Qed.

Lemma setHeaders_same o : ObjectInfo.setHeaders o (ObjectInfo.Headers o) = o.
Proof. by destruct o. Qed.

(** What the second part has settled when it falls through. *)
Lemma plan_facts h r s w w2 d :
  CopyObjectHandler_plan h r s w = (w2, Next d) →
  parseCopyObjectArgs (lib h) (rHeader r) = inl (args d)
  ∧ formEncryptionParams (lib h) (rHeader r) = inl (encryptionParams d)
  ∧ MatchObjectEncryption (lib h) (encryptionParams d)
      (FormEncryptionInfo (lib h) (ObjectInfo.Headers (srcInfo s))) = None
  ∧ (if String.eqb (TaggingDirective (args d)) replaceDirective
     then calls w2 = calls w
          ∧ parseTaggingHeader (lib h) (rHeader r) = inl (tagSet0 d)
     else ∃ v ver,
            calls w2 = calls w ++ [CGetObjectTagging v]
            ∧ v = {| ObjectVersion.BktInfo := HeadObjectParams.BktInfo (headParams s);
                     ObjectVersion.ObjectName := srcObject s;
                     ObjectVersion.VersionID := ObjectInfo.VersionID (srcInfo s) |}
            ∧ GetObjectTagging (obj h) (rContext r) v = inl (ver, tagSet0 d)).
Proof.
  unfold CopyObjectHandler_plan. intros Hrun.
  unfold_H. repeat case_step; flat_calls; use_eqs;
    (split; [done|]); (split; [done|]); (split; [done|]);
    first [by rewrite app_nil_r | by split | by eauto].
Qed.

(** What the last part calls, and with what. *)
Lemma commit_facts h r s d w w3 f :
  CopyObjectHandler_commit h r s d w = (w3, f) →
  ∃ l, calls w3 = calls w ++ l
    ∧ headCalls l = [] ∧ sourceTagCalls l = []
    ∧ Forall (λ p,
        checkPreconditions (lib h) (srcInfo s) (Conditional (args d)) = None
        ∧ CopyObjectParams.ScrBktInfo p = HeadObjectParams.BktInfo (headParams s)
        ∧ CopyObjectParams.DstBktInfo p = dstBktInfo s
        ∧ CopyObjectParams.DstObject p = ObjectName (reqInfo s)
        ∧ CopyObjectParams.SrcSize p = ObjectInfo.Size (srcInfo s)
        ∧ CopyObjectParams.Encryption p = encryptionParams d
        ∧ getCopiesNumberOrDefault (lib h) (CopyObjectParams.Header p) (cfgCopiesNumber h)
          = inl (CopyObjectParams.CopiesNuber p)
        ∧ (∃ st, GetBucketSettings (obj h) (rContext r) (dstBktInfo s) = inl st
                 ∧ formObjectLock (lib h) (dstBktInfo s) (LockConfiguration st) (rHeader r)
                   = inl (CopyObjectParams.Lock p))
        ∧ CopyObjectParams.SrcObject p
          = match metadata0 d with
            | None => ObjectInfo.setHeaders (srcInfo s) (CopyObjectParams.Header p)
            | Some _ => srcInfo s
            end) (copyCalls l)
    ∧ Forall (λ a, ∃ p copy,
        copyCalls l = [p]
        ∧ CopyObject (obj h) (rContext r) p = inl copy
        ∧ containsACL s = true
        ∧ PutBucketACLParams.BktInfo a = dstBktInfo s
        ∧ PutBucketACLParams.SessionToken a = sessionTokenEACL s
        ∧ getNewEAclTable (lib h) r (dstBktInfo s) copy = inl (PutBucketACLParams.EACL a))
        (aclCalls l)
    ∧ Forall (λ vt, ∃ p copy,
        copyCalls l = [p]
        ∧ CopyObject (obj h) (rContext r) p = inl copy
        ∧ tagSet0 d = Some (snd vt)
        ∧ fst vt = {| ObjectVersion.BktInfo := dstBktInfo s;
                      ObjectVersion.ObjectName := ObjectName (reqInfo s);
                      ObjectVersion.VersionID := ObjectInfo.VersionID copy |})
        (tagCalls l)
    ∧ Forall (λ n, ∃ p copy,
        copyCalls l = [p]
        ∧ CopyObject (obj h) (rContext r) p = inl copy
        ∧ n = {| SendNotificationParams.Event := EventObjectCreatedCopy;
                 SendNotificationParams.NotificationInfo :=
                   NotificationInfoFromObject (lib h) copy;
                 SendNotificationParams.BktInfo := dstBktInfo s;
                 SendNotificationParams.ReqInfo_ := reqInfo s |}
        ∧ (containsACL s = true → aclCalls l ≠ [])
        ∧ (is_Some (tagSet0 d) → tagCalls l ≠ []))
        (notifyCalls l).
Proof.
  unfold CopyObjectHandler_commit. intros Hrun.
  unfold_H. repeat case_step; flat_calls;
    (eexists; split; [first [reflexivity | symmetry; apply app_nil_r]|]);
    simpl; (split; [reflexivity|]); (split; [reflexivity|]).
  all: repeat match goal with
              | |- Forall _ [] => constructor
              | |- Forall _ (_ :: _) => constructor
              | |- _ ∧ _ => split
              end.
  all: simpl; rewrite ?setHeaders_same; use_eqs; eauto 10.
  all: try congruence.
  all: do 2 eexists; repeat split; eauto; simpl;
       first [congruence | by intros [? ?] | done].
Qed.

(** A run either ends before the last part, having called nothing but the
    head and the tags of the source, or goes through the three parts. *)
Lemma copy_run_facts h r hp :
  let cs := calls (run (CopyObjectHandler h r) (World0 hp)) in
  (copyCalls cs = [] ∧ aclCalls cs = [] ∧ tagCalls cs = [] ∧ notifyCalls cs = [])
  ∨ ∃ s w1 d w2 w3 f l,
      CopyObjectHandler_head h r (World0 hp) = (w1, Next s)
      ∧ CopyObjectHandler_plan h r s w1 = (w2, Next d)
      ∧ CopyObjectHandler_commit h r s d w2 = (w3, f)
      ∧ CopyObjectHandler h r (World0 hp) = (w3, f)
      ∧ calls w1 = [CGetObjectInfo (headParams s)]
      ∧ calls w3 = calls w2 ++ l
      ∧ headCalls cs = [headParams s]
      ∧ sourceTagCalls cs = sourceTagCalls (calls w2)
      ∧ copyCalls cs = copyCalls l ∧ aclCalls cs = aclCalls l
      ∧ tagCalls cs = tagCalls l ∧ notifyCalls cs = notifyCalls l.
Proof.
  intros cs. subst cs. unfold run.
  assert (Hearly : ∀ w1 w2 f (s : option copyHead),
    CopyObjectHandler_head h r (World0 hp) = (w1, f) →
    (calls w2 = calls w1 ∨ ∃ v, calls w2 = calls w1 ++ [CGetObjectTagging v]) →
    copyCalls (calls w2) = [] ∧ aclCalls (calls w2) = []
    ∧ tagCalls (calls w2) = [] ∧ notifyCalls (calls w2) = []).
  { intros w1 w2 f _ Hh Hp.
    destruct (head_calls _ _ _ _ _ Hh) as [[Hc _]|[p Hc]]; simpl in Hc;
      destruct Hp as [->|[v ->]]; rewrite Hc; done. }
  destruct (copy_run_cases h r (World0 hp))
    as [(w1 & Hh & ->)|[(w1 & Hh & ->)|[(s & w1 & w2 & Hh & Hp & ->)
       |[(s & w1 & w2 & Hh & Hp & ->)|(s & w1 & d & w2 & Hh & Hp & Hrun)]]]]; simpl.
  - left. apply (Hearly w1 w1 Returned None Hh). by left.
  - left. apply (Hearly w1 w1 Panicked None Hh). by left.
  - left. apply (Hearly w1 w2 _ None Hh). exact (plan_calls _ _ _ _ _ _ Hp).
  - left. apply (Hearly w1 w2 _ None Hh). exact (plan_calls _ _ _ _ _ _ Hp).
  - right. rewrite Hrun.
    destruct (CopyObjectHandler_commit h r s d w2) as [w3 f] eqn:Hc.
    destruct (commit_facts _ _ _ _ _ _ _ Hc) as (l & Hl & Hhd & Hst & _).
    pose proof (head_next _ _ _ _ _ Hh) as (_ & _ & _ & _ & Hc1 & _).
    simpl in Hc1.
    exists s, w1, d, w2, w3, f, l. simpl.
    do 6 (split; [done|]).
    rewrite Hl, headCalls_app, sourceTagCalls_app, copyCalls_app, aclCalls_app,
      tagCalls_app, notifyCalls_app, Hhd, Hst, !app_nil_r.
    destruct (plan_calls _ _ _ _ _ _ Hp) as [->|[v ->]]; rewrite Hc1; done.
Qed.

(** The fields of what the first part hands on. *)
Lemma head_fields h r w w1 s :
  CopyObjectHandler_head h r w = (w1, Next s) →
  reqInfo s = GetReqInfo (lib h) (rContext r)
  ∧ containsACL s = containsACLHeaders (lib h) r
  ∧ getBucketAndCheckOwner (lib h) r (BucketName (GetReqInfo (lib h) (rContext r))) []
    = inl (dstBktInfo s)
  ∧ (containsACL s = true →
     getSessionTokenSetEACL (lib h) (rContext r) = inl (sessionTokenEACL s))
  ∧ HeadObjectParams.Object (headParams s) = srcObject s
  ∧ GetObjectInfo (obj h) (rContext r) (headParams s) = inl (srcInfo s).
Proof.
  intros Hh.
  pose proof (head_next _ _ _ _ _ Hh) as (_ & _ & _ & _ & _ & _ & _ & Hobj & Hget).
  destruct (head_calls_facts _ _ _ _ _ Hh) as [[_ ?]|(p & b & dst & _ & _ & _ & _ & Hdst & _ & Hs)];
    [done|].
  destruct (Hs s eq_refl) as (_ & <- & Hacl & Hreq & Htok & _).
  done.
Qed.

(** How the first part ends: it never panics, and when it returns it has
    written one error. *)
Lemma head_ends h r w w1 f :
  CopyObjectHandler_head h r w = (w1, f) →
  match f with
  | Next _ => writes w1 = writes w
  | Returned => ∃ e, writes w1 = writes w ++ [WError e]
  | Panicked => False
  end.
Proof.
  unfold CopyObjectHandler_head. intros Hrun.
  destruct (copySourceOf (lib h) r) as [versionID src].
  unfold_H. repeat case_step; simpl; eauto.
Qed.

Lemma plan_ends h r s w w2 f :
  CopyObjectHandler_plan h r s w = (w2, f) →
  match f with
  | Next _ => writes w2 = writes w
  | Returned => ∃ e, writes w2 = writes w ++ [WError e]
  | Panicked => writes w2 = writes w ∧ parseMetadata r = None
                ∧ ∃ a, parseCopyObjectArgs (lib h) (rHeader r) = inl a
                       ∧ MetadataDirective a = replaceDirective
  end.
Proof.
  unfold CopyObjectHandler_plan. intros Hrun.
  unfold_H. repeat case_step; simpl; eauto.
  split; [done|]. split; [done|]. eexists. split; [done|]. by apply String.eqb_eq.
Qed.

(** The response of the last part. *)
Lemma commit_ends h r s d w w3 f :
  CopyObjectHandler_commit h r s d w = (w3, f) →
  ∃ l, calls w3 = calls w ++ l ∧
  match f with
  | Next _ =>
      ∃ p copy, copyCalls l = [p] ∧ CopyObject (obj h) (rContext r) p = inl copy
        ∧ writes w3 = writes w ++
            [WEncoded {| LastModified := FormatRFC3339 (lib h) (ObjectInfo.Created copy);
                         ETag := ObjectInfo.HashSum copy |}]
        ∧ notifyCalls l ≠ []
  | Returned =>
      (∃ e, writes w3 = writes w ++ [WError e] ∧ afterCopy l = [])
      ∨ (∃ p copy e, copyCalls l = [p] ∧ CopyObject (obj h) (rContext r) p = inl copy
           ∧ writes w3 = writes w ++
               [WEncoded {| LastModified := FormatRFC3339 (lib h) (ObjectInfo.Created copy);
                            ETag := ObjectInfo.HashSum copy |};
                WError e]
           ∧ notifyCalls l = [])
  | Panicked =>
      writes w3 = writes w ∧ l = [] ∧ metadata0 d = None
      ∧ ObjectInfo.ContentType (srcInfo s) ≠ "" ∧ ObjectInfo.Headers (srcInfo s) = None
  end.
Proof.
  unfold CopyObjectHandler_commit. intros Hrun.
  unfold_H. rewrite !length_pos_eqb in Hrun.
  repeat case_step; flat_calls;
    (eexists; split; [first [reflexivity | symmetry; apply app_nil_r]|]); simpl.
  all: try (left; eexists; split; [reflexivity|reflexivity]).
  all: try (right; do 3 eexists; repeat split; eauto; done).
  all: try (do 2 eexists; repeat split; eauto; done).
  all: flip_negb; repeat split; try done.
  all: intros Heq; rewrite Heq in *; done.
Qed.

(** X15: the tags put on the copy are addressed to the target bucket and
    key and to the version [CopyObject] returned; under the tagging
    directive REPLACE they are the tags parsed from the request and the
    tags of the source are not read, otherwise they are the tags
    [GetObjectTagging] returned for the headed version of the source. *)
Theorem X15_copy_tags h r hp :
  let cs := calls (run (CopyObjectHandler h r) (World0 hp)) in
  Forall (tagsPut h r cs) (tagCalls cs).
Proof.
  intros cs. unfold tagsPut.
  destruct (copy_run_facts h r hp)
    as [(_ & _ & Ht & _)|(s & w1 & d & w2 & w3 & f & l & Hh & Hp & Hc & _ & Hc1 & Hl
                          & Hhd & Hst & Hcp & _ & Ht & _)];
    fold cs in Ht |- *; [rewrite Ht; constructor|].
  fold cs in Hhd, Hst, Hcp. rewrite Ht, Hcp, Hhd, Hst.
  destruct (commit_facts _ _ _ _ _ _ _ Hc) as (l' & Hl' & _ & _ & Hps & _ & Htags & _).
  rewrite Hl in Hl'. apply app_inv_head in Hl'. subst l'.
  destruct (plan_facts _ _ _ _ _ _ Hp) as (Hargs & _ & _ & Htag).
  destruct (head_fields _ _ _ _ _ Hh) as (_ & _ & _ & _ & Hobj & Hget).
  eapply Forall_impl; [exact Htags|]. simpl.
  intros [v t] (p & copy & Hp1 & Hcopy & Hts & Hv). simpl in *.
  rewrite Hp1 in Hps. apply Forall_inv in Hps as (_ & _ & Hdst & Hname & _).
  exists (args d), p, copy. rewrite Hdst, Hname.
  do 4 (split; [done|]).
  destruct (String.eqb (TaggingDirective (args d)) replaceDirective).
  - destruct Htag as [Hcalls Hparse]. rewrite Hcalls, Hc1. simpl.
    split; [done|]. by rewrite Hparse, Hts.
  - destruct Htag as (v' & ver & Hcalls & -> & Hget').
    exists (headParams s), (srcInfo s), ver.
    rewrite Hcalls, Hc1, Hobj. simpl. rewrite Hts in Hget'. done.
Qed.

(** X17: what [CopyObject] is asked to copy: the source bucket the head
    used, the target bucket and key of the request, the size of the headed
    source and the headed source itself; unless the metadata directive is
    REPLACE, the headers of that source object are the very map passed as
    the header of the copy, Content-Type entry included. *)
Theorem X17_copy_params h r hp :
  let cs := calls (run (CopyObjectHandler h r) (World0 hp)) in
  Forall (copyAsked h r cs) (copyCalls cs).
Proof.
  intros cs. unfold copyAsked. set (req := GetReqInfo (lib h) (rContext r)).
  destruct (copy_run_facts h r hp)
    as [(Hcp & _)|(s & w1 & d & w2 & w3 & f & l & Hh & Hp & Hc & _ & Hc1 & Hl
                   & Hhd & _ & Hcp & _)];
    fold cs in Hcp |- *; [rewrite Hcp; constructor|].
  fold cs in Hhd. rewrite Hcp, Hhd.
  destruct (commit_facts _ _ _ _ _ _ _ Hc) as (l' & Hl' & _ & _ & Hps & _).
  rewrite Hl in Hl'. apply app_inv_head in Hl'. subst l'.
  pose proof (plan_next _ _ _ _ _ _ Hp) as (_ & _ & _ & _ & _ & _ & Hargs & Hmd & Hsome).
  destruct (head_fields _ _ _ _ _ Hh) as (Hreq & _ & Hdst & _ & _ & Hget).
  eapply Forall_impl; [exact Hps|]. simpl.
  intros p (_ & Hsrc & Hd & Hname & Hsize & _ & _ & _ & Hobj).
  exists (headParams s), (srcInfo s), (args d). fold req in Hreq, Hdst.
  rewrite Hd, Hname, Hreq. do 7 (split; [done|]).
  rewrite Hobj, Hmd.
  destruct (String.eqb (MetadataDirective (args d)) replaceDirective); [|done].
  by destruct (Hsome eq_refl) as [m ->].
Qed.

(** X18: [CopyObject] is called only after every check has passed, and with
    what the checks produced: the preconditions hold for the headed source,
    the encryption parameters are those parsed from the request and match
    the source, the number of copies is the one derived from the metadata
    of the copy, and the lock is the one formed from the settings of the
    target bucket. *)
Theorem X18_copy_checked h r hp :
  let cs := calls (run (CopyObjectHandler h r) (World0 hp)) in
  Forall (copyGuarded h r cs) (copyCalls cs).
Proof.
  intros cs. unfold copyGuarded.
  destruct (copy_run_facts h r hp)
    as [(Hcp & _)|(s & w1 & d & w2 & w3 & f & l & Hh & Hp & Hc & _ & Hc1 & Hl
                   & Hhd & _ & Hcp & _)];
    fold cs in Hcp |- *; [rewrite Hcp; constructor|].
  fold cs in Hhd. rewrite Hcp, Hhd.
  destruct (commit_facts _ _ _ _ _ _ _ Hc) as (l' & Hl' & _ & _ & Hps & _).
  rewrite Hl in Hl'. apply app_inv_head in Hl'. subst l'.
  destruct (plan_facts _ _ _ _ _ _ Hp) as (Hargs & Henc & Hmatch & _).
  destruct (head_fields _ _ _ _ _ Hh) as (_ & _ & _ & _ & _ & Hget).
  eapply Forall_impl; [exact Hps|]. simpl.
  intros p (Hpre & _ & Hd & _ & _ & Hencp & Hcopies & (st & Hst & Hlock) & _).
  exists (headParams s), (srcInfo s), (args d). do 3 (split; [done|]).
  unfold copyChecked. rewrite Hencp, Hd. repeat split; try done.
  by exists st.
Qed.

(** X20: the ACL of the target bucket is put only for a request with ACL
    headers, after a copy that succeeded, with the session token taken
    from the context before the source was headed and the table
    [getNewEAclTable] builds for the copied object. *)
Theorem X20_copy_acl h r hp :
  let cs := calls (run (CopyObjectHandler h r) (World0 hp)) in
  Forall (aclPut h r cs) (aclCalls cs).
Proof.
  intros cs. unfold aclPut.
  destruct (copy_run_facts h r hp)
    as [(_ & Ha & _)|(s & w1 & d & w2 & w3 & f & l & Hh & Hp & Hc & _ & Hc1 & Hl
                      & _ & _ & Hcp & Ha & _)];
    fold cs in Ha |- *; [rewrite Ha; constructor|].
  fold cs in Hcp. rewrite Hcp, Ha.
  destruct (commit_facts _ _ _ _ _ _ _ Hc) as (l' & Hl' & _ & _ & Hps & Hacl & _).
  rewrite Hl in Hl'. apply app_inv_head in Hl'. subst l'.
  destruct (head_fields _ _ _ _ _ Hh) as (_ & Hcont & _ & Htok & _).
  eapply Forall_impl; [exact Hacl|]. simpl.
  intros a (p & copy & Hp1 & Hcopy & Hc' & Hb & Ht & Htab).
  rewrite Hp1 in Hps. apply Forall_inv in Hps as (_ & _ & Hdst & _).
  exists p, copy. rewrite Hdst, Hb, Ht, <- Hcont. repeat split; try done.
  by apply Htok.
Qed.

(** X22: a notification is sent only for a copy that succeeded: it tells
    of the copied object and of the target bucket, with the event
    [s3:ObjectCreated:Copy], and a request with ACL headers has put the
    ACL by then. *)
Theorem X22_copy_notification h r hp :
  let cs := calls (run (CopyObjectHandler h r) (World0 hp)) in
  Forall (notified h r cs) (notifyCalls cs).
Proof.
  intros cs. unfold notified.
  destruct (copy_run_facts h r hp)
    as [(_ & _ & _ & Hn)|(s & w1 & d & w2 & w3 & f & l & Hh & Hp & Hc & _ & Hc1 & Hl
                          & _ & _ & Hcp & Ha & _ & Hn)];
    fold cs in Hn |- *; [rewrite Hn; constructor|].
  fold cs in Hcp, Ha. rewrite Hcp, Ha, Hn.
  destruct (commit_facts _ _ _ _ _ _ _ Hc)
    as (l' & Hl' & _ & _ & Hps & _ & _ & Hnot).
  rewrite Hl in Hl'. apply app_inv_head in Hl'. subst l'.
  destruct (head_fields _ _ _ _ _ Hh) as (Hreq & Hcont & _).
  eapply Forall_impl; [exact Hnot|]. simpl.
  intros n (p & copy & Hp1 & Hcopy & -> & Hacl & _).
  rewrite Hp1 in Hps. apply Forall_inv in Hps as (_ & _ & Hdst & _).
  exists p, copy. rewrite Hdst, <- Hreq, <- Hcont. done.
Qed.

(** X21: what a copy request is answered with.  A run that falls through
    has written the one success body, made from the creation time and the
    hash of the copied object; a run that returns early has written one
    error, alone when nothing was put after the copy, or after the success
    body when the ACL or the tags of the copy failed, and then no
    notification is sent; a run that panics has written nothing and copied
    nothing, and it panics on a metadata header without a value under
    REPLACE, or else on a source with a content type and no header map. *)
Theorem X21_copy_response h r hp :
  let w := run (CopyObjectHandler h r) (World0 hp) in
  let body copy := WEncoded {| LastModified := FormatRFC3339 (lib h) (ObjectInfo.Created copy);
                               ETag := ObjectInfo.HashSum copy |} in
  match snd (CopyObjectHandler h r (World0 hp)) with
  | Next _ =>
      ∃ p copy, copyCalls (calls w) = [p]
        ∧ CopyObject (obj h) (rContext r) p = inl copy
        ∧ writes w = [body copy]
        ∧ notifyCalls (calls w) ≠ []
  | Returned =>
      (∃ e, writes w = [WError e] ∧ afterCopy (calls w) = [])
      ∨ (∃ p copy e, copyCalls (calls w) = [p]
           ∧ CopyObject (obj h) (rContext r) p = inl copy
           ∧ writes w = [body copy; WError e]
           ∧ notifyCalls (calls w) = [])
  | Panicked =>
      writes w = [] ∧ copyCalls (calls w) = []
      ∧ ∃ a, parseCopyObjectArgs (lib h) (rHeader r) = inl a
             ∧ if String.eqb (MetadataDirective a) replaceDirective
               then parseMetadata r = None
               else ∃ hd src, headCalls (calls w) = [hd]
                      ∧ GetObjectInfo (obj h) (rContext r) hd = inl src
                      ∧ ObjectInfo.ContentType src ≠ ""
                      ∧ ObjectInfo.Headers src = None
  end.
Proof.
  intros w body. subst w. unfold run.
  assert (Hafter : ∀ w1 w2 f,
    CopyObjectHandler_head h r (World0 hp) = (w1, f) →
    (calls w2 = calls w1 ∨ ∃ v, calls w2 = calls w1 ++ [CGetObjectTagging v]) →
    afterCopy (calls w2) = [] ∧ copyCalls (calls w2) = []).
  { intros w1 w2 f Hh Hp.
    destruct (head_calls _ _ _ _ _ Hh) as [[Hc _]|[p Hc]]; simpl in Hc;
      destruct Hp as [->|[v ->]]; rewrite Hc; done. }
  destruct (copy_run_cases h r (World0 hp))
    as [(w1 & Hh & ->)|[(w1 & Hh & ->)|[(s & w1 & w2 & Hh & Hp & ->)
       |[(s & w1 & w2 & Hh & Hp & ->)|(s & w1 & d & w2 & Hh & Hp & Hrun)]]]]; simpl.
  - left. destruct (head_ends _ _ _ _ _ Hh) as [e He]. exists e.
    split; [exact He|]. apply (Hafter w1 w1 _ Hh). by left.
  - by destruct (head_ends _ _ _ _ _ Hh).
  - left. pose proof (head_ends _ _ _ _ _ Hh) as Hw1. simpl in Hw1.
    destruct (plan_ends _ _ _ _ _ _ Hp) as [e He]. exists e.
    rewrite Hw1 in He. split; [exact He|].
    apply (Hafter w1 w2 _ Hh). exact (plan_calls _ _ _ _ _ _ Hp).
  - pose proof (head_ends _ _ _ _ _ Hh) as Hw1. simpl in Hw1.
    destruct (plan_ends _ _ _ _ _ _ Hp) as (Hw2 & Hmd & a & Ha & Hrep).
    rewrite Hw1 in Hw2. split; [exact Hw2|].
    split; [apply (Hafter w1 w2 _ Hh); exact (plan_calls _ _ _ _ _ _ Hp)|].
    exists a. split; [done|]. by rewrite Hrep.
  - rewrite Hrun.
    destruct (CopyObjectHandler_commit h r s d w2) as [w3 f] eqn:Hc. simpl.
    pose proof (head_ends _ _ _ _ _ Hh) as Hw1. simpl in Hw1.
    pose proof (plan_ends _ _ _ _ _ _ Hp) as Hw2. simpl in Hw2.
    rewrite Hw1 in Hw2.
    pose proof (head_next _ _ _ _ _ Hh) as (_ & _ & _ & _ & Hc1 & _). simpl in Hc1.
    destruct (Hafter w1 w2 _ Hh (plan_calls _ _ _ _ _ _ Hp)) as [Haf Hcp].
    assert (Hnt : notifyCalls (calls w2) = []).
    { destruct (plan_calls _ _ _ _ _ _ Hp) as [->|[v ->]]; rewrite Hc1; done. }
    assert (Hhd : headCalls (calls w2) = [headParams s]).
    { destruct (plan_calls _ _ _ _ _ _ Hp) as [->|[v ->]]; rewrite Hc1; done. }
    destruct (commit_ends _ _ _ _ _ _ _ Hc) as (l & Hl & Hend).
    rewrite Hl, copyCalls_app, notifyCalls_app, afterCopy_app, Hcp, Hnt, Haf.
    rewrite Hw2 in Hend. simpl in *.
    destruct f as [[]| |].
    + exact Hend.
    + exact Hend.
    + destruct Hend as (Hw & -> & Hmd & Hct & Hhdr).
      split; [done|]. split; [done|].
      pose proof (plan_next _ _ _ _ _ _ Hp) as (_ & _ & _ & _ & _ & _ & Hargs & Hmd' & Hsome).
      destruct (head_fields _ _ _ _ _ Hh) as (_ & _ & _ & _ & _ & Hget).
      exists (args d). split; [done|].
      destruct (String.eqb (MetadataDirective (args d)) replaceDirective).
      * destruct (Hsome eq_refl) as [m Hm]. congruence.
      * exists (headParams s), (srcInfo s). rewrite app_nil_r, Hhd. done.
Qed.

(** ** Metadata and uploads *)

Lemma rich_copy_trace :
  rank <$> calls (run (CopyObjectHandler Rich.h Rich.copyVersioned) (World0 Demo.store))
  = [0; 1; 2; 3; 4; 5; 6]%nat.
Proof. vm_compute. reflexivity. Qed.

(** ** [parseMetadata] *)

(** [parseMetadata] panics exactly on a metadata header without a value. *)
Lemma parseMetadata_values r :
  match parseMetadata r with
  | Some _ => ∀ k vs, rHeader r !! k = Some vs →
                      GoString.HasPrefix k api.MetadataPrefix = true → vs ≠ []
  | None => ∃ k, GoString.HasPrefix k api.MetadataPrefix = true ∧ rHeader r !! k = Some []
  end.
Proof.
  unfold parseMetadata.
  apply (map_fold_weak_ind
    (λ (res : option (gmap string string)) (hd : Header),
       match res with
       | Some _ => ∀ k vs, hd !! k = Some vs →
                           GoString.HasPrefix k api.MetadataPrefix = true → vs ≠ []
       | None => ∃ k, GoString.HasPrefix k api.MetadataPrefix = true ∧ hd !! k = Some []
       end)).
  - intros k vs Hk. by rewrite lookup_empty in Hk.
  - intros i x hd res Hi IH.
    destruct (GoString.HasPrefix i api.MetadataPrefix) eqn:Hp.
    + destruct res as [m|].
      * destruct x as [|v0 x].
        -- exists i. split; [done|]. by rewrite lookup_insert_eq.
        -- intros k vs Hk Hpre.
           destruct (decide (k = i)) as [->|Hne].
           ++ rewrite lookup_insert_eq in Hk. by injection Hk as <-.
           ++ rewrite lookup_insert_ne in Hk by done. by apply (IH k).
      * destruct IH as (k & Hpre & Hk). exists k. split; [done|].
        rewrite lookup_insert_ne; [done|]. intros ->. congruence.
    + destruct res as [m|].
      * intros k vs Hk Hpre.
        destruct (decide (k = i)) as [->|Hne]; [congruence|].
        rewrite lookup_insert_ne in Hk by done. by apply (IH k).
      * destruct IH as (k & Hpre & Hk). exists k. split; [done|].
        rewrite lookup_insert_ne; [done|]. intros ->. congruence.
Qed.

(** X23: [parseMetadata] panics exactly when some header whose name starts
    with the metadata prefix has an empty list of values; otherwise its
    result holds, under each key, the first value of the header named by
    the prefix followed by the key, and nothing else, whatever the order
    in which the headers are visited. *)
Theorem X23_parseMetadata_cases r :
  match parseMetadata r with
  | Some m =>
      (∀ k, m !! k = rHeader r !! (api.MetadataPrefix +:+ k) ≫= head)
      ∧ (∀ k vs, rHeader r !! k = Some vs →
                 GoString.HasPrefix k api.MetadataPrefix = true → vs ≠ [])
  | None =>
      ∃ k, GoString.HasPrefix k api.MetadataPrefix = true ∧ rHeader r !! k = Some []
  end.
Proof.
  pose proof (parseMetadata_values r) as Hv.
  destruct (parseMetadata r) as [m|] eqn:Hm; [|exact Hv].
  split; [|exact Hv]. intros k. by apply parseMetadata_lookup.
Qed.

(** ** [PutObjectHandler] *)

(** X24: an upload is answered once.  When [PutObject] succeeds the
    response is the headers-only success, with the ETag header set to the
    hash of the stored object, and nothing is logged; when it fails,
    whatever the error, the response is the internal error with status 500
    and the text of the error as description, the ETag header is not set
    and the error is logged with the request id, the bucket and the key;
    when the handler panics it has called, written and logged nothing, and
    some metadata header has no value. *)
Theorem X24_put_response e r :
  let s := fst (Put.PutObjectHandler e r Put.State0) in
  match snd (Put.PutObjectHandler e r Put.State0) with
  | Next _ =>
      ∃ p info, Put.puts s = [p]
        ∧ Put.PutObject e (rContext r) p = inl info
        ∧ Put.written s = [Put.WSuccessResponseHeadersOnly]
        ∧ Put.header s = {[ Put.ETag e := [ObjectInfo.HashSum info] ]}
        ∧ Put.logged s = []
  | Returned =>
      ∃ p err, Put.puts s = [p]
        ∧ Put.PutObject e (rContext r) p = inr err
        ∧ Put.written s
          = [Put.WErrorResponse {| Put.Code := Put.InternalErrorCode e;
                                   Put.Description := Put.Error_text e err;
                                   Put.HTTPStatusCode := 500 |}]
        ∧ Put.header s = ∅
        ∧ Put.logged s
          = [{| Put.msg := "could not upload object";
                Put.fields := [("request_id", Put.GetRequestID e (rContext r));
                               ("bucket_name", Var r "bucket");
                               ("object_name", Var r "object")];
                Put.cause := err |}]
  | Panicked =>
      s = Put.State0
      ∧ ∃ k, GoString.HasPrefix k api.MetadataPrefix = true ∧ rHeader r !! k = Some []
  end.
Proof.
  intros s. subst s. unfold Put.PutObjectHandler.
  pose proof (parseMetadata_values r) as Hv.
  destruct (parseMetadata r) as [m|]; [|by split].
  simpl. destruct (Put.PutObject e (rContext r) _) as [info|err] eqn:Hput; simpl.
  - eexists _, info. split; [reflexivity|]. split; [exact Hput|].
    split; [done|]. split; [by rewrite insert_empty|done].
  - eexists _, err. split; [reflexivity|]. split; [exact Hput|]. done.
Qed.

(** X25: what [PutObject] is asked to store: the bucket and the key of the
    route (empty when the route has none), the body and the declared
    length of the request, and as metadata the first value of every header
    that starts with the metadata prefix, under the rest of its name; no
    other header of the request is stored. *)
Theorem X25_put_params e r :
  Forall (λ p,
    Put.Bucket p = default "" (rVars r !! "bucket")
    ∧ Put.Object p = default "" (rVars r !! "object")
    ∧ Put.Reader p = rBody r
    ∧ Put.Size p = rContentLength r
    ∧ ∀ k, Put.Header p !! k = rHeader r !! (api.MetadataPrefix +:+ k) ≫= head)
    (Put.puts (fst (Put.PutObjectHandler e r Put.State0))).
Proof.
  unfold Put.PutObjectHandler.
  destruct (parseMetadata r) as [m|] eqn:Hm; [|constructor].
  simpl. destruct (Put.PutObject e (rContext r) _); simpl;
    (constructor; [|constructor]); simpl; repeat split; try done;
    intros k; by apply parseMetadata_lookup.
Qed.

Lemma X16_copy_source_version_witness :
  url_Parse (lib Rich.h) (Header_Get (rHeader Rich.copyVersioned) api.AmzCopySource)
  = inl Rich.url7
  ∧ Forall (λ p, HeadObjectParams.VersionID p
                 = Header_Get (Query Rich.url7) api.QueryVersionID
               ∧ ∃ b, path2BucketObject (Path Rich.url7)
                      = inl (b, HeadObjectParams.Object p))
      (headCalls (calls (run (CopyObjectHandler Rich.h Rich.copyVersioned)
                           (World0 Demo.store)))).
Proof.
  split; [vm_compute; reflexivity|].
  apply (X16_copy_source_version Rich.h Rich.copyVersioned Demo.store Rich.url7).
  vm_compute. reflexivity.
Defined.

Lemma X19_copy_checks_first_witness :
  let cs := calls (run (CopyObjectHandler Rich.h Rich.copyVersioned) (World0 Demo.store)) in
  ∃ p b dst,
    headCalls cs = [p]
    ∧ path2BucketObject (snd (copySourceOf (lib Rich.h) Rich.copyVersioned))
      = inl (b, HeadObjectParams.Object p)
    ∧ getBucketAndCheckOwner (lib Rich.h) Rich.copyVersioned b
        [api.AmzSourceExpectedBucketOwner]
      = inl (HeadObjectParams.BktInfo p)
    ∧ getBucketAndCheckOwner (lib Rich.h) Rich.copyVersioned
        (BucketName (GetReqInfo (lib Rich.h) (rContext Rich.copyVersioned))) []
      = inl dst
    ∧ (containsACLHeaders (lib Rich.h) Rich.copyVersioned = true →
       ∃ t, getSessionTokenSetEACL (lib Rich.h) (rContext Rich.copyVersioned) = inl t).
Proof.
  apply (X19_copy_checks_first Rich.h Rich.copyVersioned Demo.store).
  vm_compute. discriminate.
Defined.

Lemma X15_copy_tags_witness :
  let cs := calls (run (CopyObjectHandler Rich.h Rich.copyVersioned) (World0 Demo.store)) in
  length (tagCalls cs) = 1%nat
  ∧ Forall (tagsPut Rich.h Rich.copyVersioned cs) (tagCalls cs).
Proof.
  split; [vm_compute; reflexivity|].
  apply (X15_copy_tags Rich.h Rich.copyVersioned Demo.store).
Defined.

Lemma X17_copy_params_witness :
  let cs := calls (run (CopyObjectHandler Rich.h Rich.copyVersioned) (World0 Demo.store)) in
  length (copyCalls cs) = 1%nat
  ∧ Forall (copyAsked Rich.h Rich.copyVersioned cs) (copyCalls cs).
Proof.
  split; [vm_compute; reflexivity|].
  apply (X17_copy_params Rich.h Rich.copyVersioned Demo.store).
Defined.

Lemma X18_copy_checked_witness :
  let cs := calls (run (CopyObjectHandler Rich.h Rich.copyVersioned) (World0 Demo.store)) in
  length (copyCalls cs) = 1%nat
  ∧ Forall (copyGuarded Rich.h Rich.copyVersioned cs) (copyCalls cs).
Proof.
  split; [vm_compute; reflexivity|].
  apply (X18_copy_checked Rich.h Rich.copyVersioned Demo.store).
Defined.

Lemma X20_copy_acl_witness :
  let cs := calls (run (CopyObjectHandler Rich.h Rich.copyVersioned) (World0 Demo.store)) in
  length (aclCalls cs) = 1%nat
  ∧ Forall (aclPut Rich.h Rich.copyVersioned cs) (aclCalls cs).
Proof.
  split; [vm_compute; reflexivity|].
  apply (X20_copy_acl Rich.h Rich.copyVersioned Demo.store).
Defined.

Lemma X22_copy_notification_witness :
  let cs := calls (run (CopyObjectHandler Rich.h Rich.copyVersioned) (World0 Demo.store)) in
  length (notifyCalls cs) = 1%nat
  ∧ Forall (notified Rich.h Rich.copyVersioned cs) (notifyCalls cs).
Proof.
  split; [vm_compute; reflexivity|].
  apply (X22_copy_notification Rich.h Rich.copyVersioned Demo.store).
Defined.

Lemma X25_put_params_witness :
  let ps := Put.puts (fst (Put.PutObjectHandler (Rich.env false) Rich.upload Put.State0)) in
  length ps = 1%nat
  ∧ Forall (λ p,
      Put.Bucket p = default "" (rVars Rich.upload !! "bucket")
      ∧ Put.Object p = default "" (rVars Rich.upload !! "object")
      ∧ Put.Reader p = rBody Rich.upload
      ∧ Put.Size p = rContentLength Rich.upload
      ∧ ∀ k, Put.Header p !! k
             = rHeader Rich.upload !! (api.MetadataPrefix +:+ k) ≫= head) ps.
Proof.
  split; [vm_compute; reflexivity|].
  apply (X25_put_params (Rich.env false) Rich.upload).
Defined.

(** The upload of the example stores its one metadata header under the
    rest of its name, and answers a refused upload with status 500. *)
Lemma put_examples :
  (Put.Header <$> Put.puts (fst (Put.PutObjectHandler (Rich.env false) Rich.upload
                                   Put.State0)))
  = [ {[ "Color" := "red" ]} ]
  ∧ (Put.written (fst (Put.PutObjectHandler (Rich.env true) Rich.upload Put.State0)))
    = [Put.WErrorResponse {| Put.Code := "InternalError";
                             Put.Description := "access denied";
                             Put.HTTPStatusCode := 500 |}].
Proof. split; vm_compute; reflexivity. Qed.
